(** * shade: resource normalizers and list filters

    A shallow embedding of [shade/_normalize.py] (the [Normalizer] mix-in)
    and of the list-filtering helpers exercised by
    [shade/tests/unit/test__utils.py].

    Python dictionaries are mutable objects that are shared by reference:
    the normalizers pop fields out of the records they are given and store
    nested records in their results.  The embedding therefore keeps an
    explicit store of dictionary objects and threads it through every
    operation; a Python value that is a dictionary is a reference into that
    store. *)

From Stdlib Require Import ZArith String Ascii.
From Stdlib Require Import Floats.SpecFloat.
From stdpp Require Import gmap strings list fin_maps.

Set Warnings "-register-all".

Open Scope string_scope.
Open Scope Z_scope.

(** ** Python values *)

Definition loc := nat.

(** JSON-like values.  Lists and tuples are never updated in place by the
    code under study, so they are plain values; dictionaries (and [Munch]
    objects, which are dictionaries) live in the store. *)
Inductive value :=
| VNone
| VBool (b : bool)
| VInt (z : Z)
| VFloat (f : spec_float)
| VStr (s : string)
| VList (l : list value)
| VTuple (l : list value)
| VDict (r : loc).

Abbreviation dict := (gmap string value).
Abbreviation heap := (gmap loc dict).

(** ** Exceptions and the store monad *)

Inductive exn :=
| KeyError (k : string)
| AttributeError
| TypeError
| ValueError
| OverflowError
| IndexError
| OpenStackCloudException (msg : string)
| DanglingRef.  (* a reference without an object: impossible in Python *)

Inductive result (A : Type) :=
| Ok (a : A)
| Raise (e : exn).
Arguments Ok {A} a.
Arguments Raise {A} e.

Definition M (A : Type) : Type := heap → result A * heap.

Definition run {A} (m : M A) (h : heap) : result A * heap := m h.

#[global] Instance M_ret : MRet M := λ A a h, (Ok a, h).
#[global] Instance M_bind : MBind M := λ A B f m h,
  match m h with
  | (Ok a, h') => f a h'
  | (Raise e, h') => (Raise e, h')
  end.
#[global] Instance M_fmap : FMap M := λ A B f m, a ← m; mret (f a).

Definition raise {A} (e : exn) : M A := λ h, (Raise e, h).

Definition lift {A} (r : result A) : M A := λ h, (r, h).

(** [for x in xs: body(x)] *)
Fixpoint for_each {A} (xs : list A) (body : A → M unit) : M unit :=
  match xs with
  | [] => mret tt
  | x :: xs' => body x;; for_each xs' body
  end.

(** [ret = []; for x in xs: ret.append(f(x)); return ret] *)
Fixpoint collect {A B} (xs : list A) (f : A → M B) : M (list B) :=
  match xs with
  | [] => mret []
  | x :: xs' => y ← f x; ys ← collect xs' f; mret (y :: ys)
  end.

(** ** Built-in operations *)

(** *** Strings (ASCII) *)

(** The blanks that [int()] skips around a literal: the characters 9 to 13
    and the space.  (The separators 28 to 31, which [str.strip()] removes,
    are not among them: [int] of a string that has one is a
    [ValueError].) *)
Definition is_space (a : ascii) : bool :=
  let n := nat_of_ascii a in
  (((9 <=? n) && (n <=? 13)) || (n =? 32))%nat.

Definition is_digit (a : ascii) : bool :=
  let n := nat_of_ascii a in ((48 <=? n) && (n <=? 57))%nat.

Definition digit_val (a : ascii) : Z := Z.of_nat (nat_of_ascii a) - 48.

Definition lower_ascii (a : ascii) : ascii :=
  let n := nat_of_ascii a in
  if ((65 <=? n) && (n <=? 90))%nat then ascii_of_nat (n + 32) else a.

Definition upper_ascii (a : ascii) : ascii :=
  let n := nat_of_ascii a in
  if ((97 <=? n) && (n <=? 122))%nat then ascii_of_nat (n - 32) else a.

(** [s.lower()] *)
Fixpoint lower (s : string) : string :=
  match s with
  | EmptyString => EmptyString
  | String a s' => String (lower_ascii a) (lower s')
  end.

(** [s.capitalize()] *)
Definition capitalize (s : string) : string :=
  match s with
  | EmptyString => EmptyString
  | String a s' => String (upper_ascii a) (lower s')
  end.

Fixpoint lstrip (s : string) : string :=
  match s with
  | String a s' => if is_space a then lstrip s' else s
  | EmptyString => EmptyString
  end.

Fixpoint rstrip (s : string) : string :=
  match s with
  | EmptyString => EmptyString
  | String a s' =>
      match rstrip s' with
      | EmptyString => if is_space a then EmptyString else String a EmptyString
      | t => String a t
      end
  end.

(** The string without the blanks at its ends *)
Definition strip (s : string) : string := rstrip (lstrip s).

(** [s.split(sep)] for a one-character separator *)
Fixpoint split (sep : ascii) (s : string) : list string :=
  match s with
  | EmptyString => [EmptyString]
  | String a s' =>
      if Ascii.eqb a sep then EmptyString :: split sep s'
      else match split sep s' with
           | [] => [String a EmptyString]
           | w :: ws => String a w :: ws
           end
  end.

(** Decimal digits with single underscores allowed between digits, as
    accepted by [int()]; [prev] tells whether the previous character was a
    digit. *)
Fixpoint int_digits (acc : Z) (prev : bool) (s : string) : option Z :=
  match s with
  | EmptyString => if prev then Some acc else None
  | String a s' =>
      if is_digit a then int_digits (acc * 10 + digit_val a) true s'
      else if Ascii.eqb a "_" then
        if prev then int_digits acc false s' else None
      else None
  end.

Fixpoint count_digits (s : string) : nat :=
  match s with
  | EmptyString => 0
  | String a s' => if is_digit a then S (count_digits s') else count_digits s'
  end.

(** The literal of an [int]: [int()] refuses a literal of more than 4300
    digits, the default limit of Python 3 on the conversion of strings. *)
Definition int_literal (t : string) : option Z :=
  if (4300 <? count_digits t)%nat then None else int_digits 0 false t.

(** [int(s)] for a string [s], base 10: blanks at both ends, an optional
    sign, then the digits. *)
Definition int_of_string (s : string) : option Z :=
  match strip s with
  | String "-" t => Z.opp <$> int_literal t
  | String "+" t => int_literal t
  | t => int_literal t
  end.

(** *** Floats (binary64, through the IEEE 754 specification) *)

Definition float_of_Z (z : Z) : result spec_float :=
  match binary_normalize 53 1024 z 0 false with
  | S754_infinity _ => Raise OverflowError
  | f => Ok f
  end.

(** [int(f)]: truncation toward zero *)
Definition float_trunc (f : spec_float) : result Z :=
  match f with
  | S754_zero _ => Ok 0
  | S754_infinity _ => Raise OverflowError
  | S754_nan => Raise ValueError
  | S754_finite s m e =>
      let a := match e with
               | Zneg p => Z.pos m / 2 ^ Z.pos p
               | _ => Z.pos m * 2 ^ e
               end in
      Ok (if s then - a else a)
  end.

(** [f == z] for an [int] [z]: exact comparison *)
Definition float_eq_Z (f : spec_float) (z : Z) : bool :=
  match f with
  | S754_zero _ => z =? 0
  | S754_finite s m e =>
      let sm := if s then Z.neg m else Z.pos m in
      match e with
      | Zneg p => sm =? z * 2 ^ Z.pos p
      | _ => sm * 2 ^ e =? z
      end
  | _ => false
  end.

(** *** Conversions and comparisons on values *)

(** [int(v)] *)
Definition py_int (v : value) : result Z :=
  match v with
  | VInt z => Ok z
  | VBool b => Ok (if b then 1 else 0)
  | VFloat f => float_trunc f
  | VStr s => match int_of_string s with
              | Some z => Ok z
              | None => Raise ValueError
              end
  | _ => Raise TypeError
  end.

(** [v == z] for an [int] literal [z] *)
Definition py_eq_int (v : value) (z : Z) : bool :=
  match v with
  | VInt z' => z' =? z
  | VBool b => (if b then 1 else 0) =? z
  | VFloat f => float_eq_Z f z
  | _ => false
  end.

(** [v == s] for a string literal [s] *)
Definition py_eq_str (v : value) (s : string) : bool :=
  match v with
  | VStr s' => String.eqb s' s
  | _ => false
  end.

(** [v is not None] *)
Definition is_not_None (v : value) : bool :=
  match v with
  | VNone => false
  | _ => true
  end.

(** [str(v) != v]: [str(v)] is a string, and a string is equal to strings
    only; [str(s)] is [s] itself. *)
Definition str_differs (v : value) : bool :=
  match v with
  | VStr _ => false
  | _ => true
  end.

(** [bool(v)] *)
Definition truthy (v : value) : M bool :=
  match v with
  | VNone => mret false
  | VBool b => mret b
  | VInt z => mret (negb (z =? 0))
  | VFloat (S754_zero _) => mret false
  | VFloat _ => mret true
  | VStr s => mret (negb (String.eqb s ""))
  | VList l | VTuple l => mret (match l with [] => false | _ => true end)
  | VDict r => λ h, match h !! r with
                    | Some d => (Ok (negb (bool_decide (dom d = ∅))), h)
                    | None => (Raise DanglingRef, h)
                    end
  end.

(** [a or b] *)
Definition py_or (a b : value) : M value :=
  truthy a ≫= λ t : bool, mret (if t then a else b).

(** ** Dictionary objects *)

(** Allocation of a new dictionary object ([{}], [dict(...)],
    [munch.Munch(...)]). *)
Definition new_dict (d : dict) : M value := λ h,
  let r := fresh (dom h) in (Ok (VDict r), <[r := d]> h).

(** The object a method is called on.  Only dictionaries have the
    two-argument [pop], [get], [setdefault] and [items]; [e] is the error
    Python raises for the other types. *)
Definition receiver (e : exn) (o : value) : M (loc * dict) :=
  match o with
  | VDict r => λ h, match h !! r with
                    | Some d => (Ok (r, d), h)
                    | None => (Raise DanglingRef, h)
                    end
  | _ => raise e
  end.

(** A list has a one-argument [pop] that wants an index. *)
Definition pop_error (o : value) : exn :=
  match o with
  | VList _ => TypeError
  | _ => AttributeError
  end.

Definition store (r : loc) (d : dict) : M unit := λ h, (Ok tt, <[r := d]> h).

(** [o.copy()].  A list is copied as well, but every caller calls [pop]
    with a string key on the copy next, which is a [TypeError]. *)
Definition py_copy (o : value) : M value :=
  '(_, d) ← receiver (pop_error o) o; new_dict d.

(** [o.pop(k)] *)
Definition py_pop (o : value) (k : string) : M value :=
  '(r, d) ← receiver (pop_error o) o;
  match d !! k with
  | Some v => store r (delete k d);; mret v
  | None => raise (KeyError k)
  end.

(** [o.pop(k, default)] *)
Definition py_pop_d (o : value) (k : string) (default : value) : M value :=
  '(r, d) ← receiver (pop_error o) o;
  match d !! k with
  | Some v => store r (delete k d);; mret v
  | None => mret default
  end.

(** [o.get(k, default)] *)
Definition py_get_d (o : value) (k : string) (default : value) : M value :=
  '(_, d) ← receiver AttributeError o;
  mret (match d !! k with Some v => v | None => default end).

(** [o[k]] *)
Definition py_getitem (o : value) (k : string) : M value :=
  '(_, d) ← receiver TypeError o;
  match d !! k with
  | Some v => mret v
  | None => raise (KeyError k)
  end.

(** [o[k] = v] *)
Definition py_setitem (o : value) (k : string) (v : value) : M unit :=
  '(r, d) ← receiver TypeError o; store r (<[k := v]> d).

(** [o.setdefault(k, v)] *)
Definition py_setdefault (o : value) (k : string) (v : value) : M unit :=
  '(r, d) ← receiver AttributeError o;
  match d !! k with
  | Some _ => mret tt
  | None => store r (<[k := v]> d)
  end.

(** [o.items()]; the keys are distinct, and the loops over it do not
    depend on their order. *)
Definition py_items (o : value) : M (list (string * value)) :=
  '(_, d) ← receiver AttributeError o; mret (map_to_list d).

(** The elements [for x in v] runs through. *)
Definition py_iter (v : value) : M (list value) :=
  match v with
  | VList l | VTuple l => mret l
  | VStr s => mret ((λ a, VStr (String a EmptyString)) <$> list_ascii_of_string s)
  | VDict _ => kvs ← py_items v; mret ((λ kv, VStr kv.1) <$> kvs)
  | _ => raise TypeError
  end.

(** ** The cloud object

    The normalizers are methods of a mix-in class; [self] supplies the
    strict-mode flag, the identifiers of the cloud and the location
    resolver, which is defined outside [_normalize.py] and is taken here as
    a function of the project identifier and the zone. *)
Record cloud := {
  strict_mode : bool;
  current_location : value;
  _get_current_location : value → value → value;
  region_name : value;
  cloud_name : value;
  _use_neutron_floating : bool;
}.

(** ** [_normalize.py] *)

Definition _IMAGE_FIELDS : list string :=
  [ "checksum"; "container_format"; "created_at"; "direct_url";
    "disk_format"; "file"; "id"; "min_disk"; "min_ram"; "name"; "owner";
    "size"; "status"; "tags"; "updated_at"; "virtual_size" ].

Definition _SERVER_FIELDS : list string :=
  [ "accessIPv4"; "accessIPv6"; "addresses"; "adminPass"; "created";
    "key_name"; "metadata"; "networks"; "private_v4"; "public_v4";
    "public_v6"; "security_groups"; "status"; "updated"; "user_id" ].

Definition _to_bool (value : value) : M bool :=
  match value with
  | VStr s =>
      if String.eqb s "" then mret false
      else
        let prospective := capitalize (lower s) in
        mret (String.eqb prospective "True")
  | _ => truthy value
  end.

(** [int(v)] as a value *)
Definition int_ (v : value) : M value := z ← lift (py_int v); mret (VInt z).

Definition _pop_int (resource : value) (key : string) : M value :=
  v ← py_pop_d resource key (VInt 0); v ← py_or v (VInt 0); int_ v.

Definition _pop_or_get (resource : value) (key : string) (default : value)
    (strict : bool) : M value :=
  if strict then py_pop_d resource key default
  else py_get_d resource key default.

(** The pass-through loop that closes the compatibility block of five of
    the normalizers:
    [for (k, v) in ret['properties'].items(): ret.setdefault(k, v)] *)
Definition passthrough (ret : value) : M unit :=
  properties ← py_getitem ret "properties";
  items ← py_items properties;
  for_each items (λ kv, py_setdefault ret kv.1 kv.2).

Section Flavor.
(** [float(s)] for a string [s]: Python's decimal-to-binary conversion,
    which is not modelled. *)
Variable float_of_string : string → option spec_float.

(** [float(v)] *)
Definition py_float (v : value) : result spec_float :=
  match v with
  | VInt z => float_of_Z z
  | VBool b => float_of_Z (if b then 1 else 0)
  | VFloat f => Ok f
  | VStr s => match float_of_string s with
              | Some f => Ok f
              | None => Raise ValueError
              end
  | _ => Raise TypeError
  end.

Definition _pop_float (resource : value) (key : string) : M value :=
  v ← py_pop_d resource key (VInt 0); v ← py_or v (VInt 0);
  f ← lift (py_float v); mret (VFloat f).

(** [_normalize_flavor] up to its compatibility block: the canonical
    record. *)
Definition flavor_canonical (self : cloud) (flavor : value) : M value :=
new_flavor ← new_dict ∅;
(* Copy incoming group because of shared dicts in unittests *)
flavor ← py_copy flavor;
(* Discard noise *)
py_pop_d flavor "links" VNone;;
py_pop_d flavor "NAME_ATTR" VNone;;
py_pop_d flavor "HUMAN_ID" VNone;;
py_pop_d flavor "human_id" VNone;;
ephemeral ← _pop_or_get flavor "OS-FLV-EXT-DATA:ephemeral" (VInt 0)
              (strict_mode self) ≫= int_;
ephemeral ← py_pop_d flavor "ephemeral" ephemeral;
is_public ← _pop_or_get flavor "os-flavor-access:is_public" (VBool true)
              (strict_mode self) ≫= _to_bool;
is_public ← py_pop_d flavor "is_public" (VBool is_public) ≫= _to_bool;
is_disabled ← _pop_or_get flavor "OS-FLV-DISABLED:disabled" (VBool false)
                (strict_mode self) ≫= _to_bool;
extra_specs ← (empty ← new_dict ∅; py_pop_d flavor "extra_specs" empty);
py_setitem new_flavor "location" (current_location self);;
py_pop flavor "id" ≫= py_setitem new_flavor "id";;
py_pop flavor "name" ≫= py_setitem new_flavor "name";;
py_setitem new_flavor "is_public" (VBool is_public);;
py_setitem new_flavor "is_disabled" (VBool is_disabled);;
_pop_int flavor "ram" ≫= py_setitem new_flavor "ram";;
_pop_int flavor "vcpus" ≫= py_setitem new_flavor "vcpus";;
_pop_int flavor "disk" ≫= py_setitem new_flavor "disk";;
py_setitem new_flavor "ephemeral" ephemeral;;
_pop_int flavor "swap" ≫= py_setitem new_flavor "swap";;
_pop_float flavor "rxtx_factor" ≫= py_setitem new_flavor "rxtx_factor";;
py_copy flavor ≫= py_setitem new_flavor "properties";;
py_setitem new_flavor "extra_specs" extra_specs;;
mret new_flavor.

Definition _normalize_flavor (self : cloud) (flavor : value) : M value :=
new_flavor ← flavor_canonical self flavor;
(* Backwards compat with nova - passthrough values *)
(if negb (strict_mode self) then passthrough new_flavor else mret tt);;
mret new_flavor.

Definition _normalize_flavors (self : cloud) (flavors : value) : M value :=
  flavors ← py_iter flavors;
  ret ← collect flavors (_normalize_flavor self);
  mret (VList ret).
End Flavor.

(** [_normalize_image] up to its compatibility block: the canonical
    record, with the locals the block uses. *)
Definition image_canonical (self : cloud) (image : value)
    : M (value * value * bool) :=
  new_image ← (owner ← py_get_d image "owner" VNone;
               new_dict {[ "location" := _get_current_location self owner VNone ]});
  properties ← (empty ← new_dict ∅; py_pop_d image "properties" empty);
  visibility ← py_pop_d image "visibility" VNone;
  protected ← py_pop_d image "protected" (VBool false) ≫= _to_bool;
  '(is_public, visibility) ←
    (given ← truthy visibility;
     if given : bool then
       mret (VBool (py_eq_str visibility "public"), visibility)
     else
       is_public ← py_pop_d image "is_public" (VBool false);
       public ← truthy is_public;
       mret (is_public, VStr (if public : bool then "public" else "private")));
  for_each _IMAGE_FIELDS (λ field,
    py_pop_d image field VNone ≫= py_setitem new_image field);;
  for_each ["min_ram"; "min_disk"; "size"; "virtual_size"] (λ field,
    _pop_int new_image field ≫= py_setitem new_image field);;
  py_setitem new_image "is_protected" (VBool protected);;
  py_pop_d image "locations" (VList []) ≫= py_setitem new_image "locations";;
  (items ← py_items image;
   for_each items (λ kv, py_setdefault properties kv.1 kv.2));;
  py_setitem new_image "properties" properties;;
  py_setitem new_image "visibility" visibility;;
  py_setitem new_image "is_public" is_public;;
  mret (new_image, properties, protected).

Definition _normalize_image (self : cloud) (image : value) : M value :=
  '(new_image, properties, protected) ← image_canonical self image;
  (* Backwards compat with glance *)
  (if negb (strict_mode self) then
     (items ← py_items properties;
      for_each items (λ kv, py_setitem new_image kv.1 kv.2));;
     py_setitem new_image "protected" (VBool protected)
   else mret tt);;
  mret new_image.

Definition _normalize_images (self : cloud) (images : value) : M value :=
  images ← py_iter images;
  ret ← collect images (_normalize_image self);
  mret (VList ret).

(** [_normalize_secgroup_rule] up to its compatibility block: the canonical
    record, with the local the block uses. *)
Definition secgroup_rule_canonical (self : cloud) (rule : value)
    : M (value * value) :=
  ret ← new_dict ∅;
  (* Copy incoming rule because of shared dicts in unittests *)
  rule ← py_copy rule;
  py_pop rule "id" ≫= py_setitem ret "id";;
  py_pop_d rule "direction" (VStr "ingress") ≫= py_setitem ret "direction";;
  py_pop_d rule "ethertype" (VStr "IPv4") ≫= py_setitem ret "ethertype";;
  port_range_min ← (from_port ← py_pop_d rule "from_port" VNone;
                    py_get_d rule "port_range_min" from_port);
  let port_range_min :=
    if py_eq_int port_range_min (-1) then VNone else port_range_min in
  port_range_min ←
    (if is_not_None port_range_min then int_ port_range_min
     else mret port_range_min);
  py_setitem ret "port_range_min" port_range_min;;
  port_range_max ← (to_port ← py_pop_d rule "to_port" VNone;
                    py_pop_d rule "port_range_max" to_port);
  let port_range_max :=
    if py_eq_int port_range_max (-1) then VNone else port_range_max in
  port_range_min ←
    (if is_not_None port_range_min then int_ port_range_min
     else mret port_range_min);
  py_setitem ret "port_range_max" port_range_max;;
  (ip_protocol ← py_pop_d rule "ip_protocol" VNone;
   py_pop_d rule "protocol" ip_protocol) ≫= py_setitem ret "protocol";;
  (cidr ← (empty ← new_dict ∅;
           ip_range ← py_pop_d rule "ip_range" empty;
           py_get_d ip_range "cidr" VNone);
   py_pop_d rule "remote_ip_prefix" cidr) ≫= py_setitem ret "remote_ip_prefix";;
  (parent_group_id ← py_pop_d rule "parent_group_id" VNone;
   py_pop_d rule "security_group_id" parent_group_id)
    ≫= py_setitem ret "security_group_id";;
  py_pop_d rule "remote_group_id" VNone ≫= py_setitem ret "remote_group_id";;
  project_id ← py_pop_d rule "tenant_id" (VStr "");
  project_id ← py_pop_d rule "project_id" project_id;
  py_setitem ret "location" (_get_current_location self project_id VNone);;
  py_setitem ret "properties" rule;;
  mret (ret, project_id).

Definition _normalize_secgroup_rule (self : cloud) (rule : value) : M value :=
  '(ret, project_id) ← secgroup_rule_canonical self rule;
  (* Backwards compat with Neutron *)
  (if negb (strict_mode self) then
     py_setitem ret "tenant_id" project_id;;
     py_setitem ret "project_id" project_id;;
     passthrough ret
   else mret tt);;
  mret ret.

Definition _normalize_secgroup_rules (self : cloud) (rules : value) : M value :=
  rules ← py_iter rules;
  ret ← collect rules (_normalize_secgroup_rule self);
  mret (VList ret).

(** [_normalize_secgroup] up to its compatibility block: the canonical
    record, with the local the block uses. *)
Definition secgroup_canonical (self : cloud) (group : value)
    : M (value * value) :=
  ret ← new_dict ∅;
  (* Copy incoming group because of shared dicts in unittests *)
  group ← py_copy group;
  rules ← (rules ← py_pop_d group "rules" (VList []);
           py_pop_d group "security_group_rules" rules)
            ≫= _normalize_secgroup_rules self;
  project_id ← py_pop_d group "tenant_id" (VStr "");
  project_id ← py_pop_d group "project_id" project_id;
  py_setitem ret "location" (_get_current_location self project_id VNone);;
  py_pop group "id" ≫= py_setitem ret "id";;
  py_pop group "name" ≫= py_setitem ret "name";;
  py_setitem ret "security_group_rules" rules;;
  py_pop group "description" ≫= py_setitem ret "description";;
  py_setitem ret "properties" group;;
  mret (ret, project_id).

Definition _normalize_secgroup (self : cloud) (group : value) : M value :=
  '(ret, project_id) ← secgroup_canonical self group;
  (* Backwards compat with Neutron *)
  (if negb (strict_mode self) then
     py_setitem ret "tenant_id" project_id;;
     py_setitem ret "project_id" project_id;;
     passthrough ret
   else mret tt);;
  mret ret.

Definition _normalize_secgroups (self : cloud) (groups : value) : M value :=
  groups ← py_iter groups;
  ret ← collect groups (_normalize_secgroup self);
  mret (VList ret).

(** [l[1]] *)
Definition item1 (l : list string) : result string :=
  match l with
  | _ :: x :: _ => Ok x
  | _ => Raise IndexError
  end.

(** [_normalize_server] up to its compatibility block: the canonical
    record, with the locals the block uses. *)
Definition server_canonical (self : cloud) (server : value)
    : M (value * value * value * value * value) :=
  ret ← new_dict ∅;
  (* Copy incoming server because of shared dicts in unittests *)
  server ← py_copy server;
  py_pop_d server "links" VNone;;
  py_pop_d server "NAME_ATTR" VNone;;
  py_pop_d server "HUMAN_ID" VNone;;
  py_pop_d server "human_id" VNone;;
  py_pop server "id" ≫= py_setitem ret "id";;
  py_pop server "name" ≫= py_setitem ret "name";;
  (flavor ← py_getitem server "flavor"; py_pop_d flavor "links" VNone);;
  py_pop server "flavor" ≫= py_setitem ret "flavor";;
  (* OpenStack can return image as a string when you've booted from volume;
     both sides of the test read the same [server['image']] *)
  (image ← py_getitem server "image";
   if str_differs image then
     image ← py_getitem server "image";
     py_pop_d image "links" VNone;; mret tt
   else mret tt);;
  py_pop server "image" ≫= py_setitem ret "image";;
  project_id ← py_pop_d server "tenant_id" (VStr "");
  project_id ← py_pop_d server "project_id" project_id;
  az ← _pop_or_get server "OS-EXT-AZ:availability_zone" VNone
         (strict_mode self);
  py_setitem ret "location" (_get_current_location self project_id az);;
  (* Ensure volumes is always in the server dict, even if empty *)
  _pop_or_get server "os-extended-volumes:volumes_attached" (VList [])
    (strict_mode self) ≫= py_setitem ret "volumes";;
  config_drive ← py_pop_d server "config_drive" (VBool false);
  (has_config_drive ← _to_bool config_drive;
   py_setitem ret "has_config_drive" (VBool has_config_drive));;
  host_id ← py_pop_d server "hostId" VNone;
  py_setitem ret "host_id" host_id;;
  _pop_int server "progress" ≫= py_setitem ret "progress";;
  (* Leave these in so that the general properties handling works *)
  _pop_or_get server "OS-DCF:diskConfig" VNone (strict_mode self)
    ≫= py_setitem ret "disk_config";;
  for_each [ "OS-EXT-STS:power_state"; "OS-EXT-STS:task_state";
             "OS-EXT-STS:vm_state"; "OS-SRV-USG:launched_at";
             "OS-SRV-USG:terminated_at" ] (λ key,
    short_key ← lift (item1 (split ":" key));
    _pop_or_get server key VNone (strict_mode self)
      ≫= py_setitem ret short_key);;
  for_each _SERVER_FIELDS (λ field,
    py_pop_d server field VNone ≫= py_setitem ret field);;
  py_setitem ret "interface_ip" (VStr "");;
  py_copy server ≫= py_setitem ret "properties";;
  mret (ret, host_id, config_drive, project_id, az).

Definition _normalize_server (self : cloud) (server : value) : M value :=
  '(ret, host_id, config_drive, project_id, az) ← server_canonical self server;
  (* Backwards compat *)
  (if negb (strict_mode self) then
     py_setitem ret "hostId" host_id;;
     py_setitem ret "config_drive" config_drive;;
     py_setitem ret "project_id" project_id;;
     py_setitem ret "tenant_id" project_id;;
     py_setitem ret "region" (region_name self);;
     py_setitem ret "cloud" (cloud_name self);;
     py_setitem ret "az" az;;
     passthrough ret
   else mret tt);;
  mret ret.

Definition _normalize_servers (self : cloud) (servers : value) : M value :=
  servers ← py_iter servers;
  ret ← collect servers (_normalize_server self);
  mret (VList ret).

(** [_normalize_floating_ip] up to its compatibility block: the canonical
    record, with the locals the block uses. *)
Definition floating_ip_canonical (self : cloud) (ip : value)
    : M (value * value * value * value * value) :=
  ret ← new_dict ∅;
  (* Copy incoming floating ip because of shared dicts in unittests *)
  ip ← py_copy ip;
  fixed_ip_address ← (fixed_ip ← py_pop_d ip "fixed_ip" VNone;
                      py_pop_d ip "fixed_ip_address" fixed_ip);
  floating_ip_address ← (ip' ← py_pop_d ip "ip" VNone;
                         py_pop_d ip "floating_ip_address" ip');
  network_id ← (pool ← py_pop_d ip "pool" VNone;
                network ← py_pop_d ip "network" pool;
                py_pop_d ip "floating_network_id" network);
  project_id ← py_pop_d ip "tenant_id" (VStr "");
  project_id ← py_pop_d ip "project_id" project_id;
  instance_id ← py_pop_d ip "instance_id" VNone;
  router_id ← py_pop_d ip "router_id" VNone;
  id ← py_pop ip "id";
  port_id ← py_pop_d ip "port_id" VNone;
  '(attached, status) ←
    (if _use_neutron_floating self then
       attached ← truthy port_id;
       status ← py_pop_d ip "status" (VStr "UNKNOWN");
       mret (attached, status)
     else
       attached ← truthy instance_id;
       (* In neutron's terms, Nova floating IPs are always ACTIVE *)
       mret (attached, VStr "ACTIVE"));
  ret ← (properties ← py_copy ip;
         new_dict (<[ "attached" := VBool attached ]>
                  (<[ "fixed_ip_address" := fixed_ip_address ]>
                  (<[ "floating_ip_address" := floating_ip_address ]>
                  (<[ "id" := id ]>
                  (<[ "location" :=
                       _get_current_location self project_id VNone ]>
                  (<[ "network" := network_id ]>
                  (<[ "port" := port_id ]>
                  (<[ "router" := router_id ]>
                  (<[ "status" := status ]>
                  (<[ "properties" := properties ]> ∅)))))))))));
  mret (ret, port_id, router_id, project_id, network_id).

Definition _normalize_floating_ip (self : cloud) (ip : value) : M value :=
  '(ret, port_id, router_id, project_id, network_id) ←
    floating_ip_canonical self ip;
  (* Backwards compat *)
  (if negb (strict_mode self) then
     py_setitem ret "port_id" port_id;;
     py_setitem ret "router_id" router_id;;
     py_setitem ret "project_id" project_id;;
     py_setitem ret "tenant_id" project_id;;
     py_setitem ret "floating_network_id" (VTuple [network_id]);;
     passthrough ret
   else mret tt);;
  mret ret.

Definition _normalize_floating_ips (self : cloud) (ips : value) : M value :=
  ips ← py_iter ips;
  ret ← collect ips (_normalize_floating_ip self);
  mret (VList ret).

(** ** The list filters of [_utils.py] *)

Section Utils.
(** [str(v)] for a value that is not a string: Python's rendering of
    numbers and containers is not modelled. *)
Variable str_other : value → string.

(** [str(v)]: a string is rendered as it is. *)
Definition py_str (v : value) : string :=
  match v with
  | VStr s => s
  | _ => str_other v
  end.

(** An empty or false-like value.  The filters only read the records, so
    they are given as mappings without a store; a nested mapping is a
    reference and counts as non-empty. *)
Definition falsy (v : value) : bool :=
  match v with
  | VNone => true
  | VBool b => negb b
  | VInt z => z =? 0
  | VFloat (S754_zero _) => true
  | VFloat _ => false
  | VStr s => String.eqb s ""
  | VList l | VTuple l => match l with [] => true | _ => false end
  | VDict _ => false
  end.

Definition extremum_message (want_max : bool) (key : string) (v : value)
    : string :=
  "Search for " ++ (if want_max then "maximum" else "minimum")
    ++ " value failed. Value for " ++ key ++ " is not an integer: "
    ++ py_str v.

(** Modelled from the spec: [_utils.py] is not among the sources, only
    its unit tests are.  What one record supplies to the search for an
    extremum of [key] (section 4.2): nothing when the key is missing; [0]
    when the value is empty or false-like; the value as an integer
    otherwise, and an error naming the key and the value when it is not
    one.  The unit tests [test_safe_dict_min_None] and
    [test_safe_dict_max_None] are the authority on a value that is [None]:
    the minimum of 3, [None], 1 is 1, so [None] supplies nothing. *)
Definition key_value (want_max : bool) (key : string) (d : dict)
    : result (option Z) :=
  match d !! key with
  | None => Ok None
  | Some VNone => Ok None
  | Some v =>
      if falsy v then Ok (Some 0)
      else match py_int v with
           | Ok z => Ok (Some z)
           | Raise _ =>
               Raise (OpenStackCloudException
                        (extremum_message want_max key v))
           end
  end.

Definition better (want_max : bool) (best : option Z) (z : Z) : Z :=
  match best with
  | None => z
  | Some b => if want_max then Z.max b z else Z.min b z
  end.

(** Modelled from the spec: the scan of section 4.2 over all records,
    [best] being the extremum found so far. *)
Fixpoint find_extremum_from (want_max : bool) (key : string)
    (data : list dict) (best : option Z) : result (option Z) :=
  match data with
  | [] => Ok best
  | d :: data' =>
      match key_value want_max key d with
      | Raise e => Raise e
      | Ok None => find_extremum_from want_max key data' best
      | Ok (Some z) =>
          find_extremum_from want_max key data'
            (Some (better want_max best z))
      end
  end.

(** Modelled from the spec: [find_extremum(key, records, want_max)] of
    section 4.2, called [safe_dict_min] and [safe_dict_max] by the tests. *)
Definition find_extremum (key : string) (data : list dict)
    (want_max : bool) : result (option Z) :=
  find_extremum_from want_max key data None.

Definition safe_dict_min (key : string) (data : list dict)
    : result (option Z) :=
  find_extremum key data false.

Definition safe_dict_max (key : string) (data : list dict)
    : result (option Z) :=
  find_extremum key data true.

(** An integer bound: a non-empty run of decimal digits. *)
Fixpoint decimal (acc : Z) (s : string) : Z :=
  match s with
  | EmptyString => acc
  | String a s' => decimal (acc * 10 + digit_val a) s'
  end.

Fixpoint all_digits (s : string) : bool :=
  match s with
  | EmptyString => true
  | String a s' => is_digit a && all_digits s'
  end.

Definition parse_bound (s : string) : option Z :=
  if negb (String.eqb s "") && all_digits s then Some (decimal 0 s)
  else None.

(** Modelled from the spec: the comparator parser of section 4.1, with
    the prefixes tried longest first.  The result is absent for an empty
    and for an unparsable string, as [test_parse_range_invalid] and
    section 8 have it; [range_filter] turns the absence into the error. *)
Definition parse_range (value : option string)
    : option (option string * Z) :=
  match value with
  | None => None
  | Some s =>
      match s with
      | String "<" (String "=" t) => n ← parse_bound t; Some (Some "<=", n)
      | String ">" (String "=" t) => n ← parse_bound t; Some (Some ">=", n)
      | String "<" t => n ← parse_bound t; Some (Some "<", n)
      | String ">" t => n ← parse_bound t; Some (Some ">", n)
      | _ => n ← parse_bound s; Some (None, n)
      end
  end.

(** The comparison an operator stands for; none is an exact match. *)
Definition compare_with (op : option string) (n z : Z) : bool :=
  match op with
  | None => z =? n
  | Some o =>
      if String.eqb o "<" then z <? n
      else if String.eqb o ">" then z >? n
      else if String.eqb o "<=" then z <=? n
      else if String.eqb o ">=" then z >=? n
      else false
  end.

(** [filtered = []; for d in data: if test(d): filtered.append(d)] *)
Fixpoint keep_if (test : dict → result bool) (data filtered : list dict)
    : result (list dict) :=
  match data with
  | [] => Ok filtered
  | d :: data' =>
      match test d with
      | Raise e => Raise e
      | Ok true => keep_if test data' (filtered ++ [d])
      | Ok false => keep_if test data' filtered
      end
  end.

Definition value_is (want_max : bool) (key : string) (m : Z) (d : dict)
    : result bool :=
  match key_value want_max key d with
  | Raise e => Raise e
  | Ok None => Ok false
  | Ok (Some z) => Ok (z =? m)
  end.

Definition value_in_range (key : string) (op : option string) (n : Z)
    (d : dict) : result bool :=
  match d !! key with
  | None => Raise (KeyError key)
  | Some v => match py_int v with
              | Ok z => Ok (compare_with op n z)
              | Raise e => Raise e
              end
  end.

(** Modelled from the spec: [range_filter(records, key, range_str)] of
    section 4.4.  A search for an extremum that finds no value matches
    nothing (section 4.2). *)
Definition range_filter (data : list dict) (key : string)
    (range_str : string) : result (list dict) :=
  if String.eqb range_str "min" then
    match safe_dict_min key data with
    | Raise e => Raise e
    | Ok None => Ok []
    | Ok (Some key_min) => keep_if (value_is false key key_min) data []
    end
  else if String.eqb range_str "max" then
    match safe_dict_max key data with
    | Raise e => Raise e
    | Ok None => Ok []
    | Ok (Some key_max) => keep_if (value_is true key key_max) data []
    end
  else
    match parse_range (Some range_str) with
    | None =>
        Raise (OpenStackCloudException
                 ("Invalid range value: " ++ range_str))
    | Some (op, n) => keep_if (value_in_range key op n) data []
    end.
End Utils.

(** The data of [test__utils.py] *)
Definition RANGE_DATA : list dict :=
  (λ '(i, k1, k2),
     <[ "id" := VInt i ]> (<[ "key1" := VInt k1 ]> {[ "key2" := VInt k2 ]}))
  <$> [ (1, 1, 5); (2, 1, 20); (3, 2, 10); (4, 2, 30); (5, 3, 40);
        (6, 3, 40) ].

Definition f1_data (vs : list value) : list dict :=
  (λ v, {[ "f1" := v ]}) <$> vs.

(** ** Notions used in the statements *)

#[global] Instance exn_eq_dec : EqDecision exn.
Proof. solve_decision. Defined.

#[global] Instance result_eq_dec `{EqDecision A} : EqDecision (result A).
Proof. solve_decision. Defined.


(** The integer a record supplies to the search for an extremum of [key]:
    0 for a value other than [None] that is empty or false-like, [int()]
    of the value otherwise.  A record without the key, or with the value
    [None], supplies nothing. *)
Definition supplies (key : string) (d : dict) (z : Z) : Prop :=
  ∃ v, d !! key = Some v ∧ v ≠ VNone ∧
       if falsy v then z = 0 else py_int v = Ok z.

#[global] Instance supplies_dec key d z : Decision (supplies key d z).
Proof.
  unfold supplies. destruct (d !! key) as [v|].
  2: { right. by intros (v & Hv & _). }
  assert ({v = VNone} + {v ≠ VNone}) as [->|Hv]
    by (destruct v; first [by left|by right]).
  { right. intros (v & [= <-] & Hv & _). by destruct Hv. }
  destruct (falsy v) eqn:Hf.
  - destruct (decide (z = 0)) as [->|Hz].
    + left. exists v. by rewrite Hf.
    + right. intros (v' & [= <-] & _ & H). by rewrite Hf in H.
  - destruct (decide (py_int v = Ok z)) as [Hi|Hi].
    + left. exists v. by rewrite Hf.
    + right. intros (v' & [= <-] & _ & H). by rewrite Hf in H.
Defined.

(** [m] is the least (the greatest, for a maximum) of the integers that
    the records supply. *)
Definition bounds (want_max : bool) (m z : Z) : Prop :=
  if want_max then z ≤ m else m ≤ z.

Definition extremum_of (want_max : bool) (key : string) (data : list dict)
    (m : Z) : Prop :=
  (∃ d, d ∈ data ∧ supplies key d m) ∧
  ∀ d z, d ∈ data → supplies key d z → bounds want_max m z.

(** The first of [keys] that the record lacks. *)
Fixpoint first_missing (d : dict) (keys : list string) : option string :=
  match keys with
  | [] => None
  | k :: keys' =>
      match d !! k with
      | None => Some k
      | Some _ => first_missing d keys'
      end
  end.

(** An integer bound, as the comparator parser reads it. *)
Definition is_bound (t : string) : Prop := t ≠ "" ∧ all_digits t = true.

(** [l[i:j]] *)
Definition slice {A} (i j : nat) (l : list A) : list A :=
  take (j - i) (drop i l).

(** The rendering of values that are not strings plays no part in the
    examples. *)
Definition unrendered : value → string := λ _, "".

(** A value that is not a reference to a dictionary. *)
Definition not_a_dict (v : value) : Prop :=
  match v with
  | VDict _ => False
  | _ => True
  end.

(** A value that is no reference without a dictionary. *)
Definition alive (h : heap) (v : value) : Prop :=
  match v with
  | VDict r => is_Some (h !! r)
  | _ => True
  end.

(** The mappings nested in a record exist. *)
Definition closed (h : heap) (d : dict) : Prop :=
  ∀ k v, d !! k = Some v → alive h v.

(** An optional numeric field that [_pop_int] accepts: absent, or empty or
    false-like, or convertible by [int()]. *)
Definition int_or_zero (o : option value) : Prop :=
  match o with
  | None => True
  | Some v => not_a_dict v ∧ (falsy v = true ∨ ∃ z, py_int v = Ok z)
  end.

(** An optional field that holds a mapping when it is there. *)
Definition mapping_if_present (h : heap) (o : option value) : Prop :=
  match o with
  | None => True
  | Some (VDict x) => is_Some (h !! x)
  | Some _ => False
  end.

(** A cloud to run the examples in. *)
Definition example_cloud (strict : bool) : cloud :=
  {| strict_mode := strict;
     current_location := VStr "here";
     _get_current_location := λ project_id zone, VTuple [project_id; zone];
     region_name := VStr "region";
     cloud_name := VStr "cloud";
     _use_neutron_floating := true |}.

(** A store from the dictionaries at the references 0, 1, ... *)
Definition store_of (ds : list dict) : heap :=
  list_to_map (zip (seq 0 (length ds)) ds).

(** A dictionary from its items. *)
Definition dict_of (kvs : list (string * value)) : dict := list_to_map kvs.

(** A field of the record a run returned. *)
Definition returned_field (res : result value * heap) (k : string)
    : option value :=
  match res with
  | (Ok (VDict r), h') => d ← h' !! r; d !! k
  | _ => None
  end.

(** An entry of the [properties] of the record a run returned. *)
Definition returned_property (res : result value * heap) (k : string)
    : option value :=
  match res with
  | (Ok (VDict r), h') =>
      R ← h' !! r;
      match R !! "properties" with
      | Some (VDict p) => P ← h' !! p; P !! k
      | _ => None
      end
  | _ => None
  end.

(** The error a run raised. *)
Definition raised (res : result value * heap) : option exn :=
  match res with
  | (Raise e, _) => Some e
  | _ => None
  end.

(** The dictionaries of the store [h] are unchanged in [h']. *)
Definition keeps (h h' : heap) : Prop :=
  ∀ x (d : dict), h !! x = Some d → h' !! x = Some d.

(** A field of the dictionary at a reference. *)
Definition field_at (h : heap) (x : loc) (k : string) : option value :=
  d ← h !! x; d !! k.

(** The properties [P] at the top level of a record: [R0] is the record
    before the compatibility block, [R] the record after it.  The entries
    of [P] whose key is neither a field of [R0] nor one of the [aliases]
    that the block sets are in [R]. *)
Definition copied_up (P R0 R : dict) (aliases : list string) : Prop :=
  ∀ k v, P !! k = Some v → R0 !! k = None → k ∉ aliases → R !! k = Some v.

(** The same, with no field of [R0] changed. *)
Definition duplicated (P R0 R : dict) (aliases : list string) : Prop :=
  (∀ k v, R0 !! k = Some v → R !! k = Some v) ∧ copied_up P R0 R aliases.

(** The mapping under [properties] in a raw record [d], empty when the raw
    record has none. *)
Definition raw_properties (h : heap) (d : dict) : dict :=
  match d !! "properties" with
  | Some (VDict p) => default ∅ (h !! p)
  | _ => ∅
  end.

(** What a normalizer with strict mode disabled does with the fields that it
    does not consume: [canonical] is the normalizer up to its compatibility
    block and [record] the record in what it returns, [normalizer] the whole
    of it.  When the normalizer returns, both return the same record; its
    [properties] hold the fields of [source] that are not [consumed], and
    [flat] relates them and the record before the block to the record after
    it. *)
Definition passes_through {X} (canonical : M X) (record : X → value)
    (normalizer : M value) (h : heap) (source : dict)
    (consumed : list string) (flat : dict → dict → dict → Prop) : Prop :=
  ∀ ret h',
    run normalizer h = (Ok ret, h') →
    ∃ x h0,
      run canonical h = (Ok x, h0) ∧
      ret = record x ∧
      ∃ r p R0 R P,
        ret = VDict r ∧ h0 !! r = Some R0 ∧ h' !! r = Some R ∧
        R0 !! "properties" = Some (VDict p) ∧ h' !! p = Some P ∧
        (∀ k, k ∉ consumed → P !! k = source !! k) ∧
        flat P R0 R.

(** The six kinds of record, and what the normalizer of each kind does:
    the keys that it pops from the raw record whatever the record, the
    keys that it takes out of a given record, the legacy aliases that
    its compatibility block sets without taking them out, where its
    [properties] come from, and what the block does with them: the image
    normalizer assigns where the others use [setdefault]. *)
Inductive resource :=
  | Flavor | Image | SecGroup | SecGroupRule | Server | FloatingIP.

Definition normalizer (float_of_string : string → option spec_float)
    (self : cloud) (kind : resource) (raw : value) : M value :=
  match kind with
  | Flavor => _normalize_flavor float_of_string self raw
  | Image => _normalize_image self raw
  | SecGroup => _normalize_secgroup self raw
  | SecGroupRule => _normalize_secgroup_rule self raw
  | Server => _normalize_server self raw
  | FloatingIP => _normalize_floating_ip self raw
  end.

Definition canonical_record (float_of_string : string → option spec_float)
    (self : cloud) (kind : resource) (raw : value) : M value :=
  match kind with
  | Flavor => flavor_canonical float_of_string self raw
  | Image => (λ '(new_image, _, _), new_image) <$> image_canonical self raw
  | SecGroup => fst <$> secgroup_canonical self raw
  | SecGroupRule => fst <$> secgroup_rule_canonical self raw
  | Server => (λ '(ret, _, _, _, _), ret) <$> server_canonical self raw
  | FloatingIP => (λ '(ret, _, _, _, _), ret) <$> floating_ip_canonical self raw
  end.

Definition popped (kind : resource) : list string :=
  match kind with
  | Flavor =>
      [ "links"; "NAME_ATTR"; "HUMAN_ID"; "human_id"; "ephemeral";
        "is_public"; "extra_specs"; "id"; "name"; "ram"; "vcpus"; "disk";
        "swap"; "rxtx_factor" ]
  | Image =>
      [ "properties"; "visibility"; "protected" ]
      ++ _IMAGE_FIELDS ++ [ "locations" ]
  | SecGroup =>
      [ "rules"; "security_group_rules"; "tenant_id"; "project_id"; "id";
        "name"; "description" ]
  | SecGroupRule =>
      [ "id"; "direction"; "ethertype"; "from_port"; "to_port";
        "port_range_max"; "ip_protocol"; "protocol"; "ip_range";
        "remote_ip_prefix"; "parent_group_id"; "security_group_id";
        "remote_group_id"; "tenant_id"; "project_id" ]
  | Server =>
      [ "links"; "NAME_ATTR"; "HUMAN_ID"; "human_id"; "id"; "name"; "flavor";
        "image"; "tenant_id"; "project_id"; "config_drive"; "hostId";
        "progress" ] ++ _SERVER_FIELDS
  | FloatingIP =>
      [ "fixed_ip"; "fixed_ip_address"; "ip"; "floating_ip_address"; "pool";
        "network"; "floating_network_id"; "tenant_id"; "project_id";
        "instance_id"; "router_id"; "id"; "port_id" ]
  end.

(** [bool(v)] in the store [h]: a mapping is true when it is not empty. *)
Definition truth (h : heap) (v : value) : bool :=
  match v with
  | VDict x =>
      match h !! x with
      | Some d => negb (bool_decide (dom d = ∅))
      | None => false
      end
  | _ => negb (falsy v)
  end.

(** Whether the raw image [d] comes with a [visibility]: the test
    [if visibility:] of the image normalizer, in the caller's store. *)
Definition visibility_given (h : heap) (d : dict) : bool :=
  truth h (default VNone (d !! "visibility")).

(** With strict mode disabled, the keys that a normalizer takes out of the
    raw record [d]: those it pops whatever the record, then [is_public] of
    an image that comes without a [visibility], and [status] of a floating
    IP when neutron serves the floating IPs. *)
Definition consumed (self : cloud) (kind : resource) (h : heap) (d : dict)
    : list string :=
  popped kind ++
  match kind with
  | Image => if visibility_given h d then [] else [ "is_public" ]
  | FloatingIP => if _use_neutron_floating self then [ "status" ] else []
  | _ => []
  end.

Definition aliases (kind : resource) : list string :=
  match kind with
  | Image => [ "protected" ]
  | Server => [ "region"; "cloud"; "az" ]
  | _ => []
  end.

Definition properties_source (kind : resource) (h : heap) (d : dict) : dict :=
  match kind with
  | Image => raw_properties h d ∪ d
  | _ => d
  end.

Definition flattened (kind : resource) (P R0 R : dict) : Prop :=
  match kind with
  | Image => copied_up P R0 R (aliases kind)
  | _ => duplicated P R0 R (aliases kind)
  end.

(** ** Runs and stores *)

(** [d.setdefault(k, v)] as a function of the dictionary *)
Definition setdefault (k : string) (v : value) (d : dict) : dict :=
  match d !! k with
  | Some _ => d
  | None => <[k := v]> d
  end.

(** Running [m] in the store [h] ends in a result and a store that satisfy
    [Q]. *)
Definition after {A} (m : M A) (h : heap) (Q : result A → heap → Prop) : Prop :=
  Q (run m h).1 (run m h).2.

(** The frame of a step that writes the cell [r] only. *)
Definition only (r : loc) (h h1 : heap) : Prop :=
  ∀ y, r ≠ y → h1 !! y = h !! y.

(** Operations that only read the store. *)
Definition reads {A} (m : M A) : Prop := ∀ h, (run m h).2 = h.

(** The store only grows. *)
Definition grows (h0 h : heap) : Prop :=
  ∀ r, is_Some (h0 !! r) → is_Some (h !! r).

(** Runs that leave the dictionaries of the store alone, whatever the
    outcome. *)
Definition frames {A} (m : M A) : Prop := ∀ h, after m h (λ _ h', keeps h h').

(** A cell of a store that is kept for later. *)
Definition held (h : heap) (r : loc) (d : dict) : Prop := h !! r = Some d.

(** ** Example records *)

(** A nova rule for all ports. *)
Definition nova_rule_unbounded : dict :=
  dict_of [ ("id", VInt 1); ("from_port", VInt (-1)); ("to_port", VInt (-1));
            ("ip_protocol", VStr "tcp") ].

(** A neutron rule whose ports are numeric strings. *)
Definition neutron_rule_strings : dict :=
  dict_of [ ("id", VInt 1); ("port_range_min", VStr "80");
            ("port_range_max", VStr "443") ].

(** The [flavor] nested in a raw server. *)
Definition nova_flavor_ref : dict :=
  dict_of [ ("id", VStr "1"); ("links", VList []) ].

(** A server booted from a volume: [image] is a bare string. *)
Definition server_from_volume : list (string * value) :=
  [ ("id", VStr "srv-1"); ("name", VStr "vm"); ("flavor", VDict 1%nat);
    ("image", VStr "") ; ("status", VStr "ACTIVE") ].

(** A raw server with a noise field, a field of its own named like a
    canonical one, and a vendor extension. *)
Definition vendor_server : list (string * value) :=
  [ ("id", VStr "srv-1"); ("name", VStr "vm"); ("flavor", VDict 1%nat);
    ("image", VStr ""); ("links", VList []); ("location", VStr "rack 4");
    ("vendor", VStr "acme") ].

(** A raw image whose [properties] name a field of the image. *)
Definition glance_image : list (string * value) :=
  [ ("name", VStr "cirros"); ("owner", VStr "admin");
    ("properties", VDict 1%nat); ("vendor", VStr "acme") ].

Definition glance_properties : list (string * value) :=
  [ ("name", VStr "other") ].

(** ** Notions for the fields of the canonical records *)

(** The fields of the record each normalizer builds before its
    compatibility block. *)
Definition canonical_fields (kind : resource) : list string :=
  match kind with
  | Flavor =>
      [ "location"; "id"; "name"; "is_public"; "is_disabled"; "ram"; "vcpus";
        "disk"; "ephemeral"; "swap"; "rxtx_factor"; "properties";
        "extra_specs" ]
  | Image =>
      [ "location" ] ++ _IMAGE_FIELDS
      ++ [ "is_protected"; "locations"; "properties"; "visibility";
           "is_public" ]
  | SecGroup =>
      [ "location"; "id"; "name"; "security_group_rules"; "description";
        "properties" ]
  | SecGroupRule =>
      [ "id"; "direction"; "ethertype"; "port_range_min"; "port_range_max";
        "protocol"; "remote_ip_prefix"; "security_group_id";
        "remote_group_id"; "location"; "properties" ]
  | Server =>
      [ "id"; "name"; "flavor"; "image"; "location"; "volumes";
        "has_config_drive"; "host_id"; "progress"; "disk_config";
        "power_state"; "task_state"; "vm_state"; "launched_at";
        "terminated_at" ] ++ _SERVER_FIELDS ++ [ "interface_ip"; "properties" ]
  | FloatingIP =>
      [ "attached"; "fixed_ip_address"; "floating_ip_address"; "id";
        "location"; "network"; "port"; "router"; "status"; "properties" ]
  end.

(** The keys with a vendor prefix that [_pop_or_get] reads: taken out of the
    raw record in strict mode, left in it otherwise. *)
Definition vendor_keys (kind : resource) : list string :=
  match kind with
  | Flavor =>
      [ "OS-FLV-EXT-DATA:ephemeral"; "os-flavor-access:is_public";
        "OS-FLV-DISABLED:disabled" ]
  | Server =>
      [ "OS-EXT-AZ:availability_zone"; "os-extended-volumes:volumes_attached";
        "OS-DCF:diskConfig"; "OS-EXT-STS:power_state";
        "OS-EXT-STS:task_state"; "OS-EXT-STS:vm_state";
        "OS-SRV-USG:launched_at"; "OS-SRV-USG:terminated_at" ]
  | _ => []
  end.

(** The keys a normalizer takes out of the copy of the raw record that
    becomes [properties]: [status] of a floating IP with neutron only, the
    vendor keys in strict mode only. *)
Definition taken (self : cloud) (kind : resource) : list string :=
  match kind with
  | FloatingIP =>
      [ "fixed_ip"; "fixed_ip_address"; "ip"; "floating_ip_address"; "pool";
        "network"; "floating_network_id"; "tenant_id"; "project_id";
        "instance_id"; "router_id"; "id"; "port_id" ]
      ++ (if _use_neutron_floating self then [ "status" ] else [])
  | _ => popped kind ++ (if strict_mode self then vendor_keys kind else [])
  end.

(** The project a record belongs to: [project_id], else [tenant_id], else
    the empty string. *)
Definition project_of (d : dict) : value :=
  default (default (VStr "") (d !! "tenant_id")) (d !! "project_id").

(** The network of a floating IP: [floating_network_id], else [network],
    else [pool]. *)
Definition network_of (d : dict) : value :=
  default (default (default VNone (d !! "pool")) (d !! "network"))
    (d !! "floating_network_id").

(** What tells whether a floating IP is attached: its port with neutron,
    its instance with nova. *)
Definition attachment (self : cloud) (d : dict) : value :=
  default VNone
    (d !! (if _use_neutron_floating self then "port_id" else "instance_id")).

(** [ip_range.get('cidr')] of a rule, [None] without an [ip_range]. *)
Definition cidr_of (h : heap) (d : dict) : value :=
  match d !! "ip_range" with
  | Some (VDict x) => default VNone (field_at h x "cidr")
  | _ => VNone
  end.

(** [bool(v)] and [_to_bool(v)] of a value that is not a mapping. *)
Definition bool_of (v : value) : bool := negb (falsy v).

Definition to_bool_of (v : value) : bool :=
  match v with
  | VStr s => String.eqb (lower s) "true"
  | _ => bool_of v
  end.

(** An optional field that is not a mapping. *)
Definition scalar (o : option value) : Prop :=
  match o with
  | Some v => not_a_dict v
  | None => True
  end.

(** Whether a flavor is public: its [is_public], else what its
    [os-flavor-access:is_public] says, else yes. *)
Definition flavor_is_public (d : dict) : bool :=
  to_bool_of
    (default
       (VBool (to_bool_of
                 (default (VBool true) (d !! "os-flavor-access:is_public"))))
       (d !! "is_public")).

(** What [int(x or 0)] gives for an optional field [o] that is not a
    mapping. *)
Definition popped_int (o : option value) (z : Z) : Prop :=
  match o with
  | None => z = 0
  | Some v => not_a_dict v → if falsy v then z = 0 else py_int v = Ok z
  end.

(** The raw rules of a security group: [security_group_rules], else
    [rules], else none. *)
Definition raw_rules (d : dict) : value :=
  default (default (VList []) (d !! "rules")) (d !! "security_group_rules").

(** The record [R] that a run returned, with its properties [P]. *)
Definition normalized (ret : value) (h' : heap) (Φ : dict → dict → Prop)
    : Prop :=
  ∃ r p R P,
    ret = VDict r ∧ h' !! r = Some R ∧
    R !! "properties" = Some (VDict p) ∧ h' !! p = Some P ∧ Φ R P.

(** The results of a loop that appends [f x] for each [x] of a list, from
    the store [h] to the store [h']. *)
Inductive collected {A B} (f : A → M B)
    : heap → list A → list B → heap → Prop :=
| collected_nil h : collected f h [] [] h
| collected_cons h x y h1 xs ys h' :
    run (f x) h = (Ok y, h1) → collected f h1 xs ys h' →
    collected f h (x :: xs) (y :: ys) h'.

(** The list normalizers. *)
Definition list_normalizer (float_of_string : string → option spec_float)
    (self : cloud) (kind : resource) (raws : value) : M value :=
  match kind with
  | Flavor => _normalize_flavors float_of_string self raws
  | Image => _normalize_images self raws
  | SecGroup => _normalize_secgroups self raws
  | SecGroupRule => _normalize_secgroup_rules self raws
  | Server => _normalize_servers self raws
  | FloatingIP => _normalize_floating_ips self raws
  end.

(** The zone in the location of a record: servers have one. *)
Definition zone_of (kind : resource) (d : dict) : value :=
  match kind with
  | Server => default VNone (d !! "OS-EXT-AZ:availability_zone")
  | _ => VNone
  end.

(** The kinds of record that belong to a project. *)
Definition owned (kind : resource) : bool :=
  match kind with
  | SecGroup | SecGroupRule | Server | FloatingIP => true
  | Flavor | Image => false
  end.

(** The error a value that is not a mapping gets from the first operation
    of a normalizer: [image.get] for an image, [copy] then [pop] for the
    others. *)
Definition not_a_record_error (kind : resource) (raw : value) : exn :=
  match kind with
  | Image => AttributeError
  | _ => pop_error raw
  end.

(** More example records. *)
Definition nova_flavor : list (string * value) :=
  [ ("id", VStr "1"); ("name", VStr "m1.small"); ("ram", VInt 2048);
    ("vcpus", VStr "1"); ("disk", VInt 20); ("swap", VStr "");
    ("OS-FLV-EXT-DATA:ephemeral", VInt 0);
    ("os-flavor-access:is_public", VStr "TRUE"); ("links", VList []);
    ("vendor", VStr "acme") ].

Definition no_float : string → option spec_float := λ _, None.

Definition neutron_floating_ip : list (string * value) :=
  [ ("id", VStr "fip-1"); ("floating_ip_address", VStr "198.51.100.10");
    ("fixed_ip_address", VStr "192.0.2.10");
    ("floating_network_id", VStr "net-1"); ("network", VStr "ignored");
    ("port_id", VStr "port-1"); ("status", VStr "DOWN");
    ("tenant_id", VStr "t1"); ("vendor", VStr "acme") ].

Definition nova_secgroup : list (string * value) :=
  [ ("id", VInt 7); ("name", VStr "web"); ("description", VStr "http");
    ("rules", VList [VDict 1%nat; VDict 1%nat]); ("tenant_id", VStr "t1") ].

Definition nova_rule_with_range : list (string * value) :=
  [ ("id", VInt 1); ("from_port", VInt 80); ("to_port", VInt 80);
    ("ip_protocol", VStr "tcp"); ("ip_range", VDict 1%nat);
    ("parent_group_id", VInt 7) ].

Definition ip_range_any : list (string * value) :=
  [ ("cidr", VStr "0.0.0.0/0") ].

(** * Properties *)

(** ** The store monad and the dictionary operations *)

Lemma run_ret {A} (a : A) h : run (mret a) h = (Ok a, h).
Proof. reflexivity. Qed.

(** A run from its result. *)
Lemma run_result {A} (m : M A) h (a : A) :
  (run m h).1 = Ok a → run m h = (Ok a, (run m h).2).
Proof. destruct (run m h). simpl. by intros ->. Qed.

Lemma run_bind {A B} (m : M A) (f : A → M B) h :
  run (m ≫= f) h =
  match run m h with
  | (Ok a, h') => run (f a) h'
  | (Raise e, h') => (Raise e, h')
  end.
Proof. reflexivity. Qed.

Lemma run_bind_Ok {A B} (m : M A) (f : A → M B) h b h' :
  run (m ≫= f) h = (Ok b, h') →
  ∃ a h0, run m h = (Ok a, h0) ∧ run (f a) h0 = (Ok b, h').
Proof.
  rewrite run_bind. destruct (run m h) as [[a|e] h0]; [eauto|done].
Qed.

Lemma run_fmap {A B} (g : A → B) (m : M A) h :
  run (g <$> m) h =
  match run m h with
  | (Ok a, h') => (Ok (g a), h')
  | (Raise e, h') => (Raise e, h')
  end.
Proof. unfold run, fmap, M_fmap, mbind, M_bind. by destruct (m h) as [[]]. Qed.

Lemma run_raise {A} (e : exn) h : run (raise e : M A) h = (Raise e, h).
Proof. reflexivity. Qed.

Lemma run_lift {A} (r : result A) h : run (lift r) h = (r, h).
Proof. reflexivity. Qed.

Lemma run_for_each_nil {A} (body : A → M unit) h :
  run (for_each [] body) h = (Ok tt, h).
Proof. reflexivity. Qed.

Lemma run_for_each_cons {A} (x : A) xs (body : A → M unit) h :
  run (for_each (x :: xs) body) h =
  match run (body x) h with
  | (Ok _, h') => run (for_each xs body) h'
  | (Raise e, h') => (Raise e, h')
  end.
Proof. reflexivity. Qed.

Lemma insert_same (h : heap) r (d : dict) :
  h !! r = Some d → <[r := d]> h = h.
Proof. apply insert_id. Qed.

Lemma run_new_dict (d : dict) (h : heap) :
  run (new_dict d) h = (Ok (VDict (fresh (dom h))), <[fresh (dom h) := d]> h).
Proof. reflexivity. Qed.

Lemma fresh_None (h : heap) : h !! fresh (dom h) = None.
Proof. apply not_elem_of_dom, is_fresh. Qed.

Lemma run_receiver e r (d : dict) (h : heap) :
  h !! r = Some d → run (receiver e (VDict r)) h = (Ok (r, d), h).
Proof. unfold run, receiver. by intros ->. Qed.

Lemma run_receiver_dangling e r (h : heap) :
  h !! r = None → run (receiver e (VDict r)) h = (Raise DanglingRef, h).
Proof. unfold run, receiver. by intros ->. Qed.

Lemma run_copy r (d : dict) (h : heap) :
  h !! r = Some d →
  run (py_copy (VDict r)) h
  = (Ok (VDict (fresh (dom h))), <[fresh (dom h) := d]> h).
Proof.
  intros Hr. unfold py_copy. by rewrite run_bind, (run_receiver _ _ d).
Qed.

Lemma run_pop_d r (d : dict) k dv (h : heap) :
  h !! r = Some d →
  run (py_pop_d (VDict r) k dv) h
  = (Ok (default dv (d !! k)), <[r := delete k d]> h).
Proof.
  intros Hr. unfold py_pop_d. rewrite run_bind, (run_receiver _ _ d) by done.
  destruct (d !! k) as [v|] eqn:Hk; simpl; [done|].
  by rewrite delete_id, insert_same.
Qed.

Lemma run_pop r (d : dict) k v (h : heap) :
  h !! r = Some d → d !! k = Some v →
  run (py_pop (VDict r) k) h = (Ok v, <[r := delete k d]> h).
Proof.
  intros Hr Hk. unfold py_pop.
  by rewrite run_bind, (run_receiver _ _ d), Hk.
Qed.

Lemma run_pop_missing r (d : dict) k (h : heap) :
  h !! r = Some d → d !! k = None →
  run (py_pop (VDict r) k) h = (Raise (KeyError k), h).
Proof.
  intros Hr Hk. unfold py_pop.
  by rewrite run_bind, (run_receiver _ _ d), Hk.
Qed.

Lemma run_get_d r (d : dict) k dv (h : heap) :
  h !! r = Some d →
  run (py_get_d (VDict r) k dv) h = (Ok (default dv (d !! k)), h).
Proof.
  intros Hr. unfold py_get_d. rewrite run_bind, (run_receiver _ _ d) by done.
  by destruct (d !! k).
Qed.

Lemma run_getitem r (d : dict) k v (h : heap) :
  h !! r = Some d → d !! k = Some v →
  run (py_getitem (VDict r) k) h = (Ok v, h).
Proof.
  intros Hr Hk. unfold py_getitem.
  by rewrite run_bind, (run_receiver _ _ d), Hk.
Qed.

Lemma run_getitem_missing r (d : dict) k (h : heap) :
  h !! r = Some d → d !! k = None →
  run (py_getitem (VDict r) k) h = (Raise (KeyError k), h).
Proof.
  intros Hr Hk. unfold py_getitem.
  by rewrite run_bind, (run_receiver _ _ d), Hk.
Qed.

Lemma run_setitem r (d : dict) k v (h : heap) :
  h !! r = Some d →
  run (py_setitem (VDict r) k v) h = (Ok tt, <[r := <[k := v]> d]> h).
Proof.
  intros Hr. unfold py_setitem. by rewrite run_bind, (run_receiver _ _ d).
Qed.


Lemma run_setdefault r (d : dict) k v (h : heap) :
  h !! r = Some d →
  run (py_setdefault (VDict r) k v) h = (Ok tt, <[r := setdefault k v d]> h).
Proof.
  intros Hr. unfold py_setdefault, setdefault.
  rewrite run_bind, (run_receiver _ _ d) by done.
  destruct (d !! k); simpl; [|done]. by rewrite insert_same.
Qed.

Lemma run_items r (d : dict) (h : heap) :
  h !! r = Some d → run (py_items (VDict r)) h = (Ok (map_to_list d), h).
Proof.
  intros Hr. unfold py_items. by rewrite run_bind, (run_receiver _ _ d).
Qed.

(** The operations on a value that is no dictionary raise and leave the
    store alone. *)
Lemma run_receiver_other e v (h : heap) :
  (∀ r, v ≠ VDict r) → run (receiver e v) h = (Raise e, h).
Proof. intros Hv. destruct v; try done. by destruct (Hv r). Qed.

(** *** Loops over the items of a dictionary *)

Lemma setdefault_lookup k v (d : dict) i :
  setdefault k v d !! i = (d ∪ {[k := v]}) !! i.
Proof.
  unfold setdefault. rewrite lookup_union.
  destruct (decide (k = i)) as [->|Hne].
  - rewrite lookup_singleton_eq. destruct (d !! i) eqn:Hd; [by rewrite Hd|].
    by rewrite lookup_insert_eq.
  - rewrite lookup_singleton_ne by done.
    destruct (d !! k); [|rewrite lookup_insert_ne by done];
      by destruct (d !! i).
Qed.

Lemma setdefault_union k v (d : dict) : setdefault k v d = d ∪ {[k := v]}.
Proof. apply map_eq, setdefault_lookup. Qed.

Lemma run_for_each_setdefault r (kvs : list (string * value)) :
  ∀ (d : dict) (h : heap),
    h !! r = Some d →
    run (for_each kvs (λ kv, py_setdefault (VDict r) kv.1 kv.2)) h
    = (Ok tt, <[r := d ∪ list_to_map kvs]> h).
Proof.
  induction kvs as [|[k v] kvs IH]; intros d h Hr.
  - rewrite run_for_each_nil. simpl.
    by rewrite (right_id_L ∅ (∪)), insert_same.
  - rewrite run_for_each_cons, (run_setdefault _ d) by done.
    rewrite (IH (setdefault k v d)) by apply lookup_insert_eq.
    rewrite insert_insert_eq. do 2 f_equal.
    rewrite setdefault_union. simpl.
    rewrite <- (assoc_L (∪)). f_equal.
    by rewrite insert_union_singleton_l.
Qed.

Lemma run_for_each_setitem r (kvs : list (string * value)) :
  NoDup kvs.*1 →
  ∀ (d : dict) (h : heap),
    h !! r = Some d →
    run (for_each kvs (λ kv, py_setitem (VDict r) kv.1 kv.2)) h
    = (Ok tt, <[r := list_to_map kvs ∪ d]> h).
Proof.
  induction kvs as [|[k v] kvs IH]; intros Hnd d h Hr.
  - rewrite run_for_each_nil. simpl.
    by rewrite (left_id_L ∅ (∪)), insert_same.
  - apply NoDup_cons in Hnd as [Hk Hnd].
    rewrite run_for_each_cons, (run_setitem _ d) by done.
    rewrite (IH Hnd (<[k := v]> d)) by apply lookup_insert_eq.
    rewrite insert_insert_eq. do 2 f_equal. simpl.
    apply map_eq. intros i. rewrite !lookup_union.
    destruct (decide (k = i)) as [->|Hne].
    + rewrite !lookup_insert_eq.
      rewrite (not_elem_of_list_to_map_1 (M:=gmap string) kvs i Hk).
      by destruct (d !! i).
    + by rewrite !lookup_insert_ne.
Qed.

(** The pass-through loop leaves the fields already in the record alone
    and adds the others from its [properties]. *)
Lemma run_passthrough r p (R P : dict) (h : heap) :
  h !! r = Some R → R !! "properties" = Some (VDict p) → h !! p = Some P →
  run (passthrough (VDict r)) h = (Ok tt, <[r := R ∪ P]> h).
Proof.
  intros Hr Hp HP. unfold passthrough.
  rewrite run_bind, (run_getitem _ R _ (VDict p)) by done.
  rewrite run_bind, (run_items _ P) by done.
  rewrite (run_for_each_setdefault _ _ R) by done.
  by rewrite list_to_map_to_list.
Qed.

Lemma run_int_ v (h : heap) :
  run (int_ v) h
  = (match py_int v with Ok z => Ok (VInt z) | Raise e => Raise e end, h).
Proof.
  unfold int_. rewrite run_bind, run_lift. by destruct (py_int v).
Qed.

(** ** Reasoning about runs

    The rules below run a program step by step, with [after].  The store is
    kept abstract: what is known about it are the dictionaries at the
    references in use, as hypotheses [h !! r = Some d]; a rule that changes
    the store hands over the new store with the changed cell and a frame
    for the others. *)
Lemma after_run {A} (m : M A) h a hf (C : Prop) :
  run m h = (Ok a, hf) →
  after m h (λ res h1, res = Ok a → h1 = hf → C) → C.
Proof. unfold after. intros ->. auto. Qed.

Lemma after_result {A} (m : M A) h (Q : result A → heap → Prop) :
  after m h Q → ∃ res hf, run m h = (res, hf) ∧ Q res hf.
Proof. unfold after. destruct (run m h) as [res hf]. eauto. Qed.

Lemma after_returns {A} (m : M A) h (P : A → heap → Prop) :
  after m h (λ res h1, ∃ a, res = Ok a ∧ P a h1) →
  ∃ a h1, run m h = (Ok a, h1) ∧ P a h1.
Proof.
  unfold after. destruct (run m h) as [res h1]. simpl.
  intros (a & -> & HP). eauto.
Qed.

Lemma after_ret {A} (a : A) h Q : Q (Ok a) h → after (mret a) h Q.
Proof. done. Qed.

Lemma after_raise {A} e h (Q : result A → heap → Prop) :
  Q (Raise e) h → after (raise e) h Q.
Proof. done. Qed.

Lemma after_lift {A} (r : result A) h Q : Q r h → after (lift r) h Q.
Proof. done. Qed.

Lemma after_bind {A B} (m : M A) (f : A → M B) h Q :
  after m h (λ res h1, match res with
                       | Ok a => after (f a) h1 Q
                       | Raise e => Q (Raise e) h1
                       end) →
  after (m ≫= f) h Q.
Proof.
  unfold after. rewrite run_bind. by destruct (run m h) as [[a|e] h1].
Qed.

Lemma after_mono {A} (m : M A) h (Q Q' : result A → heap → Prop) :
  after m h Q → (∀ res h1, Q res h1 → Q' res h1) → after m h Q'.
Proof. unfold after. auto. Qed.

Lemma after_for_each_nil {A} (body : A → M unit) h Q :
  Q (Ok tt) h → after (for_each [] body) h Q.
Proof. done. Qed.

Lemma after_for_each_cons {A} (x : A) xs (body : A → M unit) h Q :
  after (body x ≫= λ _, for_each xs body) h Q →
  after (for_each (x :: xs) body) h Q.
Proof. done. Qed.


Lemma only_insert r (d : dict) (h : heap) : only r h (<[r := d]> h).
Proof. intros y Hy. by apply lookup_insert_ne. Qed.

Lemma only_keeps r (h h1 : heap) y (d : dict) :
  only r h h1 → r ≠ y → h !! y = Some d → h1 !! y = Some d.
Proof. intros Hfr Hy Hd. by rewrite Hfr. Qed.

Lemma only_keeps_None r (h h1 : heap) y :
  only r h h1 → r ≠ y → h !! y = None → h1 !! y = None.
Proof. intros Hfr Hy Hd. by rewrite Hfr. Qed.

Lemma after_new_dict (d : dict) (h : heap) Q :
  (∀ r h1, h !! r = None → h1 !! r = Some d → only r h h1 →
           Q (Ok (VDict r)) h1) →
  after (new_dict d) h Q.
Proof.
  intros HQ. unfold after. rewrite run_new_dict. simpl.
  apply HQ; [apply fresh_None|apply lookup_insert_eq|apply only_insert].
Qed.

Lemma after_copy r (d : dict) (h : heap) Q :
  h !! r = Some d →
  (∀ c h1, h !! c = None → h1 !! c = Some d → only c h h1 →
           Q (Ok (VDict c)) h1) →
  after (py_copy (VDict r)) h Q.
Proof.
  intros Hr HQ. unfold after. rewrite (run_copy r d) by done. simpl.
  apply HQ; [apply fresh_None|apply lookup_insert_eq|apply only_insert].
Qed.

Lemma after_pop_d r (d : dict) k dv (h : heap) Q :
  h !! r = Some d →
  (∀ v h1, v = default dv (d !! k) →
           h1 !! r = Some (delete k d) → only r h h1 → Q (Ok v) h1) →
  after (py_pop_d (VDict r) k dv) h Q.
Proof.
  intros Hr HQ. unfold after. rewrite (run_pop_d r d) by done. simpl.
  apply HQ; [done|apply lookup_insert_eq|apply only_insert].
Qed.

Lemma after_pop r (d : dict) k (h : heap) Q :
  h !! r = Some d →
  (∀ v h1, d !! k = Some v → h1 !! r = Some (delete k d) → only r h h1 →
           Q (Ok v) h1) →
  (d !! k = None → Q (Raise (KeyError k)) h) →
  after (py_pop (VDict r) k) h Q.
Proof.
  intros Hr HQ He. unfold after. destruct (d !! k) as [v|] eqn:Hk.
  - rewrite (run_pop r d k v) by done. simpl.
    apply HQ; [done|apply lookup_insert_eq|apply only_insert].
  - rewrite (run_pop_missing r d) by done. by apply He.
Qed.

Lemma after_get_d r (d : dict) k dv (h : heap) Q :
  h !! r = Some d →
  (∀ v, v = default dv (d !! k) → Q (Ok v) h) →
  after (py_get_d (VDict r) k dv) h Q.
Proof.
  intros Hr HQ. unfold after. rewrite (run_get_d r d) by done. by apply HQ.
Qed.

Lemma after_getitem r (d : dict) k (h : heap) Q :
  h !! r = Some d →
  (∀ v, d !! k = Some v → Q (Ok v) h) →
  (d !! k = None → Q (Raise (KeyError k)) h) →
  after (py_getitem (VDict r) k) h Q.
Proof.
  intros Hr HQ He. unfold after. destruct (d !! k) as [v|] eqn:Hk.
  - rewrite (run_getitem r d k v) by done. by apply HQ.
  - rewrite (run_getitem_missing r d) by done. by apply He.
Qed.

Lemma after_setitem r (d : dict) k v (h : heap) Q :
  h !! r = Some d →
  (∀ h1, h1 !! r = Some (<[k := v]> d) → only r h h1 → Q (Ok tt) h1) →
  after (py_setitem (VDict r) k v) h Q.
Proof.
  intros Hr HQ. unfold after. rewrite (run_setitem r d) by done. simpl.
  apply HQ; [apply lookup_insert_eq|apply only_insert].
Qed.

Lemma after_passthrough r p (R P : dict) (h : heap) Q :
  h !! r = Some R → R !! "properties" = Some (VDict p) → h !! p = Some P →
  (∀ h1, h1 !! r = Some (R ∪ P) → only r h h1 → Q (Ok tt) h1) →
  after (passthrough (VDict r)) h Q.
Proof.
  intros Hr Hp HP HQ. unfold after.
  rewrite (run_passthrough r p R P) by done. simpl.
  apply HQ; [apply lookup_insert_eq|apply only_insert].
Qed.


Lemma after_reads {A} (m : M A) h (Q : result A → heap → Prop) :
  reads m → (∀ res, Q res h) → after m h Q.
Proof. intros Hm HQ. unfold after. rewrite Hm. apply HQ. Qed.

Lemma reads_truthy v : reads (truthy v).
Proof.
  intros h. destruct v as [| | |[]| |[]|[]|r]; try done.
  unfold run. simpl. by destruct (h !! r).
Qed.

Lemma reads_to_bool v : reads (_to_bool v).
Proof.
  destruct v; try apply reads_truthy.
  intros h. unfold _to_bool. by destruct (String.eqb s "").
Qed.

Lemma reads_get_d v k dv : reads (py_get_d v k dv).
Proof.
  intros h. destruct v; try reflexivity.
  destruct (h !! r) as [D|] eqn:Hr.
  - by rewrite (run_get_d r D).
  - unfold py_get_d. by rewrite run_bind, run_receiver_dangling.
Qed.

Lemma reads_or a b : reads (py_or a b).
Proof.
  intros h. unfold py_or. rewrite run_bind.
  pose proof (reads_truthy a h) as Ht.
  destruct (run (truthy a) h) as [[t|e] h1]; simpl in *; by subst.
Qed.

Lemma reads_int_ v : reads (int_ v).
Proof. intros h. by rewrite run_int_. Qed.

Lemma after_int_ v (h : heap) Q :
  (∀ z, py_int v = Ok z → Q (Ok (VInt z)) h) →
  (∀ e, py_int v = Raise e → Q (Raise e) h) →
  after (int_ v) h Q.
Proof.
  intros HQ He. unfold after. rewrite run_int_.
  destruct (py_int v); simpl; auto.
Qed.

(** A read with a result that is not looked into. *)
Lemma after_read {A} (m : M A) h (Q : result A → heap → Prop) :
  reads m →
  (∀ a, run m h = (Ok a, h) → Q (Ok a) h) →
  (∀ e, run m h = (Raise e, h) → Q (Raise e) h) →
  after m h Q.
Proof.
  intros Hm HQ He. unfold after. specialize (Hm h).
  destruct (run m h) as [[a|e] h1]; simpl in *; subst; auto.
Qed.

(** A method of dictionaries called on something else. *)
Lemma run_receiver_not_a_dict e v (h : heap) :
  not_a_dict v → run (receiver e v) h = (Raise e, h).
Proof. by destruct v. Qed.

#[global] Instance not_a_dict_dec v : Decision (not_a_dict v).
Proof. destruct v; simpl; apply _. Defined.

Lemma after_pop_d_not_a_dict v k dv (h : heap) Q :
  not_a_dict v → Q (Raise (pop_error v)) h → after (py_pop_d v k dv) h Q.
Proof.
  intros Hv HQ. unfold after, py_pop_d.
  by rewrite run_bind, run_receiver_not_a_dict.
Qed.

Lemma after_copy_not_a_dict v (h : heap) Q :
  not_a_dict v → Q (Raise (pop_error v)) h → after (py_copy v) h Q.
Proof.
  intros Hv HQ. unfold after, py_copy.
  by rewrite run_bind, run_receiver_not_a_dict.
Qed.

Lemma after_get_d_not_a_dict v k dv (h : heap) Q :
  not_a_dict v → Q (Raise AttributeError) h → after (py_get_d v k dv) h Q.
Proof.
  intros Hv HQ. unfold after, py_get_d.
  by rewrite run_bind, run_receiver_not_a_dict.
Qed.

(** Truth values that do not depend on the store. *)
Lemma run_truthy_falsy v (h : heap) :
  not_a_dict v → run (truthy v) h = (Ok (negb (falsy v)), h).
Proof. destruct v as [| | |[]| |[]|[]|r]; try done. by destruct b. Qed.

Lemma run_truthy_dict r (d : dict) (h : heap) :
  h !! r = Some d →
  run (truthy (VDict r)) h = (Ok (negb (bool_decide (dom d = ∅))), h).
Proof. unfold run. simpl. by intros ->. Qed.

(** [bool(v)] of a value that is no dangling reference. *)
Lemma truthy_alive v (h : heap) :
  alive h v → ∃ b, run (truthy v) h = (Ok b, h).
Proof.
  destruct v as [| | |[]| |[]|[]|r]; try (by eexists).
  intros [d Hd]. eexists. by apply run_truthy_dict.
Qed.

Lemma to_bool_alive v (h : heap) :
  alive h v → ∃ b, run (_to_bool v) h = (Ok b, h).
Proof.
  destruct v; try apply truthy_alive.
  intros _. unfold _to_bool. destruct (String.eqb s ""); by eexists.
Qed.

Lemma after_to_bool_alive v (h : heap) Q :
  alive h v → (∀ b, Q (Ok b) h) → after (_to_bool v) h Q.
Proof.
  intros Hv HQ. destruct (to_bool_alive v h Hv) as [b Hb].
  unfold after. rewrite Hb. apply HQ.
Qed.



Lemma grows_only h0 r (h h1 : heap) :
  grows h0 h → only r h h1 → is_Some (h1 !! r) → grows h0 h1.
Proof.
  intros Hg Hfr Hr y Hy. destruct (decide (r = y)) as [<-|Hne]; [done|].
  rewrite Hfr by done. by apply Hg.
Qed.

Lemma alive_grows (h0 h : heap) v : grows h0 h → alive h0 v → alive h v.
Proof. destruct v; try done. intros Hg. apply Hg. Qed.

Lemma after_raises {A} (m : M A) h (P : exn → heap → Prop) :
  after m h (λ res h1, ∃ e, res = Raise e ∧ P e h1) →
  ∃ e h1, run m h = (Raise e, h1) ∧ P e h1.
Proof.
  unfold after. destruct (run m h) as [res h1]. simpl.
  intros (e & -> & HP). eauto.
Qed.

Lemma after_truthy_not_a_dict v (h : heap) Q :
  not_a_dict v → Q (Ok (negb (falsy v))) h → after (truthy v) h Q.
Proof. intros Hv HQ. unfold after. by rewrite run_truthy_falsy. Qed.

Lemma run_or_not_a_dict a b (h : heap) :
  not_a_dict a → run (py_or a b) h = (Ok (if falsy a then b else a), h).
Proof.
  intros Ha. unfold py_or. rewrite run_bind, run_truthy_falsy by done.
  by destruct (falsy a).
Qed.

Lemma run_or_cases a b (h : heap) :
  (∃ v, run (py_or a b) h = (Ok v, h)) ∨
  (∃ e, ¬ not_a_dict a ∧ run (py_or a b) h = (Raise e, h)).
Proof.
  destruct (decide (not_a_dict a)) as [Ha|Ha].
  { left. eexists. by apply run_or_not_a_dict. }
  pose proof (reads_or a b h) as Hrd.
  destruct (run (py_or a b) h) as [[v|e] h1]; simpl in Hrd; subst; eauto.
Qed.

(** [_pop_int] pops the field in any case, and returns an [int] unless the
    conversion fails. *)
Lemma run_pop_int_cases c (D : dict) k (h : heap) :
  h !! c = Some D →
  (∃ z, run (_pop_int (VDict c) k) h
        = (Ok (VInt z), <[c := delete k D]> h)) ∨
  (∃ e, ¬ int_or_zero (D !! k) ∧
        run (_pop_int (VDict c) k) h = (Raise e, <[c := delete k D]> h)).
Proof.
  intros Hc. unfold _pop_int.
  rewrite run_bind, (run_pop_d c D) by done. rewrite run_bind.
  destruct (D !! k) as [v|] eqn:Hk; cbn [default from_option id].
  - destruct (decide (not_a_dict v)) as [Hv|Hv].
    + rewrite run_or_not_a_dict by done. rewrite run_int_.
      destruct (falsy v) eqn:Hf; [left; by eexists|].
      destruct (py_int v) as [z|e] eqn:Hi; [left; by eexists|].
      right. exists e. split; [|done].
      intros [_ [?|[z Hz]]]; congruence.
    + destruct (run_or_cases v (VInt 0) (<[c := delete k D]> h))
        as [[w ->]|[e [_ ->]]].
      * rewrite run_int_. destruct (py_int w) as [z|e]; [left; by eexists|].
        right. exists e. split; [|done]. by intros [? _].
      * right. exists e. split; [|done]. by intros [? _].
  - rewrite run_or_not_a_dict by done. rewrite run_int_.
    left. by eexists.
Qed.

Lemma after_pop_int c (D : dict) k (h : heap) Q :
  h !! c = Some D →
  (∀ z h1, h1 !! c = Some (delete k D) → only c h h1 →
           Q (Ok (VInt z)) h1) →
  (∀ e h1, ¬ int_or_zero (D !! k) →
           h1 !! c = Some (delete k D) → only c h h1 → Q (Raise e) h1) →
  after (_pop_int (VDict c) k) h Q.
Proof.
  intros Hc HQ He. unfold after.
  destruct (run_pop_int_cases c D k h Hc) as [[z ->]|[e [Hno ->]]]; simpl.
  - apply HQ; [apply lookup_insert_eq|apply only_insert].
  - apply He; [done|apply lookup_insert_eq|apply only_insert].
Qed.

Lemma closed_default (h : heap) (d : dict) k dv :
  closed h d → alive h dv → alive h (default dv (d !! k)).
Proof.
  intros Hcl Hdv. destruct (d !! k) as [v|] eqn:Hk; [|done].
  by apply (Hcl k).
Qed.

Lemma closed_dict_of (h : heap) (kvs : list (string * value)) :
  Forall (λ kv, alive h kv.2) kvs → closed h (dict_of kvs).
Proof.
  intros Hall k v Hk. apply elem_of_list_to_map_2 in Hk.
  rewrite Forall_forall in Hall. apply (Hall (k, v) Hk).
Qed.

(** *** Runs that leave the dictionaries of the store alone *)

Lemma keeps_refl h : keeps h h.
Proof. by intros x d. Qed.

Lemma keeps_trans h1 h2 h3 : keeps h1 h2 → keeps h2 h3 → keeps h1 h3.
Proof. intros H12 H23 x d Hx. by apply H23, H12. Qed.

Lemma keeps_grows h h' : keeps h h' → grows h h'.
Proof. intros Hk x [d Hd]. exists d. by apply Hk. Qed.


Lemma after_frames {A} (m : M A) h (Q : result A → heap → Prop) :
  frames m → (∀ res h1, keeps h h1 → Q res h1) → after m h Q.
Proof. intros Hm HQ. unfold after. apply HQ, Hm. Qed.

Lemma frames_reads {A} (m : M A) : reads m → frames m.
Proof. intros Hm h. unfold after. rewrite Hm. apply keeps_refl. Qed.

Lemma frames_bind {A B} (m : M A) (f : A → M B) :
  frames m → (∀ a, frames (f a)) → frames (m ≫= f).
Proof.
  intros Hm Hf h. apply after_bind. unfold after. specialize (Hm h).
  unfold after in Hm. destruct (run m h) as [[a|e] h1]; simpl in *; [|done].
  specialize (Hf a h1). unfold after in Hf.
  by apply (keeps_trans _ h1).
Qed.

Lemma frames_ret {A} (a : A) : frames (mret a).
Proof. intros h. apply keeps_refl. Qed.

Lemma frames_collect {A B} (f : A → M B) xs :
  (∀ x, frames (f x)) → frames (collect xs f).
Proof.
  intros Hf. induction xs as [|x xs IH]; simpl; [apply frames_ret|].
  apply frames_bind; [done|]. intros y.
  apply frames_bind; [done|]. intros ys. apply frames_ret.
Qed.

Lemma reads_items v : reads (py_items v).
Proof.
  intros h. destruct v; try reflexivity.
  destruct (h !! r) as [D|] eqn:Hr.
  - by rewrite (run_items r D).
  - unfold py_items. by rewrite run_bind, run_receiver_dangling.
Qed.

Lemma reads_iter v : reads (py_iter v).
Proof.
  intros h. destruct v; try reflexivity. unfold py_iter.
  rewrite run_bind. pose proof (reads_items (VDict r) h) as Hrd.
  destruct (run (py_items (VDict r)) h) as [[kvs|e] h1]; simpl in *; by subst.
Qed.

(** [o.copy()] of any value. *)
Lemma after_copy_any v (h : heap) Q :
  (∀ l d, v = VDict l → h !! l = Some d → after (py_copy (VDict l)) h Q) →
  (∀ e, Q (Raise e) h) →
  after (py_copy v) h Q.
Proof.
  intros Hd He. destruct v; try (by apply after_copy_not_a_dict).
  destruct (h !! r) as [d|] eqn:Hr; [by eapply Hd|].
  unfold after, py_copy. rewrite run_bind, run_receiver_dangling by done.
  apply He.
Qed.

(** [_pop_float] pops the field in any case, and returns a [float] unless
    the conversion fails. *)
Lemma run_pop_float_cases fos c (D : dict) k (h : heap) :
  h !! c = Some D →
  (∃ f, run (_pop_float fos (VDict c) k) h
        = (Ok (VFloat f), <[c := delete k D]> h)) ∨
  (∃ e, run (_pop_float fos (VDict c) k) h = (Raise e, <[c := delete k D]> h)).
Proof.
  intros Hc. unfold _pop_float.
  rewrite run_bind, (run_pop_d c D) by done. rewrite run_bind.
  destruct (run_or_cases (default (VInt 0) (D !! k)) (VInt 0)
              (<[c := delete k D]> h)) as [[w ->]|[e [_ ->]]];
    [|right; by eexists].
  rewrite run_bind, run_lift.
  destruct (py_float fos w) as [f|e]; [left|right]; by eexists.
Qed.

Lemma after_pop_float fos c (D : dict) k (h : heap) Q :
  h !! c = Some D →
  (∀ f h1, h1 !! c = Some (delete k D) → only c h h1 →
           Q (Ok (VFloat f)) h1) →
  (∀ e h1, h1 !! c = Some (delete k D) → only c h h1 → Q (Raise e) h1) →
  after (_pop_float fos (VDict c) k) h Q.
Proof.
  intros Hc HQ He. unfold after.
  destruct (run_pop_float_cases fos c D k h Hc) as [[f ->]|[e ->]]; simpl.
  - apply HQ; [apply lookup_insert_eq|apply only_insert].
  - apply He; [apply lookup_insert_eq|apply only_insert].
Qed.

(** *** The duplication of the properties *)

(** The aliases [As] are set in the record [R0], then the properties [P]
    are passed through. *)
Lemma duplicated_aliases (R0 P : dict) (As : list (string * value))
    (aliases : list string) :
  Forall (λ kv, R0 !! kv.1 = None ∧ (P !! kv.1 = None ∨ kv.1 ∈ aliases)) As →
  duplicated P R0 (foldr (λ kv m, <[kv.1 := kv.2]> m) R0 As ∪ P) aliases.
Proof.
  intros HAs. split.
  - intros k v Hk. apply lookup_union_Some_l.
    induction HAs as [|[a w] As [Ha _] _ IH]; simpl; [done|].
    rewrite lookup_insert_ne; [done|]. intros ->. simpl in Ha. congruence.
  - intros k v HP Hk Hal. rewrite lookup_union_r; [done|].
    induction HAs as [|[a w] As [_ Ha] _ IH]; simpl; [done|].
    rewrite lookup_insert_ne; [done|]. intros ->. simpl in Ha.
    destruct Ha; [congruence|done].
Qed.


(** The loops over the items of a dictionary. *)
Lemma after_items r (D : dict) (h : heap) Q :
  h !! r = Some D → Q (Ok (map_to_list D)) h → after (py_items (VDict r)) h Q.
Proof. intros Hr HQ. unfold after. by rewrite (run_items r D). Qed.

Lemma after_items_not_a_dict v (h : heap) Q :
  not_a_dict v → Q (Raise AttributeError) h → after (py_items v) h Q.
Proof. intros Hv HQ. unfold after. by destruct v. Qed.

Lemma after_for_each_setdefault r (P D : dict) (h : heap) Q :
  h !! r = Some P →
  (∀ h1, h1 !! r = Some (P ∪ D) → only r h h1 → Q (Ok tt) h1) →
  after (for_each (map_to_list D) (λ kv, py_setdefault (VDict r) kv.1 kv.2))
    h Q.
Proof.
  intros Hr HQ. unfold after.
  rewrite (run_for_each_setdefault _ _ P) by done.
  rewrite list_to_map_to_list. simpl.
  apply HQ; [apply lookup_insert_eq|apply only_insert].
Qed.

Lemma after_for_each_setdefault_not_a_dict v kvs (h : heap) Q :
  not_a_dict v → Q (Ok tt) h → Q (Raise AttributeError) h →
  after (for_each kvs (λ kv, py_setdefault v kv.1 kv.2)) h Q.
Proof.
  intros Hv Hok Hraise. unfold after. destruct kvs as [|kv kvs].
  - by rewrite run_for_each_nil.
  - rewrite run_for_each_cons. by destruct v.
Qed.

Lemma after_for_each_setitem r (P R : dict) (h : heap) Q :
  h !! r = Some R →
  (∀ h1, h1 !! r = Some (P ∪ R) → only r h h1 → Q (Ok tt) h1) →
  after (for_each (map_to_list P) (λ kv, py_setitem (VDict r) kv.1 kv.2))
    h Q.
Proof.
  intros Hr HQ. unfold after.
  rewrite (run_for_each_setitem _ _ (NoDup_fst_map_to_list P) R) by done.
  rewrite list_to_map_to_list. simpl.
  apply HQ; [apply lookup_insert_eq|apply only_insert].
Qed.

Lemma copied_up_over (P R0 : dict) w :
  copied_up P R0 (<["protected" := w]> (P ∪ R0)) ["protected"].
Proof.
  intros k v HP _ Hk. rewrite lookup_insert_ne by set_solver.
  by apply lookup_union_Some_l.
Qed.

(** [bool(v)] of a mapping in a known cell, and in the caller's store. *)
Lemma after_truthy_dict r (d : dict) (h : heap) Q :
  h !! r = Some d →
  (∀ b, b = negb (bool_decide (dom d = ∅)) → Q (Ok b) h) →
  after (truthy (VDict r)) h Q.
Proof.
  intros Hr HQ. unfold after. rewrite (run_truthy_dict r d) by done.
  by apply HQ.
Qed.

Lemma truth_not_a_dict (h : heap) v :
  not_a_dict v → truth h v = negb (falsy v).
Proof. by destruct v. Qed.

Lemma truth_dict (h : heap) x (d : dict) :
  h !! x = Some d → truth h (VDict x) = negb (bool_decide (dom d = ∅)).
Proof. unfold truth. by intros ->. Qed.

Lemma nonempty_lookup (d : dict) k v :
  d !! k = Some v → negb (bool_decide (dom d = ∅)) = true.
Proof.
  intros Hk. apply negb_true_iff, bool_decide_eq_false_2. intros Hdom.
  apply dom_empty_inv_L in Hdom. subst d. by rewrite lookup_empty in Hk.
Qed.

Lemma empty_lookup (d : dict) k :
  negb (bool_decide (dom d = ∅)) = false → d !! k = None.
Proof.
  intros Hd. apply negb_false_iff, bool_decide_eq_true_1 in Hd.
  apply dom_empty_inv_L in Hd. subst d. apply lookup_empty.
Qed.

Lemma not_elem_of_cons_ne {A} (x y : A) l : x ≠ y → x ∉ l → x ∉ y :: l.
Proof. intros Hne Hl Hin. apply elem_of_cons in Hin as [?|?]; auto. Qed.


(** Lookups through a run of deletions, by computation on the keys. *)
Lemma lookup_deletes (ks : list string) (d : dict) k :
  foldr delete d ks !! k
  = if existsb (String.eqb k) ks then None else d !! k.
Proof.
  induction ks as [|k0 ks IH]; [done|]. simpl.
  destruct (String.eqb_spec k k0) as [->|Hne]; simpl.
  - apply lookup_delete_eq.
  - by rewrite lookup_delete_ne.
Qed.

Lemma lookup_deletes_not_in (ks keys : list string) (d : dict) k :
  forallb (λ k0, existsb (String.eqb k0) keys) ks = true →
  k ∉ keys → foldr delete d ks !! k = d !! k.
Proof.
  intros Hks Hk. rewrite lookup_deletes.
  destruct (existsb (String.eqb k) ks) eqn:Hin; [|done].
  apply existsb_exists in Hin as (k0 & Hk0 & Heq).
  apply String.eqb_eq in Heq as <-.
  rewrite forallb_forall in Hks. specialize (Hks k Hk0).
  apply existsb_exists in Hks as (k1 & Hk1 & Heq).
  apply String.eqb_eq in Heq as <-.
  destruct Hk. by apply list_elem_of_In.
Qed.

Ltac deleted_keys m :=
  lazymatch m with
  | delete ?k ?m' => let ks := deleted_keys m' in constr:(k :: ks)
  | _ => constr:(@nil string)
  end.

Ltac undeleted m :=
  lazymatch m with
  | delete _ ?m' => undeleted m'
  | _ => m
  end.

Ltac lookups_through_deletes_in H :=
  repeat match type of H with
         | context [delete ?k0 ?m0 !! ?k] =>
             let m := constr:(delete k0 m0) in
             let ks := deleted_keys m in
             let d := undeleted m in
             let t := eval vm_compute in (existsb (String.eqb k) ks) in
             let E := fresh in
             assert (E : m !! k = if t then None else d !! k)
               by exact (lookup_deletes ks d k);
             rewrite E in H; clear E; cbv iota in H
         end.

Lemma lookup_None_ne (h : heap) r y (d : dict) :
  h !! r = None → h !! y = Some d → r ≠ y.
Proof. intros Hr Hy ->. congruence. Qed.

(** The cells known in the store before a step that wrote [x] only are
    known after it. *)
Ltac carry Hfr :=
  lazymatch type of Hfr with
  | only ?x ?h ?h1 =>
      repeat match goal with
             | H : h !! ?y = Some ?Y |- _ =>
                 first
                   [ lazymatch goal with
                     | Hne : x ≠ y |- _ =>
                         pose proof (only_keeps x h h1 y Y Hfr Hne H)
                     | Hne : y ≠ x |- _ =>
                         pose proof
                           (only_keeps x h h1 y Y Hfr (not_eq_sym Hne) H)
                     end;
                     clear H
                   | clear H ]
             end;
      try match goal with
          | Hg : grows ?h0 h, Hx : h1 !! x = Some _ |- _ =>
              pose proof (grows_only h0 x h h1 Hg Hfr (mk_is_Some _ _ Hx));
              clear Hg
          end;
      clear Hfr; try clear h
  end.

(** A new reference differs from the known ones. *)
Ltac distinct Hnone :=
  lazymatch type of Hnone with
  | ?h !! ?r = None =>
      repeat match goal with
             | H : h !! ?y = Some ?Y |- _ =>
                 lazymatch goal with
                 | _ : r ≠ y |- _ => fail
                 | _ => pose proof (lookup_None_ne h r y Y Hnone H)
                 end
             end
  end.

Ltac simpl_lookups_in H :=
  lookups_through_deletes_in H;
  rewrite ?lookup_delete_eq, ?lookup_insert_eq, ?lookup_empty in H;
  repeat (rewrite lookup_delete_ne in H by discriminate);
  repeat (rewrite lookup_insert_ne in H by discriminate);
  rewrite ?lookup_delete_eq, ?lookup_insert_eq, ?lookup_empty in H;
  repeat match goal with
         | E : ?d !! ?k = _ |- _ =>
             tryif constr_eq E H then fail
             else lazymatch type of H with
                  | context [d !! k] => rewrite E in H
                  end
         end;
  cbn [default from_option id] in H.

(** The goal [Q res h] of a finished step, [Q] being the rest of the
    program; a step that raised cannot lead to a result. *)
Ltac continue :=
  cbv beta iota;
  lazymatch goal with
  | |- Raise _ = Ok _ → _ => let Habs := fresh in intros Habs; discriminate Habs
  | _ => idtac
  end.

Ltac simpl_lookups :=
  rewrite ?lookup_delete_eq, ?lookup_insert_eq, ?lookup_empty;
  repeat (rewrite lookup_delete_ne by discriminate);
  repeat (rewrite lookup_insert_ne by discriminate);
  rewrite ?lookup_delete_eq, ?lookup_insert_eq, ?lookup_empty.

(** A read whose result is left abstract. *)
Ltac step_read Hreads :=
  let a := fresh "a" in
  let e := fresh "e" in
  let Hrun := fresh "Hrun" in
  apply (after_read _ _ _ Hreads); [intros a Hrun|intros e Hrun]; continue.

(** A test on known values has one outcome. *)
Ltac absurd_bool Hb :=
  try (let H' := fresh in pose proof Hb as H'; cbv in H'; discriminate H').

(** Steps through calls, added as their lemmas are proved. *)
Ltac step_call := fail.

Ltac step :=
  first [ step_call | step_prim ]
with step_prim :=
  lazymatch goal with
  | |- after (let x := ?e in @?body x) ?h ?Q =>
      lazymatch e with
      | (if ?b then _ else _) =>
          let Hb := fresh "Hb" in destruct b eqn:Hb
      | _ => idtac
      end;
      change (after (body e) h Q); cbv beta
  | |- after (_ ≫= _) _ _ => apply after_bind; step
  | |- after (mret _) _ _ => apply after_ret; continue
  | |- after (raise _) _ _ => apply after_raise; continue
  | |- after (lift (item1 ?l)) _ _ =>
      let r := eval vm_compute in (item1 l) in
      change (item1 l) with r; apply after_lift; continue
  | |- after (lift _) _ _ => apply after_lift; continue
  | |- after (for_each [] _) _ _ => apply after_for_each_nil; continue
  | |- after (for_each (_ :: _) _) _ _ => apply after_for_each_cons; step
  | |- after (if ?b then ?m1 else ?m2) ?h ?Q =>
      lazymatch b with
      | context [if ?c then _ else _] =>
          let Hb := fresh "Hb" in
          destruct c eqn:Hb; absurd_bool Hb; cbv beta iota
      | _ =>
          let b' := eval cbn [is_not_None str_differs negb] in b in
          lazymatch b' with
          | true => change (after m1 h Q)
          | false => change (after m2 h Q)
          | _ =>
              lazymatch goal with
              | H : b = true |- _ => rewrite H
              | H : b = false |- _ => rewrite H
              | _ => let Hb := fresh "Hb" in destruct b eqn:Hb; absurd_bool Hb
              end
          end
      end
  | |- after (new_dict _) _ _ =>
      let r := fresh "r" in
      let h1 := fresh "h" in
      let Hn := fresh "Hn" in
      let Hc := fresh "Hcell" in
      let Hfr := fresh "Hfr" in
      apply after_new_dict; intros r h1 Hn Hc Hfr;
      distinct Hn; carry Hfr; try clear Hn;
      try match goal with h : heap |- _ => clear h end; continue
  | |- after (py_copy (VDict _)) _ _ =>
      let r := fresh "c" in
      let h1 := fresh "h" in
      let Hn := fresh "Hn" in
      let Hc := fresh "Hcell" in
      let Hfr := fresh "Hfr" in
      eapply after_copy; [eassumption|]; intros r h1 Hn Hc Hfr;
      distinct Hn; carry Hfr; try clear Hn;
      try match goal with h : heap |- _ => clear h end; continue
  | |- after (py_copy _) _ _ =>
      let l := fresh "l" in
      let d := fresh "d" in
      let e := fresh "e" in
      let Hl := fresh "Hl" in
      apply after_copy_any; [intros l d -> Hl|intros e; continue]
  | |- after (py_pop_d (VDict _) _ _) _ _ =>
      let h1 := fresh "h" in
      let Hc := fresh "Hcell" in
      let Hfr := fresh "Hfr" in
      let v := fresh "v" in
      let Hv := fresh "Hv" in
      eapply after_pop_d; [eassumption|]; intros v h1 Hv Hc Hfr;
      carry Hfr; simpl_lookups_in Hv; subst v; continue
  | |- after (py_pop_d _ _ _) _ _ =>
      apply after_pop_d_not_a_dict; [first [exact I|assumption]|]; continue
  | |- after (py_get_d (VDict _) _ _) _ _ =>
      let v := fresh "v" in
      let Hv := fresh "Hv" in
      eapply after_get_d; [eassumption|]; intros v Hv;
      simpl_lookups_in Hv; subst v; continue
  | |- after (py_pop (VDict _) _) _ _ =>
      let v := fresh "v" in
      let h1 := fresh "h" in
      let Hk := fresh "Hk" in
      let Hc := fresh "Hcell" in
      let Hfr := fresh "Hfr" in
      eapply after_pop; [eassumption| |];
      [ intros v h1 Hk Hc Hfr; carry Hfr; simpl_lookups_in Hk;
        try discriminate Hk; try (injection Hk as <-); continue
      | intros Hk; simpl_lookups_in Hk; try discriminate Hk; continue ]
  | |- after (py_getitem (VDict _) _) _ _ =>
      let v := fresh "v" in
      let Hk := fresh "Hk" in
      eapply after_getitem; [eassumption| |];
      [ intros v Hk; simpl_lookups_in Hk;
        try discriminate Hk; try (injection Hk as <-); continue
      | intros Hk; simpl_lookups_in Hk; try discriminate Hk; continue ]
  | |- after (py_setitem (VDict _) _ _) _ _ =>
      let h1 := fresh "h" in
      let Hc := fresh "Hcell" in
      let Hfr := fresh "Hfr" in
      eapply after_setitem; [eassumption|]; intros h1 Hc Hfr;
      carry Hfr; continue
  | |- after (_pop_or_get _ _ _ _) _ _ => unfold _pop_or_get
  | |- after (int_ _) _ _ =>
      let z := fresh "z" in
      let e := fresh "e" in
      let Hint := fresh "Hint" in
      apply after_int_; [intros z Hint|intros e Hint];
      cbn [py_int] in Hint; try discriminate Hint;
      try (injection Hint as <-); continue
  | |- after (truthy ?v) _ _ => step_read (reads_truthy v)
  | |- after (_to_bool ?v) ?h _ =>
      first
        [ apply after_to_bool_alive;
          [ lazymatch goal with
            | Hg : grows ?h0 h, Hcl : closed ?h0 ?d |- _ =>
                apply (alive_grows h0 h v Hg);
                first [ exact I
                      | apply closed_default; [assumption|exact I]
                      | eapply Hcl; eassumption ]
            end
          | let b := fresh "b" in intros b; continue ]
        | step_read (reads_to_bool v) ]
  | |- after (py_or ?a ?b) _ _ => step_read (reads_or a b)
  | |- after (py_get_d ?v ?k ?dv) _ _ => step_read (reads_get_d v k dv)
  | |- after (_pop_float _ (VDict _) _) _ _ =>
      let f := fresh "f" in
      let e := fresh "e" in
      let h1 := fresh "h" in
      let Hc := fresh "Hcell" in
      let Hfr := fresh "Hfr" in
      eapply after_pop_float; [eassumption| |];
      [ intros f h1 Hc Hfr; carry Hfr; continue
      | intros e h1 Hc Hfr; carry Hfr; continue ]
  | |- after (py_iter ?v) _ _ => step_read (reads_iter v)
  | |- after (py_items (VDict ?r)) _ _ =>
      first [ eapply after_items; [eassumption|]; continue
            | step_read (reads_items (VDict r)) ]
  | |- after (py_items ?v) _ _ =>
      first [ apply after_items_not_a_dict; [first [exact I|assumption]|]; continue
            | step_read (reads_items v) ]
  | |- after (for_each (map_to_list _) (λ kv, py_setdefault (VDict _) _ _))
         _ _ =>
      let h1 := fresh "h" in
      let Hc := fresh "Hcell" in
      let Hfr := fresh "Hfr" in
      eapply after_for_each_setdefault; [eassumption|]; intros h1 Hc Hfr;
      carry Hfr; continue
  | |- after (for_each _ (λ kv, py_setdefault _ _ _)) _ _ =>
      apply after_for_each_setdefault_not_a_dict;
        [first [exact I|assumption]| |]; continue
  | |- after (for_each (map_to_list _) (λ kv, py_setitem (VDict _) _ _))
         _ _ =>
      let h1 := fresh "h" in
      let Hc := fresh "Hcell" in
      let Hfr := fresh "Hfr" in
      eapply after_for_each_setitem; [eassumption|]; intros h1 Hc Hfr;
      carry Hfr; continue
  | |- after (_pop_int (VDict _) _) _ _ =>
      let z := fresh "z" in
      let e := fresh "e" in
      let h1 := fresh "h" in
      let Hc := fresh "Hcell" in
      let Hfr := fresh "Hfr" in
      let Hno := fresh "Hno" in
      eapply after_pop_int; [eassumption| |];
      [ intros z h1 Hc Hfr; carry Hfr; continue
      | intros e h1 Hno Hc Hfr; carry Hfr; simpl_lookups_in Hno;
        try (exfalso; apply Hno; assumption); continue ]
  | |- after (passthrough (VDict _)) _ _ =>
      let h1 := fresh "h" in
      let Hc := fresh "Hcell" in
      let Hfr := fresh "Hfr" in
      eapply after_passthrough;
      [ eassumption
      | simpl_lookups; reflexivity
      | eassumption
      | intros h1 Hc Hfr; carry Hfr; continue ]
  end.

(** The record returned, at the end of a run. *)
Ltac returned :=
  let Hret := fresh in
  let Hh := fresh in
  intros Hret Hh; injection Hret as <-; subst.

(** A field of the record built by a normalizer. *)
Ltac field_value := try apply lookup_union_Some_l; simpl_lookups; f_equal.
Ltac field := field_value; reflexivity.

(** The cells known before a run that left the dictionaries of the store
    alone are known after it. *)
Ltac carry_keeps Hk :=
  lazymatch type of Hk with
  | keeps ?h ?h1 =>
      repeat match goal with
             | H : h !! ?y = Some ?Y |- _ =>
                 pose proof (Hk y Y H); clear H
             end;
      try match goal with
          | Hg : grows ?h0 h |- _ =>
              pose proof (λ x Hx, keeps_grows h h1 Hk x (Hg x Hx))
                as Hg'; clear Hg
          end;
      clear Hk; try clear h
  end.

(** A step through a run that leaves the dictionaries of the store alone
    and whose result is not looked into. *)
Ltac step_frames Hframes :=
  let res := fresh "res" in
  let h1 := fresh "h" in
  let Hk := fresh "Hkeeps" in
  apply (after_frames _ _ _ Hframes); intros res h1 Hk; carry_keeps Hk;
  destruct res; continue.

(** The cells known now are kept: the steps to come do not touch the
    hypotheses made by [hold]. *)
Ltac hold :=
  repeat match goal with
         | H : ?h !! ?r = Some ?d |- _ =>
             lazymatch type of h with
             | gmap loc _ =>
                 lazymatch goal with
                 | _ : held h r d |- _ => fail
                 | _ => pose proof (H : held h r d)
                 end
             end
         end.

(** The lookup of a key that was not popped, in what is left of [d]. *)
Ltac not_consumed Hk :=
  repeat match goal with
         | |- context [delete ?k0 ?m0 !! ?k] =>
             let m := constr:(delete k0 m0) in
             let ks := deleted_keys m in
             let d := undeleted m in
             lazymatch type of Hk with
             | _ ∉ ?keys =>
                 rewrite (lookup_deletes_not_in ks keys d k eq_refl Hk
                          : m !! k = d !! k)
             end
         end;
  reflexivity.

(** A key that a dictionary built by insertions and deletions lacks. *)
Ltac no_field :=
  solve [ reflexivity
        | lazymatch goal with
          | |- ?m !! ?k = None =>
              let ks := deleted_keys m in
              let d := undeleted m in
              exact (lookup_deletes ks d k)
          end
        | repeat first
            [ apply lookup_empty
            | apply lookup_insert_None; split; [|discriminate]
            | apply lookup_delete_None; first [left; reflexivity|right] ] ].

(** The side conditions of [duplicated_aliases]. *)
Ltac aliases_fresh :=
  repeat (apply Forall_cons; split; [split|]);
  try apply Forall_nil; cbn [fst snd];
  lazymatch goal with
  | |- True => exact I
  | |- _ ∨ _ => first [ right; solve [repeat constructor] | left; no_field ]
  | _ => no_field
  end.

(** A cell of the store at the end, or of a store that was held. *)
Ltac cell :=
  first [ eassumption
        | match goal with H : held _ _ _ |- _ => exact H end
        | simpl_lookups; reflexivity ].

(** The two runs of [passes_through]: the normalizer up to its
    compatibility block, then the block from the store that it left. *)
Ltac canonical_then_compat Hstrict Hrun :=
  let x := fresh "x" in
  let h0 := fresh "h" in
  let Hcanonical := fresh "Hcanonical" in
  let Hrun' := fresh in
  pose proof (run_bind_Ok _ _ _ _ _ Hrun) as (x & h0 & Hcanonical & Hrun');
  clear Hrun'; exists x, h0; split; [exact Hcanonical|];
  rewrite run_bind, Hcanonical, ?Hstrict in Hrun;
  lazymatch goal with
  | |- ?C => let outcome := fresh "outcome" in set (outcome := C)
  end;
  revert Hrun;
  apply (after_run _ _ _ _ _ Hcanonical); clear Hcanonical.

Ltac compat_block :=
  let Hcompat := fresh "Hcompat" in
  intros Hcompat; hold;
  apply (after_run _ _ _ _ _ Hcompat); clear Hcompat; cbn [negb].

Ltac passed_through :=
  lazymatch goal with
  | outcome := _ |- _ => subst outcome
  end;
  returned; split; [reflexivity|];
  eexists _, _, _, _, _; split; [reflexivity|];
  do 4 (split; [cell|]);
  split; [let key := fresh "key" in
          let Hkey := fresh "Hkey" in
          intros key Hkey; not_consumed Hkey|].

(** ** The normalizers that copy their input

    The flavor, security-group, security-group-rule and floating-IP
    normalizers work on a copy of the record they are given: whatever the
    outcome, no dictionary of the store is changed. *)

Lemma frames_cells {A} (m : M A) :
  (∀ h x (d : dict), h !! x = Some d →
     after m h (λ _ h', h' !! x = Some d)) →
  frames m.
Proof. intros Hm h. unfold after. intros x d Hx. by apply Hm. Qed.

Lemma frames_secgroup_rule self v : frames (_normalize_secgroup_rule self v).
Proof.
  apply frames_cells. intros h x D Hx.
  unfold _normalize_secgroup_rule, secgroup_rule_canonical.
  repeat step; eassumption.
Qed.

Lemma frames_secgroup_rules self v : frames (_normalize_secgroup_rules self v).
Proof.
  unfold _normalize_secgroup_rules.
  apply frames_bind; [apply frames_reads, reads_iter|]. intros rules.
  apply frames_bind; [|intros; apply frames_ret].
  apply frames_collect, frames_secgroup_rule.
Qed.

Ltac step_call ::=
  lazymatch goal with
  | |- after (_normalize_secgroup_rules ?self ?v) _ _ =>
      step_frames (frames_secgroup_rules self v)
  end.

Lemma frames_secgroup self v : frames (_normalize_secgroup self v).
Proof.
  apply frames_cells. intros h x D Hx.
  unfold _normalize_secgroup, secgroup_canonical.
  repeat step; eassumption.
Qed.

Lemma frames_floating_ip self v : frames (_normalize_floating_ip self v).
Proof.
  apply frames_cells. intros h x D Hx.
  unfold _normalize_floating_ip, floating_ip_canonical.
  repeat step; eassumption.
Qed.

Lemma frames_flavor float_of_string self v :
  frames (_normalize_flavor float_of_string self v).
Proof.
  apply frames_cells. intros h x D Hx.
  unfold _normalize_flavor, flavor_canonical.
  repeat step; eassumption.
Qed.

(** ** The security-group-rule normalizer *)

Lemma is_not_None_false v : is_not_None v = false → v = VNone.
Proof. by destruct v. Qed.

(** C10: the two port bounds of a rule are not treated alike.  In the
    record the normalizer returns, [port_range_min] is [None] or an [int];
    [port_range_max] is the value found in the raw record (under
    [port_range_max], else under [to_port], else [None]) as it is, a value
    equal to -1 apart, which becomes [None]: the conversion to [int] that
    follows the test of the maximum is applied to the minimum again. *)
Theorem C10_port_range_min_int_port_range_max_as_found
    (self : cloud) (h : heap) (rule : loc) (d : dict) (ret : value)
    (h' : heap) :
  h !! rule = Some d →
  run (_normalize_secgroup_rule self (VDict rule)) h = (Ok ret, h') →
  ∃ r R, ret = VDict r ∧ h' !! r = Some R ∧
    (R !! "port_range_min" = Some VNone ∨
     ∃ z, R !! "port_range_min" = Some (VInt z)) ∧
    R !! "port_range_max" =
      Some (if py_eq_int
                 (default (default VNone (d !! "to_port"))
                    (d !! "port_range_max")) (-1)
            then VNone
            else default (default VNone (d !! "to_port"))
                   (d !! "port_range_max")).
Proof.
  intros Hrule Hrun. apply (after_run _ _ _ _ _ Hrun). clear Hrun.
  unfold _normalize_secgroup_rule, secgroup_rule_canonical. repeat step.
  all: returned; eexists _, _; split; [reflexivity|]; split; [eassumption|].
  all: split; [|field].
  all: first [ left; field | right; eexists; field
             | left; field_value; by apply is_not_None_false ].
Qed.

(** C7, as amended: a raw rule with [from_port = -1] and [to_port = -1],
    without the keys [port_range_min] and [port_range_max] (which take
    precedence), with an [id] and with an [ip_range] that is a mapping when
    there is one, is normalized without an error to a record with
    [port_range_min = None] and [port_range_max = None]. *)
Theorem C7_unbounded_ports_become_None
    (self : cloud) (h : heap) (rule : loc) (d : dict) :
  h !! rule = Some d →
  d !! "from_port" = Some (VInt (-1)) →
  d !! "to_port" = Some (VInt (-1)) →
  d !! "port_range_min" = None →
  d !! "port_range_max" = None →
  is_Some (d !! "id") →
  mapping_if_present h (d !! "ip_range") →
  ∃ ret h',
    run (_normalize_secgroup_rule self (VDict rule)) h = (Ok ret, h') ∧
    ∃ r R, ret = VDict r ∧ h' !! r = Some R ∧
      R !! "port_range_min" = Some VNone ∧
      R !! "port_range_max" = Some VNone.
Proof.
  intros Hrule Hfrom Hto Hmin Hmax [id Hid] Hip.
  apply after_returns. unfold _normalize_secgroup_rule, secgroup_rule_canonical.
  destruct (d !! "ip_range") as [[| | | | | | |x]|] eqn:Hrange;
    try done; [destruct Hip as [X HX]|]; repeat step.
  all: eexists; split; [reflexivity|].
  all: eexists _, _; split; [reflexivity|]; split; [eassumption|].
  all: split; field.
Qed.

(** C7, as stated, fails: with [from_port = -1] and [to_port = -1], a
    [port_range_min] of the raw record still wins. *)
Lemma C7_port_range_min_of_raw_record_wins :
  let d := dict_of [ ("id", VInt 1); ("from_port", VInt (-1));
                     ("to_port", VInt (-1)); ("port_range_min", VInt 80) ] in
  d !! "from_port" = Some (VInt (-1)) ∧ d !! "to_port" = Some (VInt (-1)) ∧
  returned_field
    (run (_normalize_secgroup_rule (example_cloud false) (VDict 0%nat))
         (store_of [d]))
    "port_range_min"
  = Some (VInt 80).
Proof. repeat split; vm_compute; reflexivity. Qed.

(** Without an [id] there is no canonical record at all. *)
Example rule_without_id :
  raised (run (_normalize_secgroup_rule (example_cloud false) (VDict 0%nat))
              (store_of [dict_of [ ("from_port", VInt (-1));
                                   ("to_port", VInt (-1)) ]]))
  = Some (KeyError "id").
Proof. vm_compute. reflexivity. Qed.


Lemma C7_witness :
  ∃ ret h',
    run (_normalize_secgroup_rule (example_cloud false) (VDict 0%nat))
        (store_of [nova_rule_unbounded]) = (Ok ret, h') ∧
    ∃ r R, ret = VDict r ∧ h' !! r = Some R ∧
      R !! "port_range_min" = Some VNone ∧
      R !! "port_range_max" = Some VNone.
Proof.
  apply (C7_unbounded_ports_become_None (example_cloud false)
           (store_of [nova_rule_unbounded]) 0%nat nova_rule_unbounded).
  - reflexivity.
  - reflexivity.
  - reflexivity.
  - reflexivity.
  - reflexivity.
  - exists (VInt 1). reflexivity.
  - exact I.
Defined.


(** The minimum is converted, the maximum is not. *)
Example rule_numeric_strings :
  let res := run (_normalize_secgroup_rule (example_cloud false)
                    (VDict 0%nat)) (store_of [neutron_rule_strings]) in
  returned_field res "port_range_min" = Some (VInt 80) ∧
  returned_field res "port_range_max" = Some (VStr "443").
Proof. split; vm_compute; reflexivity. Qed.

Lemma C10_witness :
  let res := run (_normalize_secgroup_rule (example_cloud false)
                    (VDict 0%nat)) (store_of [neutron_rule_strings]) in
  ∃ r R, VDict 1%nat = VDict r ∧ res.2 !! r = Some R ∧
    (R !! "port_range_min" = Some VNone ∨
     ∃ z, R !! "port_range_min" = Some (VInt z)) ∧
    R !! "port_range_max" =
      Some (if py_eq_int
                 (default (default VNone (neutron_rule_strings !! "to_port"))
                    (neutron_rule_strings !! "port_range_max")) (-1)
            then VNone
            else default (default VNone (neutron_rule_strings !! "to_port"))
                   (neutron_rule_strings !! "port_range_max")).
Proof.
  apply (C10_port_range_min_int_port_range_max_as_found (example_cloud false)
           (store_of [neutron_rule_strings]) 0%nat neutron_rule_strings).
  - reflexivity.
  - apply run_result. vm_compute. reflexivity.
Defined.

(** ** The server normalizer *)

(** C9, as amended: [flavor] and [image] are required like [id] and
    [name].  A raw server without the key [flavor], or without the key
    [image] and with a [flavor] that is a mapping, makes [_normalize_server]
    fail with the [KeyError] of the first of [id], [name], [flavor], [image]
    that it lacks; no field is defaulted. *)
Theorem C9_server_requires_flavor_and_image
    (self : cloud) (h : heap) (server : loc) (d : dict) :
  h !! server = Some d →
  d !! "flavor" = None ∨
  (d !! "image" = None ∧
   ∃ fl, d !! "flavor" = Some (VDict fl) ∧ is_Some (h !! fl)) →
  ∃ k h',
    first_missing d ["id"; "name"; "flavor"; "image"] = Some k ∧
    run (_normalize_server self (VDict server)) h = (Raise (KeyError k), h').
Proof.
  intros Hserver Hlacks.
  cut (∃ k, first_missing d ["id"; "name"; "flavor"; "image"] = Some k ∧
            after (_normalize_server self (VDict server)) h
              (λ res _, res = Raise (KeyError k))).
  { intros (k & Hk & Hrun). unfold after in Hrun.
    destruct (run _ h) as [res h'] eqn:Hres. simpl in Hrun. subst res.
    by exists k, h'. }
  unfold first_missing, _normalize_server, server_canonical.
  destruct (d !! "id") as [id|] eqn:Hid;
    [|eexists; split; [reflexivity|]; repeat step; reflexivity].
  destruct (d !! "name") as [name|] eqn:Hname;
    [|eexists; split; [reflexivity|]; repeat step; reflexivity].
  destruct Hlacks as [Hflavor | (Himage & fl & Hflavor & [F HF])];
    rewrite Hflavor, ?Himage;
    (eexists; split; [reflexivity|]; repeat step; reflexivity).
Qed.





(** C9, as stated, fails: without [image], a [flavor] that is no mapping
    raises an [AttributeError] first. *)
Lemma C9_flavor_string_raises_AttributeError :
  let d := dict_of [ ("id", VStr "srv-1"); ("name", VStr "vm");
                     ("flavor", VStr "m1.small") ] in
  d !! "image" = None ∧
  raised (run (_normalize_server (example_cloud false) (VDict 0%nat))
              (store_of [d]))
  = Some AttributeError.
Proof. split; [reflexivity|]. vm_compute. reflexivity. Qed.

Lemma C9_witness :
  ∃ k h',
    first_missing
      (dict_of [ ("id", VStr "srv-1"); ("name", VStr "vm");
                 ("flavor", VDict 1%nat) ])
      ["id"; "name"; "flavor"; "image"] = Some k ∧
    run (_normalize_server (example_cloud false) (VDict 0%nat))
        (store_of [dict_of [ ("id", VStr "srv-1"); ("name", VStr "vm");
                             ("flavor", VDict 1%nat) ];
                   nova_flavor_ref])
    = (Raise (KeyError k), h').
Proof.
  apply (C9_server_requires_flavor_and_image (example_cloud false)
           (store_of [dict_of [ ("id", VStr "srv-1"); ("name", VStr "vm");
                                ("flavor", VDict 1%nat) ];
                      nova_flavor_ref])
           0%nat
           (dict_of [ ("id", VStr "srv-1"); ("name", VStr "vm");
                      ("flavor", VDict 1%nat) ])).
  - reflexivity.
  - right. split; [reflexivity|]. exists 1%nat. split; [reflexivity|].
    eexists. reflexivity.
Defined.

(** ** The pass-through of the properties *)

Lemma passes_through_fmap {X} (canonical : M X) (record : X → value)
    (whole : M value) h source keys flat :
  passes_through canonical record whole h source keys flat →
  passes_through (record <$> canonical) id whole h source keys flat.
Proof.
  intros Hpasses ret h' Hrun.
  destruct (Hpasses ret h' Hrun) as (x & h0 & Hcanonical & -> & Hrecord).
  exists (record x), h0. rewrite run_fmap, Hcanonical. done.
Qed.

Lemma passes_through_secgroup_rule self h l (d : dict) :
  strict_mode self = false → h !! l = Some d →
  passes_through (secgroup_rule_canonical self (VDict l)) fst
    (_normalize_secgroup_rule self (VDict l)) h d
    (consumed self SecGroupRule h d) (flattened SecGroupRule).
Proof.
  intros Hstrict Hl ret h' Hrun.
  unfold _normalize_secgroup_rule in Hrun.
  canonical_then_compat Hstrict Hrun.
  unfold secgroup_rule_canonical. repeat step.
  all: intros [= <-] <-; cbn [fst]; compat_block; repeat step.
  all: passed_through.
  all: apply (duplicated_aliases _ _ [(_, _); (_, _)]); aliases_fresh.
Qed.

Lemma passes_through_secgroup self h l (d : dict) :
  strict_mode self = false → h !! l = Some d →
  passes_through (secgroup_canonical self (VDict l)) fst
    (_normalize_secgroup self (VDict l)) h d
    (consumed self SecGroup h d) (flattened SecGroup).
Proof.
  intros Hstrict Hl ret h' Hrun.
  unfold _normalize_secgroup in Hrun.
  canonical_then_compat Hstrict Hrun.
  unfold secgroup_canonical. repeat step.
  all: intros [= <-] <-; cbn [fst]; compat_block; repeat step.
  all: passed_through.
  all: apply (duplicated_aliases _ _ [(_, _); (_, _)]); aliases_fresh.
Qed.

Lemma passes_through_floating_ip self h l (d : dict) :
  strict_mode self = false → h !! l = Some d →
  passes_through (floating_ip_canonical self (VDict l))
    (λ '(ret, _, _, _, _), ret)
    (_normalize_floating_ip self (VDict l)) h d
    (consumed self FloatingIP h d) (flattened FloatingIP).
Proof.
  intros Hstrict Hl ret h' Hrun.
  unfold _normalize_floating_ip in Hrun.
  unfold consumed. destruct (_use_neutron_floating self) eqn:Hneutron.
  all: canonical_then_compat Hstrict Hrun.
  all: unfold floating_ip_canonical; repeat step.
  all: intros [= <-] <-; compat_block; repeat step.
  all: passed_through.
  all: apply (duplicated_aliases _ _ [(_, _); (_, _); (_, _); (_, _); (_, _)]);
    aliases_fresh.
Qed.

Lemma passes_through_flavor float_of_string self h l (d : dict) :
  strict_mode self = false → h !! l = Some d →
  passes_through (flavor_canonical float_of_string self (VDict l)) id
    (_normalize_flavor float_of_string self (VDict l)) h d
    (consumed self Flavor h d) (flattened Flavor).
Proof.
  intros Hstrict Hl ret h' Hrun.
  unfold _normalize_flavor in Hrun.
  canonical_then_compat Hstrict Hrun.
  unfold flavor_canonical. rewrite Hstrict. repeat step.
  all: intros [= <-] <-; cbn [id]; compat_block; repeat step.
  all: passed_through.
  all: apply (duplicated_aliases _ _ []); aliases_fresh.
Qed.

(** The nested [flavor] and [image] of a raw server may be one mapping. *)
Lemma passes_through_server self h l (d : dict) :
  strict_mode self = false → h !! l = Some d → closed h d →
  passes_through (server_canonical self (VDict l))
    (λ '(ret, _, _, _, _), ret)
    (_normalize_server self (VDict l)) h d
    (consumed self Server h d) (flattened Server).
Proof.
  intros Hstrict Hl Hclosed ret h' Hrun.
  unfold _normalize_server in Hrun.
  canonical_then_compat Hstrict Hrun.
  unfold server_canonical, _SERVER_FIELDS. rewrite Hstrict.
  destruct (d !! "flavor") as [flavor|] eqn:Hflavor; [|repeat step].
  destruct (decide (not_a_dict flavor)) as [Hnd|Hd]; [repeat step|].
  destruct flavor as [| | | | | | |fl]; try (by destruct Hd). clear Hd.
  destruct (Hclosed _ _ Hflavor) as [F HF].
  destruct (d !! "image") as [image|] eqn:Himage; [|repeat step].
  pose proof (Hclosed _ _ Himage) as Him.
  destruct image as [| | | | | | |im]; [..|destruct Him as [I HI]].
  8: destruct (decide (fl = im)) as [->|Hne];
       [assert (I = F) as -> by congruence|].
  all: repeat step.
  all: intros [= <-] <-; compat_block; repeat step.
  all: passed_through.
  all: apply (duplicated_aliases _ _
                [(_, _); (_, _); (_, _); (_, _); (_, _); (_, _); (_, _)]);
    aliases_fresh.
Qed.

(** [bool(v)] of a value known not to be a mapping, or of a mapping in a
    known cell. *)
Ltac step_call ::=
  lazymatch goal with
  | |- after (_normalize_secgroup_rules ?self ?v) _ _ =>
      step_frames (frames_secgroup_rules self v)
  | |- after (truthy (VDict ?x)) ?h _ =>
      lazymatch goal with
      | H : h !! x = Some ?X |- _ =>
          let b := fresh "b" in
          let Hb := fresh "Htruth" in
          apply (after_truthy_dict x X h _ H); intros b Hb;
          try (match goal with
               | Hg : negb (bool_decide (dom X = ∅)) = _ |- _ =>
                   rewrite Hg in Hb
               end; subst b);
          continue
      end
  | |- after (truthy ?v) ?h _ =>
      lazymatch goal with
      | H : not_a_dict v |- _ =>
          apply (after_truthy_not_a_dict v h _ H); continue
      end
  end.

Ltac image_run Hstrict Hrun :=
  canonical_then_compat Hstrict Hrun;
  unfold image_canonical, _IMAGE_FIELDS; repeat step;
  intros [= <-] <-; compat_block; repeat step.

Ltac image_properties :=
  lazymatch goal with
  | outcome := _ |- _ => subst outcome
  end;
  returned; split; [reflexivity|];
  eexists _, _, _, _, _; split; [reflexivity|];
  do 4 (split; [cell|]);
  split; [|apply copied_up_over].

Ltac lookups_through_deletes :=
  repeat match goal with
         | |- context [delete ?k0 ?m0 !! ?k] =>
             let m := constr:(delete k0 m0) in
             let ks := deleted_keys m in
             let d := undeleted m in
             let t := eval vm_compute in (existsb (String.eqb k) ks) in
             let E := fresh in
             assert (E : m !! k = if t then None else d !! k)
               by exact (lookup_deletes ks d k);
             rewrite E; clear E; cbv iota
         end.

Ltac image_leaf :=
  image_properties;
  let key := fresh "key" in
  let Hkey := fresh "Hkey" in
  intros key Hkey; rewrite !lookup_union; not_consumed Hkey.

(** The cases of the raw [properties]: none, not a mapping, the raw record
    itself, another mapping. *)
Ltac image_cases Hstrict Hl Hclosed Hrun :=
  lazymatch type of Hl with
  | ?h !! ?l = Some ?d =>
      let properties := fresh "properties" in
      let Hproperties := fresh "Hproperties" in
      destruct (d !! "properties") as [properties|] eqn:Hproperties;
      [ let Hp := fresh "Hp" in
        pose proof (Hclosed _ _ Hproperties) as Hp;
        let Hnd := fresh "Hnd" in
        destruct (decide (not_a_dict properties)) as [Hnd|Hnd];
        [ image_run Hstrict Hrun
        | let p := fresh "p" in
          destruct properties as [| | | | | | |p]; try (by destruct Hnd);
          let P := fresh "P" in
          let HP := fresh "HP" in
          destruct Hp as [P HP]; clear Hnd;
          rewrite HP; cbn [default from_option id];
          let Hne := fresh "Hne" in
          destruct (decide (p = l)) as [->|Hne];
          [ assert (P = d) as -> by congruence |];
          image_run Hstrict Hrun ]
      | image_run Hstrict Hrun ]
  end.

(** The image normalizer works on the raw record itself, and its
    [properties] are the raw [properties] mapping when there is one, which
    may be the raw record; so may its [visibility]. *)
Lemma passes_through_image self h l (d : dict) :
  strict_mode self = false → h !! l = Some d → closed h d →
  passes_through (image_canonical self (VDict l))
    (λ '(new_image, _, _), new_image)
    (_normalize_image self (VDict l)) h (properties_source Image h d)
    (consumed self Image h d) (flattened Image).
Proof.
  intros Hstrict Hl Hclosed ret h' Hrun.
  unfold _normalize_image in Hrun.
  unfold properties_source, consumed, popped, visibility_given,
    _IMAGE_FIELDS, raw_properties.
  cbn [app].
  destruct (decide (not_a_dict (default VNone (d !! "visibility"))))
    as [Hscalar|Hmapping].
  - rewrite (truth_not_a_dict h _ Hscalar).
    destruct (negb (falsy (default VNone (d !! "visibility")))) eqn:Hgiven.
    all: cbn [app].
    all: image_cases Hstrict Hl Hclosed Hrun.
    all: image_leaf.
  - destruct (d !! "visibility") as [[| | | | | | |x]|] eqn:Hvisibility;
      try (by destruct Hmapping).
    clear Hmapping. destruct (Hclosed _ _ Hvisibility) as [X HX].
    cbn [default from_option id]. rewrite (truth_dict h x X HX).
    destruct (decide (x = l)) as [->|Hxl].
    + assert (X = d) as -> by congruence.
      rewrite (nonempty_lookup d _ _ Hvisibility). cbn [app].
      image_cases Hstrict Hl Hclosed Hrun.
      all: image_properties.
      all: intros key Hkey; rewrite !lookup_union.
      all: try (not_consumed Hkey).
      all: match goal with
           | Ht : false = negb (bool_decide (dom ?D = ∅)) |- _ =>
               pose proof (empty_lookup D "is_public" (eq_sym Ht)) as Hpublic
           end.
      all: lookups_through_deletes_in Hpublic.
      all: destruct (decide (key = "is_public")) as [->|Hother];
        [ lookups_through_deletes; rewrite Hpublic; reflexivity
        | pose proof (not_elem_of_cons_ne _ _ _ Hother Hkey) as Hkey';
          not_consumed Hkey' ].
    + destruct (negb (bool_decide (dom X = ∅))) eqn:Hgiven.
      all: cbn [app].
      all: image_cases Hstrict Hl Hclosed Hrun.
      all: image_leaf.
Qed.

(** C2, as amended: with strict mode disabled, the record that a normalizer
    returns has under [properties] every field of the raw record that the
    normalizer does not take out of it, with its value (for an image, unless
    the raw [properties] mapping has an entry of that name, which is kept).
    What is taken out is what the normalizer pops: [is_public] of an image
    only when the image comes without a [visibility], [status] of a
    floating IP only when neutron serves the floating IPs.
    The compatibility block of the flavor, security group, rule, server and
    floating IP normalizers changes no field that the record has before it.
    The block of every normalizer copies to the top level the properties
    whose name is neither such a field nor a legacy alias that the block
    sets. *)
Theorem C2_properties_pass_through
    (float_of_string : string → option spec_float) (self : cloud)
    (kind : resource) (h : heap) (l : loc) (d : dict) :
  strict_mode self = false →
  h !! l = Some d →
  closed h d →
  passes_through (canonical_record float_of_string self kind (VDict l)) id
    (normalizer float_of_string self kind (VDict l)) h
    (properties_source kind h d) (consumed self kind h d) (flattened kind).
Proof.
  intros Hstrict Hl Hclosed.
  destruct kind; cbn [canonical_record normalizer];
    try apply passes_through_fmap.
  - by apply passes_through_flavor.
  - by apply passes_through_image.
  - by apply passes_through_secgroup.
  - by apply passes_through_secgroup_rule.
  - by apply passes_through_server.
  - by apply passes_through_floating_ip.
Qed.

(** ** The properties and the caller's records, on examples *)


(** C2, as stated, fails: [links] is a raw field that the server normalizer
    drops, and the raw [location], kept under [properties], is not the
    [location] of the top level, which the normalizer computes. *)
Lemma C2_links_dropped_and_raw_location_not_duplicated :
  let d := dict_of vendor_server in
  let res := run (_normalize_server (example_cloud false) (VDict 0%nat))
                 (store_of [d; nova_flavor_ref]) in
  (d !! "links" = Some (VList []) ∧ d !! "location" = Some (VStr "rack 4")) ∧
  (returned_property res "links" = None ∧ returned_field res "links" = None) ∧
  returned_property res "location" = Some (VStr "rack 4") ∧
  returned_field res "location" = Some (VTuple [VStr ""; VNone]) ∧
  returned_field res "vendor" = Some (VStr "acme").
Proof.
  cbv zeta. split; [split; reflexivity|].
  repeat split; vm_compute; reflexivity.
Qed.

Lemma C2_witness :
  let self := example_cloud false in
  let d := dict_of vendor_server in
  let h := store_of [d; nova_flavor_ref] in
  ∃ ret h',
    run (normalizer (λ _, None) self Server (VDict 0%nat)) h = (Ok ret, h') ∧
    ∃ x h0,
      run (canonical_record (λ _, None) self Server (VDict 0%nat)) h
      = (Ok x, h0) ∧
      ret = id x ∧
      ∃ r p R0 R P,
        ret = VDict r ∧ h0 !! r = Some R0 ∧ h' !! r = Some R ∧
        R0 !! "properties" = Some (VDict p) ∧ h' !! p = Some P ∧
        (∀ k, k ∉ consumed self Server h d → P !! k = d !! k) ∧
        duplicated P R0 R (aliases Server).
Proof.
  cbv zeta. eexists _, _.
  split; [apply run_result; vm_compute; reflexivity|].
  apply (C2_properties_pass_through (λ _, None) (example_cloud false)
           Server (store_of [dict_of vendor_server; nova_flavor_ref])
           0%nat (dict_of vendor_server)).
  - reflexivity.
  - reflexivity.
  - apply closed_dict_of. repeat constructor. eexists. reflexivity.
  - apply run_result. vm_compute. reflexivity.
Defined.

(** The compatibility block of the image normalizer assigns where the
    others use [setdefault]: a property replaces the field of its name. *)
Example image_property_replaces_field :
  let h := store_of [dict_of glance_image; dict_of glance_properties] in
  returned_field (run (_normalize_image (example_cloud true) (VDict 0%nat)) h)
    "name" = Some (VStr "cirros") ∧
  returned_field (run (_normalize_image (example_cloud false) (VDict 0%nat)) h)
    "name" = Some (VStr "other").
Proof. split; vm_compute; reflexivity. Qed.

(** C1 fails on the code.  [_normalize_image] works on the record it is
    given: the fields it reads are gone from the caller's record, and the
    fields it leaves are added to the caller's [properties] mapping.
    [_normalize_server] copies the record but not the mappings nested in
    it: [links] is gone from the caller's [flavor]. *)
Theorem C1_image_and_server_normalizers_change_the_input :
  let self := example_cloud false in
  let hi := store_of [dict_of glance_image; dict_of glance_properties] in
  let image := run (_normalize_image self (VDict 0%nat)) hi in
  let hs := store_of [dict_of vendor_server; nova_flavor_ref] in
  let server := run (_normalize_server self (VDict 0%nat)) hs in
  (raised image = None ∧
   field_at hi 0%nat "name" = Some (VStr "cirros") ∧
   field_at image.2 0%nat "name" = None ∧
   field_at hi 1%nat "vendor" = None ∧
   field_at image.2 1%nat "vendor" = Some (VStr "acme")) ∧
  (raised server = None ∧
   field_at hs 1%nat "links" = Some (VList []) ∧
   field_at server.2 1%nat "links" = None).
Proof. cbv zeta. repeat split; vm_compute; reflexivity. Qed.

(** The other four normalizers do copy: whatever they are given and
    whatever the outcome, no dictionary of the store is changed. *)
Theorem copying_normalizers_keep_the_store float_of_string self raw h :
  keeps h (run (_normalize_flavor float_of_string self raw) h).2 ∧
  keeps h (run (_normalize_secgroup self raw) h).2 ∧
  keeps h (run (_normalize_secgroup_rule self raw) h).2 ∧
  keeps h (run (_normalize_floating_ip self raw) h).2.
Proof.
  repeat split.
  - apply frames_flavor.
  - apply frames_secgroup.
  - apply frames_secgroup_rule.
  - apply frames_floating_ip.
Qed.

(** ** More about the operations *)

Lemma lower_ascii_idemp a : lower_ascii (lower_ascii a) = lower_ascii a.
Proof. destruct a as [[] [] [] [] [] [] [] []]; reflexivity. Qed.

Lemma lower_idemp s : lower (lower s) = lower s.
Proof.
  induction s as [|a s IH]; [done|]. simpl. by rewrite lower_ascii_idemp, IH.
Qed.

Lemma upper_lower_T a :
  Ascii.eqb (upper_ascii (lower_ascii a)) "T" = Ascii.eqb (lower_ascii a) "t".
Proof. destruct a as [[] [] [] [] [] [] [] []]; reflexivity. Qed.

Lemma run_to_bool_string s (h : heap) :
  run (_to_bool (VStr s)) h = (Ok (String.eqb (lower s) "true"), h).
Proof.
  unfold _to_bool. destruct s as [|a s]; [reflexivity|].
  cbn [String.eqb lower capitalize]. rewrite lower_idemp.
  change (run (mret ?b) h) with (Ok b, h). do 2 f_equal.
  change "True" with (String "T" "rue").
  change "true" with (String "t" "rue").
  cbn [String.eqb]. by rewrite upper_lower_T.
Qed.

Lemma run_to_bool_of v (h : heap) :
  not_a_dict v → run (_to_bool v) h = (Ok (to_bool_of v), h).
Proof.
  destruct v; try (intros Hv; by apply run_truthy_falsy).
  intros _. apply run_to_bool_string.
Qed.

(** [int(x or 0)] on a popped field. *)
Lemma run_pop_int_value c (D : dict) k (h : heap) v h1 :
  h !! c = Some D →
  run (_pop_int (VDict c) k) h = (Ok v, h1) →
  ∃ z, v = VInt z ∧ popped_int (D !! k) z.
Proof.
  intros Hc. unfold _pop_int, popped_int.
  rewrite run_bind, (run_pop_d c D) by done. rewrite run_bind.
  destruct (D !! k) as [w|] eqn:Hk; cbn [default from_option id].
  - destruct (decide (not_a_dict w)) as [Hw|Hw].
    + rewrite run_or_not_a_dict by done. rewrite run_int_.
      destruct (falsy w) eqn:Hf.
      * intros [= <- _]. by exists 0.
      * destruct (py_int w) as [z|e] eqn:Hi; [|done].
        intros [= <- _]. by exists z.
    + destruct (run (py_or w (VInt 0)) (<[c := delete k D]> h))
        as [[u|e] h2]; [|done].
      rewrite run_int_. destruct (py_int u) as [z|e]; [|done].
      intros [= <- _]. by exists z.
  - rewrite run_or_not_a_dict by done. rewrite run_int_.
    intros [= <- _]. by exists 0.
Qed.

Lemma after_pop_int_value c (D : dict) k (h : heap) Q :
  h !! c = Some D →
  (∀ z h1, popped_int (D !! k) z → h1 !! c = Some (delete k D) →
           only c h h1 → Q (Ok (VInt z)) h1) →
  (∀ e h1, ¬ int_or_zero (D !! k) →
           h1 !! c = Some (delete k D) → only c h h1 → Q (Raise e) h1) →
  after (_pop_int (VDict c) k) h Q.
Proof.
  intros Hc HQ He. unfold after.
  destruct (run_pop_int_cases c D k h Hc) as [[z Hz]|[e [Hno ->]]].
  - destruct (run_pop_int_value c D k h _ _ Hc Hz) as (z' & [= <-] & Hpop).
    rewrite Hz. simpl. apply HQ; [done|apply lookup_insert_eq|apply only_insert].
  - simpl. apply He; [done|apply lookup_insert_eq|apply only_insert].
Qed.

(** [bool(v)] of a value that is no dangling reference. *)
Lemma after_truthy_alive v (h : heap) Q :
  alive h v →
  (∀ b, (not_a_dict v → b = bool_of v) → Q (Ok b) h) →
  after (truthy v) h Q.
Proof.
  intros Hv HQ. unfold after.
  destruct (decide (not_a_dict v)) as [Hnd|Hd].
  - rewrite run_truthy_falsy by done. by apply HQ.
  - destruct (truthy_alive v h Hv) as [b ->]. by apply HQ.
Qed.

Lemma after_to_bool_of v (h : heap) Q :
  alive h v →
  (∀ b, (not_a_dict v → b = to_bool_of v) → Q (Ok b) h) →
  after (_to_bool v) h Q.
Proof.
  intros Hv HQ. unfold after.
  destruct (decide (not_a_dict v)) as [Hnd|Hd].
  - rewrite run_to_bool_of by done. by apply HQ.
  - destruct (to_bool_alive v h Hv) as [b ->]. by apply HQ.
Qed.

(** The loop of the list normalizers. *)
Lemma run_collect {A B} (f : A → M B) xs :
  ∀ h ys h',
    run (collect xs f) h = (Ok ys, h') ↔ collected f h xs ys h'.
Proof.
  induction xs as [|x xs IH]; intros h ys h'; simpl.
  - split.
    + intros [= <- <-]. constructor.
    + inversion 1. reflexivity.
  - rewrite run_bind. split.
    + destruct (run (f x) h) as [[y|e] h1] eqn:Hx; [|done].
      rewrite run_bind.
      destruct (run (collect xs f) h1) as [[zs|e] h2] eqn:Hxs; [|done].
      intros [= <- <-]. econstructor; [done|]. by apply IH.
    + inversion 1 as [|? ? y h1 ? zs ? Hx Hxs]; subst.
      rewrite Hx, run_bind. apply IH in Hxs. by rewrite Hxs.
Qed.

Lemma collected_length {A B} (f : A → M B) h xs ys h' :
  collected f h xs ys h' → length ys = length xs.
Proof. induction 1; simpl; congruence. Qed.

Lemma run_collect_raise {A B} (f : A → M B) xs :
  ∀ h e h',
    run (collect xs f) h = (Raise e, h') ↔
    ∃ pre x post ys h1,
      xs = (pre ++ x :: post)%list ∧ collected f h pre ys h1 ∧
      run (f x) h1 = (Raise e, h').
Proof.
  induction xs as [|x xs IH]; intros h e h'; simpl.
  - split; [done|]. intros (pre & y & post & ys & h1 & Hxs & _).
    by destruct pre.
  - rewrite run_bind. split.
    + destruct (run (f x) h) as [[y|e1] h1] eqn:Hx.
      * rewrite run_bind.
        destruct (run (collect xs f) h1) as [[zs|e2] h2] eqn:Hxs; [done|].
        intros [= <- <-]. apply IH in Hxs
          as (pre & x' & post & ys & h3 & -> & Hpre & Hx').
        exists (x :: pre), x', post, (y :: ys), h3.
        split; [done|]. split; [|done]. by econstructor.
      * intros [= <- <-]. exists [], x, xs, [], h.
        split; [done|]. split; [constructor|done].
    + intros (pre & x' & post & ys & h1 & Hxs & Hpre & Hx').
      destruct pre as [|x0 pre]; simpl in Hxs; injection Hxs as <- ->.
      * inversion Hpre; subst. by rewrite Hx'.
      * inversion Hpre as [|? ? y h2 ? zs ? Hx Hrest]; subst.
        rewrite Hx, run_bind.
        assert (run (collect (pre ++ x' :: post)%list f) h2 = (Raise e, h'))
          as ->; [|done].
        apply IH. by exists pre, x', post, zs, h1.
Qed.

(** [if x is not None: x = int(x)] *)
Lemma after_optional_int x (h : heap) Q :
  (∀ v, Q (Ok v) h) → (∀ e, Q (Raise e) h) →
  after (if is_not_None x then int_ x else mret x) h Q.
Proof.
  intros HQ He. destruct (is_not_None x); [|apply after_ret, HQ].
  apply after_int_; intros; [apply HQ|apply He].
Qed.

(** [bool(v)] and [_to_bool(v)], whatever [v] is. *)
Lemma after_truthy_cases v (h : heap) Q :
  (∀ b, (not_a_dict v → b = bool_of v) → Q (Ok b) h) →
  (∀ e, Q (Raise e) h) →
  after (truthy v) h Q.
Proof.
  intros HQ He. unfold after.
  destruct (decide (not_a_dict v)) as [Hnd|Hd].
  - rewrite run_truthy_falsy by done. by apply HQ.
  - pose proof (reads_truthy v h) as Hrd.
    destruct (run (truthy v) h) as [[b|e] h1]; simpl in *; subst;
      [by apply HQ|apply He].
Qed.

Lemma after_to_bool_cases v (h : heap) Q :
  (∀ b, (not_a_dict v → b = to_bool_of v) → Q (Ok b) h) →
  (∀ e, Q (Raise e) h) →
  after (_to_bool v) h Q.
Proof.
  intros HQ He. unfold after.
  destruct (decide (not_a_dict v)) as [Hnd|Hd].
  - rewrite run_to_bool_of by done. by apply HQ.
  - pose proof (reads_to_bool v h) as Hrd.
    destruct (run (_to_bool v) h) as [[b|e] h1]; simpl in *; subst;
      [by apply HQ|apply He].
Qed.

Lemma scalar_default (d : dict) k dv :
  scalar (d !! k) → not_a_dict dv → not_a_dict (default dv (d !! k)).
Proof. by destruct (d !! k). Qed.

(** The list normalizers on a list. *)
Lemma run_list_normalizer fs self kind l (h : heap) :
  run (list_normalizer fs self kind (VList l)) h
  = run (VList <$> collect l (normalizer fs self kind)) h.
Proof. by destruct kind. Qed.

Lemma after_secgroup_rules self v (h : heap) Q :
  (∀ rs h1, keeps h h1 → (∀ l, v = VList l → length rs = length l) →
            Q (Ok (VList rs)) h1) →
  (∀ e h1, keeps h h1 → Q (Raise e) h1) →
  after (_normalize_secgroup_rules self v) h Q.
Proof.
  intros HQ He. unfold after.
  pose proof (frames_secgroup_rules self v h) as Hkeeps.
  unfold after in Hkeeps. revert Hkeeps.
  unfold _normalize_secgroup_rules. rewrite run_bind.
  pose proof (reads_iter v h) as Hrd.
  destruct (run (py_iter v) h) as [[rules|e] h1] eqn:Hiter;
    simpl in Hrd; subst; [|intros; by apply He].
  rewrite run_bind.
  destruct (run (collect rules (_normalize_secgroup_rule self)) h)
    as [[rs|e] h1] eqn:Hrs; [|intros; by apply He].
  intros Hkeeps. apply HQ; [done|].
  intros l ->. injection Hiter as <-.
  apply run_collect in Hrs. by apply collected_length in Hrs.
Qed.

(** [o[k] = _pop_int(o, k)]: the field is replaced by its integer. *)
Lemma after_pop_int_set c (D : dict) k (h : heap) Q :
  h !! c = Some D →
  (∀ z h1, popped_int (D !! k) z → h1 !! c = Some (<[k := VInt z]> D) →
           only c h h1 → Q (Ok tt) h1) →
  (∀ e h1, ¬ int_or_zero (D !! k) →
           h1 !! c = Some (delete k D) → only c h h1 → Q (Raise e) h1) →
  after (_pop_int (VDict c) k ≫= py_setitem (VDict c) k) h Q.
Proof.
  intros Hc HQ He. apply after_bind.
  apply (after_pop_int_value c D k h); [done| |]; cbv beta iota.
  - intros z h1 Hz Hcell Hfr.
    apply (after_setitem c (delete k D)); [done|].
    intros h2 Hcell2 Hfr2. rewrite insert_delete_eq in Hcell2.
    apply (HQ z h2); [done|done|].
    intros y Hy. rewrite (Hfr2 y Hy). by apply Hfr.
  - intros e h1 Hno Hcell Hfr. by apply He.
Qed.

(** ** The records the normalizers build *)

(** The steps of this part keep the bounds of a rule abstract and the
    integers of [_pop_int] related to the fields they come from. *)
Ltac step_call ::=
  lazymatch goal with
  | |- after (let x := ?e in @?body x) ?h ?Q =>
      change (after (body e) h Q); cbv beta
  | |- after (if is_not_None ?x then int_ ?x else mret ?x) _ _ =>
      let v := fresh "v" in
      let e := fresh "e" in
      apply after_optional_int; [intros v|intros e]; continue
  | |- after (_normalize_secgroup_rules _ _) _ _ =>
      let rs := fresh "rs" in
      let e := fresh "e" in
      let h1 := fresh "h" in
      let Hk := fresh "Hkeeps" in
      let Hrules := fresh "Hrules" in
      apply after_secgroup_rules;
      [ intros rs h1 Hk Hrules; carry_keeps Hk; continue
      | intros e h1 Hk; carry_keeps Hk; continue ]
  | |- after (truthy _) _ _ =>
      let b := fresh "b" in
      let e := fresh "e" in
      let Hbool := fresh "Hbool" in
      apply after_truthy_cases; [intros b Hbool|intros e]; continue
  | |- after (_to_bool _) _ _ =>
      let b := fresh "b" in
      let e := fresh "e" in
      let Hbool := fresh "Hbool" in
      apply after_to_bool_cases; [intros b Hbool|intros e]; continue
  | |- after (_pop_int (VDict ?r) ?k ≫= py_setitem (VDict ?r) ?k) _ _ =>
      let z := fresh "z" in
      let e := fresh "e" in
      let h1 := fresh "h" in
      let Hz := fresh "Hz" in
      let Hc := fresh "Hcell" in
      let Hfr := fresh "Hfr" in
      let Hno := fresh "Hno" in
      eapply after_pop_int_set; [eassumption| |];
      [ intros z h1 Hz Hc Hfr; carry Hfr; continue
      | intros e h1 Hno Hc Hfr; carry Hfr; continue ]
  | |- after (_pop_int (VDict _) _) _ _ =>
      let z := fresh "z" in
      let e := fresh "e" in
      let h1 := fresh "h" in
      let Hz := fresh "Hz" in
      let Hc := fresh "Hcell" in
      let Hfr := fresh "Hfr" in
      let Hno := fresh "Hno" in
      eapply after_pop_int_value; [eassumption| |];
      [ intros z h1 Hz Hc Hfr; carry Hfr; simpl_lookups_in Hz; continue
      | intros e h1 Hno Hc Hfr; carry Hfr; continue ]
  | |- after (py_get_d ?v _ _) _ _ =>
      lazymatch v with
      | VDict _ => fail
      | _ => apply after_get_d_not_a_dict; [first [exact I|assumption]|];
             continue
      end
  end.

(** A key of a dictionary built by insertions. *)
Ltac key_in Hk :=
  repeat (apply elem_of_cons in Hk as [->|Hk]);
  [..|apply elem_of_nil in Hk; destruct Hk].

(** A run that returned: its steps, with the statement about its outcome
    set aside until the run is over. *)
Ltac run Hrun :=
  lazymatch goal with
  | |- ?C =>
      let outcome := fresh "outcome" in
      set (outcome := C); apply (after_run _ _ _ _ _ Hrun); clear Hrun
  end.

Ltac finish :=
  lazymatch goal with
  | outcome := _ |- _ => subst outcome
  end.

(** The mode, from the test that opens the compatibility block. *)
Ltac mode :=
  lazymatch goal with
  | Hb : negb (strict_mode ?self) = _ |- _ =>
      destruct (strict_mode self) eqn:?; try discriminate Hb; clear Hb
  end.

(** A field that is the raw field, which is there. *)
Ltac rewrite_field k :=
  match goal with H : _ !! k = Some _ |- _ !! k = _ !! k => rewrite H end.

(** The properties are the fields of [d] that were not taken. *)
Ltac left_in_properties :=
  let k := fresh "k" in
  let Hk := fresh "Hk" in
  intros k; destruct (decide _) as [Hk|Hk];
  [ key_in Hk; no_field | not_consumed Hk ].

(** The keys of a record built by insertions on the empty dictionary. *)
Ltac keys_of_record :=
  let Hmode := fresh "Hmode" in
  intros Hmode; first [discriminate Hmode|reflexivity].

(** The legacy aliases, that the compatibility block sets. *)
Ltac legacy :=
  let Hmode := fresh "Hmode" in
  intros Hmode; first [discriminate Hmode|repeat split; field].

(** A field of the record at the end. *)
Ltac known_field :=
  first [ reflexivity
        | apply lookup_union_Some_l; reflexivity
        | match goal with
          | H : ?d !! ?k = Some _ |- _ !! ?k = ?d !! ?k => rewrite H
          end;
          first [reflexivity|apply lookup_union_Some_l; reflexivity] ].

(** The backend, from the test on it. *)
Ltac backend :=
  lazymatch goal with
  | Hb : _use_neutron_floating _ = _ |- _ => rewrite Hb
  end.

(** A boolean field, from the values it was read from. *)
Ltac bool_value :=
  intros;
  repeat match goal with
         | H : not_a_dict _ → ?b = _ |- context [?b] =>
             is_var b;
             rewrite H
               by (first [exact I|apply scalar_default; [assumption|exact I]]);
             clear H
         end;
  reflexivity.

(** An integer field, from the field it was read from. *)
Ltac popped :=
  match goal with
  | H : popped_int _ ?z |- popped_int _ ?z => exact H
  end.

(** The outcome of the tests on values that are not mappings. *)
Ltac truth :=
  repeat match goal with
         | H : not_a_dict ?v → _ = bool_of ?v |- _ =>
             rewrite <- (H ltac:(first [exact I
                                       |apply scalar_default;
                                        [assumption|exact I]]));
             clear H
         end.

(** The record and its properties, at the end of a run. *)
Ltac normalized_record :=
  finish; try mode; returned;
  eexists _, _, _, _; split; [reflexivity|];
  split; [cell|]; split; [known_field|]; split; [cell|].

Lemma secgroup_rule_run self h l (d : dict) ret h' :
  h !! l = Some d → closed h d →
  run (_normalize_secgroup_rule self (VDict l)) h = (Ok ret, h') →
  normalized ret h' (λ R P,
    (R !! "id" = d !! "id" ∧
     R !! "direction" = Some (default (VStr "ingress") (d !! "direction")) ∧
     R !! "ethertype" = Some (default (VStr "IPv4") (d !! "ethertype")) ∧
     R !! "protocol"
     = Some (default (default VNone (d !! "ip_protocol")) (d !! "protocol")) ∧
     R !! "remote_ip_prefix"
     = Some (default (cidr_of h d) (d !! "remote_ip_prefix")) ∧
     R !! "security_group_id"
     = Some (default (default VNone (d !! "parent_group_id"))
               (d !! "security_group_id")) ∧
     R !! "remote_group_id" = Some (default VNone (d !! "remote_group_id"))) ∧
    R !! "location" = Some (_get_current_location self (project_of d) VNone) ∧
    (∀ k, P !! k = if decide (k ∈ taken self SecGroupRule) then None
                   else d !! k) ∧
    (strict_mode self = true →
     dom R = list_to_set (canonical_fields SecGroupRule)) ∧
    (strict_mode self = false →
     R !! "project_id" = Some (project_of d) ∧
     R !! "tenant_id" = Some (project_of d))).
Proof.
  intros Hl Hclosed Hrun.
  unfold normalized, cidr_of, project_of, field_at, taken.
  cbn [app popped vendor_keys].
  destruct (d !! "ip_range") as [ip_range|] eqn:Hip.
  all: try (pose proof (Hclosed _ _ Hip) as Halive;
            destruct (decide (not_a_dict ip_range)) as [Hnd|Hd];
            [|destruct ip_range as [| | | | | | |x]; try (by destruct Hd);
              destruct Halive as [X HX]; rewrite HX; clear Hd]).
  all: cbn [default from_option id mbind option_bind].
  all: run Hrun.
  all: unfold _normalize_secgroup_rule, secgroup_rule_canonical.
  all: repeat step.
  all: normalized_record.
  all: split; [repeat split; known_field|].
  all: split; [known_field|].
  all: split; [left_in_properties|].
  all: split; [keys_of_record|legacy].
Qed.

Lemma secgroup_run self h l (d : dict) ret h' :
  h !! l = Some d →
  run (_normalize_secgroup self (VDict l)) h = (Ok ret, h') →
  normalized ret h' (λ R P,
    (R !! "id" = d !! "id" ∧ R !! "name" = d !! "name" ∧
     R !! "description" = d !! "description") ∧
    (∃ rs, R !! "security_group_rules" = Some (VList rs) ∧
           ∀ rules, raw_rules d = VList rules → length rs = length rules) ∧
    R !! "location" = Some (_get_current_location self (project_of d) VNone) ∧
    (∀ k, P !! k = if decide (k ∈ taken self SecGroup) then None
                   else d !! k) ∧
    (strict_mode self = true →
     dom R = list_to_set (canonical_fields SecGroup)) ∧
    (strict_mode self = false →
     R !! "project_id" = Some (project_of d) ∧
     R !! "tenant_id" = Some (project_of d))).
Proof.
  intros Hl Hrun.
  unfold normalized, raw_rules, project_of, taken.
  cbn [app popped vendor_keys].
  run Hrun. unfold _normalize_secgroup, secgroup_canonical.
  repeat step.
  all: normalized_record.
  all: split; [repeat split; known_field|].
  all: split; [eexists; split; [known_field|assumption]|].
  all: split; [known_field|].
  all: split; [left_in_properties|].
  all: split; [keys_of_record|legacy].
Qed.

Lemma floating_ip_run self h l (d : dict) ret h' :
  h !! l = Some d →
  run (_normalize_floating_ip self (VDict l)) h = (Ok ret, h') →
  normalized ret h' (λ R P,
    (R !! "id" = d !! "id" ∧
     R !! "fixed_ip_address"
     = Some (default (default VNone (d !! "fixed_ip"))
               (d !! "fixed_ip_address")) ∧
     R !! "floating_ip_address"
     = Some (default (default VNone (d !! "ip"))
               (d !! "floating_ip_address")) ∧
     R !! "network" = Some (network_of d) ∧
     R !! "port" = Some (default VNone (d !! "port_id")) ∧
     R !! "router" = Some (default VNone (d !! "router_id"))) ∧
    (∃ b, R !! "attached" = Some (VBool b) ∧
          (not_a_dict (attachment self d) → b = bool_of (attachment self d))) ∧
    R !! "status"
    = Some (if _use_neutron_floating self
            then default (VStr "UNKNOWN") (d !! "status")
            else VStr "ACTIVE") ∧
    R !! "location" = Some (_get_current_location self (project_of d) VNone) ∧
    (∀ k, P !! k = if decide (k ∈ taken self FloatingIP) then None
                   else d !! k) ∧
    (strict_mode self = true →
     dom R = list_to_set (canonical_fields FloatingIP)) ∧
    (strict_mode self = false →
     R !! "port_id" = Some (default VNone (d !! "port_id")) ∧
     R !! "router_id" = Some (default VNone (d !! "router_id")) ∧
     R !! "project_id" = Some (project_of d) ∧
     R !! "tenant_id" = Some (project_of d) ∧
     R !! "floating_network_id" = Some (VTuple [network_of d]))).
Proof.
  intros Hl Hrun.
  unfold normalized, network_of, attachment, project_of, taken.
  run Hrun. unfold _normalize_floating_ip, floating_ip_canonical.
  repeat step.
  all: finish; try backend; cbn [app]; try mode; returned.
  all: eexists _, _, _, _; split; [reflexivity|].
  all: split; [cell|]; split; [known_field|]; split; [cell|].
  all: split; [repeat split; known_field|].
  all: split; [eexists; split; [known_field|assumption]|].
  all: split; [known_field|].
  all: split; [known_field|].
  all: split; [left_in_properties|].
  all: split; [keys_of_record|legacy].
Qed.

Lemma flavor_run float_of_string self h l (d : dict) ret h' :
  h !! l = Some d →
  run (_normalize_flavor float_of_string self (VDict l)) h = (Ok ret, h') →
  normalized ret h' (λ R P,
    (R !! "id" = d !! "id" ∧ R !! "name" = d !! "name" ∧
     R !! "location" = Some (current_location self)) ∧
    (∃ b b',
       R !! "is_public" = Some (VBool b) ∧
       R !! "is_disabled" = Some (VBool b') ∧
       (scalar (d !! "os-flavor-access:is_public") →
        scalar (d !! "is_public") → b = flavor_is_public d) ∧
       (scalar (d !! "OS-FLV-DISABLED:disabled") →
        b' = to_bool_of
               (default (VBool false) (d !! "OS-FLV-DISABLED:disabled")))) ∧
    (∃ ram vcpus disk swap,
       (R !! "ram" = Some (VInt ram) ∧ R !! "vcpus" = Some (VInt vcpus) ∧
        R !! "disk" = Some (VInt disk) ∧ R !! "swap" = Some (VInt swap)) ∧
       popped_int (d !! "ram") ram ∧ popped_int (d !! "vcpus") vcpus ∧
       popped_int (d !! "disk") disk ∧ popped_int (d !! "swap") swap) ∧
    (∃ e, py_int (default (VInt 0) (d !! "OS-FLV-EXT-DATA:ephemeral")) = Ok e ∧
          R !! "ephemeral" = Some (default (VInt e) (d !! "ephemeral"))) ∧
    (∃ f, R !! "rxtx_factor" = Some (VFloat f)) ∧
    match d !! "extra_specs" with
    | Some v => R !! "extra_specs" = Some v
    | None => ∃ e, R !! "extra_specs" = Some (VDict e) ∧ h' !! e = Some ∅
    end ∧
    (∀ k, P !! k = if decide (k ∈ taken self Flavor) then None
                   else d !! k) ∧
    (strict_mode self = true →
     dom R = list_to_set (canonical_fields Flavor))).
Proof.
  intros Hl Hrun.
  unfold normalized, flavor_is_public, taken.
  unfold _normalize_flavor, flavor_canonical in Hrun.
  destruct (strict_mode self) eqn:Hstrict;
    cbn [app popped vendor_keys negb] in *.
  all: run Hrun.
  all: repeat step.
  all: finish; returned.
  all: eexists _, _, _, _; split; [reflexivity|].
  all: split; [cell|]; split; [known_field|]; split; [cell|].
  all: split; [repeat split; known_field|].
  all: split; [eexists _, _; split; [known_field|]; split; [known_field|];
               split; bool_value|].
  all: split; [eexists _, _, _, _; split; [repeat split; known_field|];
               repeat split; assumption|].
  all: split; [eexists; split; [eassumption|known_field]|].
  all: split; [eexists; known_field|].
  all: split; [destruct (d !! "extra_specs"); cbn [default from_option id];
               [known_field|eexists; split; [known_field|cell]]|].
  all: split; [left_in_properties|].
  all: keys_of_record.
Qed.

Lemma server_run self h l (d : dict) ret h' :
  h !! l = Some d → closed h d →
  run (_normalize_server self (VDict l)) h = (Ok ret, h') →
  normalized ret h' (λ R P,
    (R !! "id" = d !! "id" ∧ R !! "name" = d !! "name" ∧
     R !! "flavor" = d !! "flavor" ∧ R !! "image" = d !! "image") ∧
    R !! "location"
    = Some (_get_current_location self (project_of d)
              (default VNone (d !! "OS-EXT-AZ:availability_zone"))) ∧
    (R !! "volumes"
     = Some (default (VList [])
               (d !! "os-extended-volumes:volumes_attached")) ∧
     R !! "host_id" = Some (default VNone (d !! "hostId")) ∧
     R !! "disk_config" = Some (default VNone (d !! "OS-DCF:diskConfig")) ∧
     R !! "power_state"
     = Some (default VNone (d !! "OS-EXT-STS:power_state")) ∧
     R !! "task_state" = Some (default VNone (d !! "OS-EXT-STS:task_state")) ∧
     R !! "vm_state" = Some (default VNone (d !! "OS-EXT-STS:vm_state")) ∧
     R !! "launched_at"
     = Some (default VNone (d !! "OS-SRV-USG:launched_at")) ∧
     R !! "terminated_at"
     = Some (default VNone (d !! "OS-SRV-USG:terminated_at")) ∧
     R !! "interface_ip" = Some (VStr "")) ∧
    (∀ field, field ∈ _SERVER_FIELDS →
              R !! field = Some (default VNone (d !! field))) ∧
    (∃ b z,
       R !! "has_config_drive" = Some (VBool b) ∧
       R !! "progress" = Some (VInt z) ∧
       (scalar (d !! "config_drive") →
        b = to_bool_of (default (VBool false) (d !! "config_drive"))) ∧
       popped_int (d !! "progress") z) ∧
    (∀ k, P !! k = if decide (k ∈ taken self Server) then None
                   else d !! k) ∧
    (strict_mode self = true →
     dom R = list_to_set (canonical_fields Server)) ∧
    (strict_mode self = false →
     R !! "hostId" = Some (default VNone (d !! "hostId")) ∧
     R !! "config_drive" = Some (default (VBool false) (d !! "config_drive")) ∧
     R !! "project_id" = Some (project_of d) ∧
     R !! "tenant_id" = Some (project_of d) ∧
     R !! "region" = Some (region_name self) ∧
     R !! "cloud" = Some (cloud_name self) ∧
     R !! "az" = Some (default VNone (d !! "OS-EXT-AZ:availability_zone")))).
Proof.
  intros Hl Hclosed Hrun.
  unfold normalized, project_of, taken.
  unfold _normalize_server, server_canonical in Hrun.
  unfold _SERVER_FIELDS in *.
  destruct (strict_mode self) eqn:Hstrict;
    cbn [app popped vendor_keys negb] in *; unfold _SERVER_FIELDS.
  all: destruct (d !! "flavor") as [flavor|] eqn:Hflavor;
    [|run Hrun; repeat step].
  all: destruct (decide (not_a_dict flavor)) as [Hnd|Hd];
    [run Hrun; repeat step|].
  all: destruct flavor as [| | | | | | |fl]; try (by destruct Hd); clear Hd.
  all: destruct (Hclosed _ _ Hflavor) as [F HF].
  all: destruct (d !! "image") as [image|] eqn:Himage;
    [|run Hrun; repeat step].
  all: pose proof (Hclosed _ _ Himage) as Him.
  all: destruct image as [| | | | | | |im]; [..|destruct Him as [I HI]].
  8,16: destruct (decide (fl = im)) as [->|Hne];
       [assert (I = F) as -> by congruence|].
  all: run Hrun; repeat step.
  all: finish; returned.
  all: eexists _, _, _, _; split; [reflexivity|].
  all: split; [cell|]; split; [known_field|]; split; [cell|].
  all: split; [repeat split; known_field|].
  all: split; [known_field|].
  all: split; [repeat split; known_field|].
  all: split; [intros field Hfield; key_in Hfield; known_field|].
  all: split; [eexists _, _; split; [known_field|]; split; [known_field|];
               split; [bool_value|assumption]|].
  all: split; [left_in_properties|].
  all: split; [keys_of_record|legacy].
Qed.

Lemma image_run self h l (d : dict) ret h' :
  strict_mode self = true → h !! l = Some d → closed h d →
  run (_normalize_image self (VDict l)) h = (Ok ret, h') →
  ∃ r R,
    ret = VDict r ∧ h' !! r = Some R ∧
    R !! "location"
    = Some (_get_current_location self (default VNone (d !! "owner")) VNone) ∧
    (∀ field, field ∈ [ "checksum"; "container_format"; "created_at";
                        "direct_url"; "disk_format"; "file"; "id"; "name";
                        "owner"; "status"; "tags"; "updated_at" ] →
              R !! field = Some (default VNone (d !! field))) ∧
    (∃ min_ram min_disk size virtual_size,
       (R !! "min_ram" = Some (VInt min_ram) ∧
        R !! "min_disk" = Some (VInt min_disk) ∧
        R !! "size" = Some (VInt size) ∧
        R !! "virtual_size" = Some (VInt virtual_size)) ∧
       popped_int (Some (default VNone (d !! "min_ram"))) min_ram ∧
       popped_int (Some (default VNone (d !! "min_disk"))) min_disk ∧
       popped_int (Some (default VNone (d !! "size"))) size ∧
       popped_int (Some (default VNone (d !! "virtual_size"))) virtual_size) ∧
    (∃ b, R !! "is_protected" = Some (VBool b) ∧
          (scalar (d !! "protected") →
           b = to_bool_of (default (VBool false) (d !! "protected")))) ∧
    R !! "locations" = Some (default (VList []) (d !! "locations")) ∧
    (scalar (d !! "visibility") → scalar (d !! "is_public") →
     let visibility := default VNone (d !! "visibility") in
     let is_public := default (VBool false) (d !! "is_public") in
     R !! "visibility"
     = Some (if bool_of visibility then visibility
             else VStr (if bool_of is_public then "public" else "private")) ∧
     R !! "is_public"
     = Some (if bool_of visibility then VBool (py_eq_str visibility "public")
             else is_public)) ∧
    match d !! "properties" with
    | Some properties => R !! "properties" = Some properties
    | None => ∃ p, R !! "properties" = Some (VDict p)
    end ∧
    dom R = list_to_set (canonical_fields Image).
Proof.
  intros Hstrict Hl Hclosed Hrun.
  unfold _normalize_image, image_canonical, _IMAGE_FIELDS in Hrun.
  rewrite Hstrict in Hrun. cbn [negb] in Hrun.
  destruct (d !! "properties") as [properties|] eqn:Hproperties.
  1: pose proof (Hclosed _ _ Hproperties) as Hp;
     destruct (decide (not_a_dict properties)) as [Hnd|Hd];
     [|destruct properties as [| | | | | | |p]; try (by destruct Hd);
       destruct Hp as [P HP]; clear Hd;
       destruct (decide (p = l)) as [->|Hne];
         [assert (P = d) as -> by congruence|]].
  all: run Hrun; repeat step.
  all: finish; returned.
  all: eexists _, _; split; [reflexivity|]; split; [cell|].
  all: split; [known_field|].
  all: split; [intros field Hfield; key_in Hfield; known_field|].
  all: split; [eexists _, _, _, _; split; [repeat split; known_field|];
               repeat split; popped|].
  all: split; [eexists; split; [known_field|bool_value]|].
  all: split; [known_field|].
  all: split; [cbv zeta; intros; truth; split; known_field|].
  all: split; [first [known_field|eexists; known_field]|].
  all: reflexivity.
Qed.

(** ** What the normalizers build: properties read off the code *)

Lemma normalized_mono ret h' (Φ Ψ : dict → dict → Prop) :
  (∀ R P, Φ R P → Ψ R P) → normalized ret h' Φ → normalized ret h' Ψ.
Proof.
  intros HΦ (r & p & R & P & Hret & HR & Hp & HP & H).
  exists r, p, R, P. repeat split; auto.
Qed.

(** [_to_bool] of a string is [True] exactly when the string reads "true"
    whatever the case of its letters: it is [False] for the empty string
    and for every other word, "1" and "yes" included.  The store is not
    touched. *)
Theorem to_bool_of_a_string_is_a_case_blind_test_for_true s (h : heap) :
  run (_to_bool (VStr s)) h = (Ok (String.eqb (lower s) "true"), h).
Proof. apply run_to_bool_string. Qed.

(** [_pop_int] takes the key out of the mapping, whether it returns or
    raises.  It returns an integer: 0 for a key that is absent and for a
    value that is empty or false-like, [int()] of the value otherwise; it
    raises only for a value that is neither false-like nor convertible. *)
Theorem pop_int_takes_the_key_and_gives_an_integer
    c (D : dict) k (h : heap) :
  h !! c = Some D →
  after (_pop_int (VDict c) k) h (λ res h1,
    h1 !! c = Some (delete k D) ∧ only c h h1 ∧
    match res with
    | Ok v => ∃ z, v = VInt z ∧ popped_int (D !! k) z
    | Raise _ => ¬ int_or_zero (D !! k)
    end).
Proof.
  intros Hc. apply (after_pop_int_value c D k h); [done| |]; cbv beta iota.
  - intros z h1 Hz Hcell Hfr. eauto.
  - intros e h1 Hno Hcell Hfr. eauto.
Qed.

(** The list normalizers of the four kinds whose normalizer copies its
    input change no dictionary of the store either, whatever they are
    given and whatever the outcome. *)
Theorem copying_list_normalizers_keep_the_store
    float_of_string self raws h :
  keeps h (run (_normalize_flavors float_of_string self raws) h).2 ∧
  keeps h (run (_normalize_secgroups self raws) h).2 ∧
  keeps h (run (_normalize_secgroup_rules self raws) h).2 ∧
  keeps h (run (_normalize_floating_ips self raws) h).2.
Proof.
  assert (∀ (f : value → M value), (∀ v, frames (f v)) →
            frames (raws ← py_iter raws; ret ← collect raws f;
                    mret (VList ret))) as Hlist.
  { intros f Hf.
    apply frames_bind; [apply frames_reads, reads_iter|]. intros l.
    apply frames_bind; [|intros; apply frames_ret].
    by apply frames_collect. }
  repeat split; apply Hlist; intros v.
  - apply frames_flavor.
  - apply frames_secgroup.
  - apply frames_secgroup_rule.
  - apply frames_floating_ip.
Qed.

(** A list normalizer returns the records that its normalizer returns for
    the elements of the list, in the order of the list, each run from the
    store that the run before it left; it raises what the normalizer
    raises for the first element that fails, after the runs for the
    elements before it. *)
Theorem list_normalizer_runs_the_normalizer_in_order
    float_of_string self kind (l : list value) (h : heap) :
  (∀ ret h',
     run (list_normalizer float_of_string self kind (VList l)) h = (Ok ret, h')
     ↔ ∃ rs, ret = VList rs ∧
             collected (normalizer float_of_string self kind) h l rs h') ∧
  (∀ e h',
     run (list_normalizer float_of_string self kind (VList l)) h
     = (Raise e, h')
     ↔ ∃ pre raw post rs h1,
         l = (pre ++ raw :: post)%list ∧
         collected (normalizer float_of_string self kind) h pre rs h1 ∧
         run (normalizer float_of_string self kind raw) h1 = (Raise e, h')).
Proof.
  split; intros; rewrite run_list_normalizer, run_fmap.
  - destruct (run (collect l _) h) as [[rs|e] h1] eqn:Hl.
    + apply run_collect in Hl. split.
      * intros [= <- <-]. eauto.
      * intros (rs' & -> & Hrs'). apply run_collect in Hl, Hrs'.
        rewrite Hl in Hrs'. by injection Hrs' as -> ->.
    + split; [done|]. intros (rs' & -> & Hrs'). apply run_collect in Hrs'.
      by rewrite Hl in Hrs'.
  - rewrite <- run_collect_raise.
    destruct (run (collect l _) h) as [[rs|e'] h1]; split; congruence.
Qed.

(** A list normalizer returns as many records as the list has elements. *)
Theorem list_normalizer_keeps_the_length
    float_of_string self kind (l : list value) (h : heap) ret h' :
  run (list_normalizer float_of_string self kind (VList l)) h = (Ok ret, h') →
  ∃ rs, ret = VList rs ∧ length rs = length l.
Proof.
  rewrite run_list_normalizer, run_fmap.
  destruct (run (collect l _) h) as [[rs|e] h1] eqn:Hl; [|done].
  intros [= <- <-]. exists rs. split; [done|].
  apply run_collect in Hl. by apply collected_length in Hl.
Qed.

(** A normalizer given a value that is not a mapping raises: an
    [AttributeError] from the image normalizer, and from the others the
    error of [copy] and [pop] on that value ([TypeError] for a list,
    [AttributeError] otherwise). *)
Theorem normalizer_rejects_what_is_not_a_mapping
    float_of_string self kind raw (h : heap) :
  not_a_dict raw →
  raised (run (normalizer float_of_string self kind raw) h)
  = Some (not_a_record_error kind raw).
Proof. intros Hraw. destruct kind, raw; done. Qed.

(** The [properties] of the record returned by the flavor, security group,
    rule, server and floating IP normalizers are exactly the fields of the
    raw record that the normalizer did not take: each with its raw value,
    and none of the fields taken.  [port_range_min] of a rule is read and
    not taken, so it stays among the properties. *)
Theorem properties_are_the_fields_not_taken
    float_of_string self kind (h : heap) l (d : dict) ret h' :
  kind ≠ Image →
  h !! l = Some d → closed h d →
  run (normalizer float_of_string self kind (VDict l)) h = (Ok ret, h') →
  normalized ret h' (λ R P,
    ∀ k, P !! k = if decide (k ∈ taken self kind) then None else d !! k).
Proof.
  intros Hkind Hl Hclosed Hrun. destruct kind; [|done|..];
    cbn [normalizer] in Hrun.
  - eapply normalized_mono; [|by apply (flavor_run float_of_string self h l d)].
    cbv beta. tauto.
  - eapply normalized_mono; [|by apply (secgroup_run self h l d)].
    cbv beta. tauto.
  - eapply normalized_mono; [|by apply (secgroup_rule_run self h l d)].
    cbv beta. tauto.
  - eapply normalized_mono; [|by apply (server_run self h l d)].
    cbv beta. tauto.
  - eapply normalized_mono; [|by apply (floating_ip_run self h l d)].
    cbv beta. tauto.
Qed.

(** In strict mode the record that a normalizer returns has the canonical
    fields of its kind and no other key: no legacy alias and no duplicated
    property. *)
Theorem strict_record_has_the_canonical_fields_only
    float_of_string self kind (h : heap) l (d : dict) ret h' :
  strict_mode self = true →
  h !! l = Some d → closed h d →
  run (normalizer float_of_string self kind (VDict l)) h = (Ok ret, h') →
  ∃ r R, ret = VDict r ∧ h' !! r = Some R ∧
         dom R = list_to_set (canonical_fields kind).
Proof.
  intros Hstrict Hl Hclosed Hrun. destruct kind; cbn [normalizer] in Hrun.
  - destruct (flavor_run float_of_string self h l d ret h' Hl Hrun)
      as (r & p & R & P & -> & HR & _ & _ & H). exists r, R.
    split; [done|]. split; [done|]. by apply H.
  - destruct (image_run self h l d ret h' Hstrict Hl Hclosed Hrun)
      as (r & R & -> & HR & H). exists r, R.
    split; [done|]. split; [done|]. apply H.
  - destruct (secgroup_run self h l d ret h' Hl Hrun)
      as (r & p & R & P & -> & HR & _ & _ & H). exists r, R.
    split; [done|]. split; [done|]. by apply H.
  - destruct (secgroup_rule_run self h l d ret h' Hl Hclosed Hrun)
      as (r & p & R & P & -> & HR & _ & _ & H). exists r, R.
    split; [done|]. split; [done|]. by apply H.
  - destruct (server_run self h l d ret h' Hl Hclosed Hrun)
      as (r & p & R & P & -> & HR & _ & _ & H). exists r, R.
    split; [done|]. split; [done|]. by apply H.
  - destruct (floating_ip_run self h l d ret h' Hl Hrun)
      as (r & p & R & P & -> & HR & _ & _ & H). exists r, R.
    split; [done|]. split; [done|]. by apply H.
Qed.

(** The location of a security group, rule, server or floating IP is
    resolved from the project of the raw record, its [project_id], else its
    [tenant_id], else the empty string (and from the availability zone of
    a server).  With strict mode disabled, [project_id] and [tenant_id] of
    the record both hold that project. *)
Theorem location_and_project_of_owned_records
    float_of_string self kind (h : heap) l (d : dict) ret h' :
  owned kind = true →
  h !! l = Some d → closed h d →
  run (normalizer float_of_string self kind (VDict l)) h = (Ok ret, h') →
  normalized ret h' (λ R _,
    R !! "location"
    = Some (_get_current_location self (project_of d) (zone_of kind d)) ∧
    (strict_mode self = false →
     R !! "project_id" = Some (project_of d) ∧
     R !! "tenant_id" = Some (project_of d))).
Proof.
  intros Hkind Hl Hclosed Hrun. destruct kind; try done;
    cbn [normalizer zone_of] in *.
  - eapply normalized_mono; [|by apply (secgroup_run self h l d)].
    cbv beta. tauto.
  - eapply normalized_mono; [|by apply (secgroup_rule_run self h l d)].
    cbv beta. tauto.
  - eapply normalized_mono; [|by apply (server_run self h l d)].
    cbv beta. tauto.
  - eapply normalized_mono; [|by apply (floating_ip_run self h l d)].
    cbv beta. tauto.
Qed.

(** The fields of a canonical rule: [direction] defaults to "ingress" and
    [ethertype] to "IPv4"; [protocol] is the raw [protocol], else
    [ip_protocol]; [security_group_id] is the raw one, else
    [parent_group_id]; [remote_ip_prefix] is the raw one, else the [cidr]
    of [ip_range]; what is absent is [None]. *)
Theorem secgroup_rule_defaults_and_precedence
    self (h : heap) l (d : dict) ret h' :
  h !! l = Some d → closed h d →
  run (_normalize_secgroup_rule self (VDict l)) h = (Ok ret, h') →
  normalized ret h' (λ R _,
    R !! "id" = d !! "id" ∧
    R !! "direction" = Some (default (VStr "ingress") (d !! "direction")) ∧
    R !! "ethertype" = Some (default (VStr "IPv4") (d !! "ethertype")) ∧
    R !! "protocol"
    = Some (default (default VNone (d !! "ip_protocol")) (d !! "protocol")) ∧
    R !! "remote_ip_prefix"
    = Some (default (cidr_of h d) (d !! "remote_ip_prefix")) ∧
    R !! "security_group_id"
    = Some (default (default VNone (d !! "parent_group_id"))
              (d !! "security_group_id")) ∧
    R !! "remote_group_id" = Some (default VNone (d !! "remote_group_id"))).
Proof.
  intros Hl Hclosed Hrun.
  eapply normalized_mono; [|by apply (secgroup_rule_run self h l d)].
  cbv beta. tauto.
Qed.

(** A canonical security group has the [id], [name] and [description] of
    the raw one, and one canonical rule for each raw rule, the raw rules
    being those under [security_group_rules], else those under [rules],
    else none. *)
Theorem secgroup_has_a_rule_for_each_raw_rule
    self (h : heap) l (d : dict) ret h' :
  h !! l = Some d →
  run (_normalize_secgroup self (VDict l)) h = (Ok ret, h') →
  normalized ret h' (λ R _,
    (R !! "id" = d !! "id" ∧ R !! "name" = d !! "name" ∧
     R !! "description" = d !! "description") ∧
    ∃ rs, R !! "security_group_rules" = Some (VList rs) ∧
          ∀ rules, raw_rules d = VList rules → length rs = length rules).
Proof.
  intros Hl Hrun.
  eapply normalized_mono; [|by apply (secgroup_run self h l d)].
  cbv beta. tauto.
Qed.

(** The fields of a canonical floating IP: [fixed_ip_address] is the raw
    one, else [fixed_ip]; [floating_ip_address] the raw one, else [ip];
    [network] is [floating_network_id], else [network], else [pool];
    [port] and [router] are [port_id] and [router_id]; what is absent is
    [None]. *)
Theorem floating_ip_fields_and_their_precedence
    self (h : heap) l (d : dict) ret h' :
  h !! l = Some d →
  run (_normalize_floating_ip self (VDict l)) h = (Ok ret, h') →
  normalized ret h' (λ R _,
    R !! "id" = d !! "id" ∧
    R !! "fixed_ip_address"
    = Some (default (default VNone (d !! "fixed_ip"))
              (d !! "fixed_ip_address")) ∧
    R !! "floating_ip_address"
    = Some (default (default VNone (d !! "ip"))
              (d !! "floating_ip_address")) ∧
    R !! "network" = Some (network_of d) ∧
    R !! "port" = Some (default VNone (d !! "port_id")) ∧
    R !! "router" = Some (default VNone (d !! "router_id"))).
Proof.
  intros Hl Hrun.
  eapply normalized_mono; [|by apply (floating_ip_run self h l d)].
  cbv beta. tauto.
Qed.

(** Whether a floating IP is attached, and its status, depend on the
    backend: with neutron it is attached when it has a non-empty
    [port_id] and its status is the raw one, else "UNKNOWN"; with nova it
    is attached when it has a non-empty [instance_id] and its status is
    "ACTIVE" whatever the raw record says. *)
Theorem floating_ip_attachment_and_status_by_backend
    self (h : heap) l (d : dict) ret h' :
  h !! l = Some d →
  run (_normalize_floating_ip self (VDict l)) h = (Ok ret, h') →
  normalized ret h' (λ R _,
    (∃ b, R !! "attached" = Some (VBool b) ∧
          (not_a_dict (attachment self d) →
           b = bool_of (attachment self d))) ∧
    R !! "status"
    = Some (if _use_neutron_floating self
            then default (VStr "UNKNOWN") (d !! "status")
            else VStr "ACTIVE")).
Proof.
  intros Hl Hrun.
  eapply normalized_mono; [|by apply (floating_ip_run self h l d)].
  cbv beta. tauto.
Qed.

(** With strict mode disabled, the legacy aliases of a floating IP repeat
    its canonical fields, [port_id] for [port] and [router_id] for
    [router], but [floating_network_id] holds a tuple of one element, the
    [network], and not the network itself. *)
Theorem floating_ip_legacy_network_is_a_one_tuple
    self (h : heap) l (d : dict) ret h' :
  strict_mode self = false →
  h !! l = Some d →
  run (_normalize_floating_ip self (VDict l)) h = (Ok ret, h') →
  normalized ret h' (λ R _,
    R !! "port_id" = R !! "port" ∧
    R !! "router_id" = R !! "router" ∧
    ∃ network, R !! "network" = Some network ∧
               R !! "floating_network_id" = Some (VTuple [network])).
Proof.
  intros Hstrict Hl Hrun.
  eapply normalized_mono; [|by apply (floating_ip_run self h l d)].
  cbv beta. intros R P ((_ & _ & _ & Hnet & Hport & Hrouter) & _ & _ & _ & _
                        & _ & Hlegacy).
  destruct (Hlegacy Hstrict) as (Hport_id & Hrouter_id & _ & _ & Htuple).
  split; [congruence|]. split; [congruence|]. eauto.
Qed.

(** The flags of a canonical flavor are booleans.  [is_public] is the raw
    [is_public], else what [os-flavor-access:is_public] says, else [True];
    [is_disabled] is what [OS-FLV-DISABLED:disabled] says, else [False];
    each read by [_to_bool]. *)
Theorem flavor_flags_are_booleans
    float_of_string self (h : heap) l (d : dict) ret h' :
  h !! l = Some d →
  run (_normalize_flavor float_of_string self (VDict l)) h = (Ok ret, h') →
  normalized ret h' (λ R _,
    ∃ b b',
      R !! "is_public" = Some (VBool b) ∧
      R !! "is_disabled" = Some (VBool b') ∧
      (scalar (d !! "os-flavor-access:is_public") →
       scalar (d !! "is_public") → b = flavor_is_public d) ∧
      (scalar (d !! "OS-FLV-DISABLED:disabled") →
       b' = to_bool_of
              (default (VBool false) (d !! "OS-FLV-DISABLED:disabled")))).
Proof.
  intros Hl Hrun.
  eapply normalized_mono;
    [|by apply (flavor_run float_of_string self h l d)].
  cbv beta. tauto.
Qed.

(** The sizes of a canonical flavor: [ram], [vcpus], [disk] and [swap] are
    integers, 0 for a field that is absent or empty and [int()] of it
    otherwise; [rxtx_factor] is a float; [ephemeral] is the raw [ephemeral]
    as it is, else the integer of [OS-FLV-EXT-DATA:ephemeral], else 0. *)
Theorem flavor_sizes_are_numbers
    float_of_string self (h : heap) l (d : dict) ret h' :
  h !! l = Some d →
  run (_normalize_flavor float_of_string self (VDict l)) h = (Ok ret, h') →
  normalized ret h' (λ R _,
    (∃ ram vcpus disk swap,
       (R !! "ram" = Some (VInt ram) ∧ R !! "vcpus" = Some (VInt vcpus) ∧
        R !! "disk" = Some (VInt disk) ∧ R !! "swap" = Some (VInt swap)) ∧
       popped_int (d !! "ram") ram ∧ popped_int (d !! "vcpus") vcpus ∧
       popped_int (d !! "disk") disk ∧ popped_int (d !! "swap") swap) ∧
    (∃ e, py_int (default (VInt 0) (d !! "OS-FLV-EXT-DATA:ephemeral")) = Ok e ∧
          R !! "ephemeral" = Some (default (VInt e) (d !! "ephemeral"))) ∧
    (∃ f, R !! "rxtx_factor" = Some (VFloat f))).
Proof.
  intros Hl Hrun.
  eapply normalized_mono;
    [|by apply (flavor_run float_of_string self h l d)].
  cbv beta. tauto.
Qed.

(** The fields of a canonical server that come from keys with a vendor
    prefix hold the raw value under the full key, in strict mode and
    without it: [volumes] (an empty list when absent), [disk_config],
    [power_state], [task_state], [vm_state], [launched_at] and
    [terminated_at] ([None] when absent); [host_id] is the raw [hostId],
    and [interface_ip] is always empty. *)
Theorem server_fields_from_vendor_keys
    self (h : heap) l (d : dict) ret h' :
  h !! l = Some d → closed h d →
  run (_normalize_server self (VDict l)) h = (Ok ret, h') →
  normalized ret h' (λ R _,
    R !! "volumes"
    = Some (default (VList []) (d !! "os-extended-volumes:volumes_attached")) ∧
    R !! "host_id" = Some (default VNone (d !! "hostId")) ∧
    R !! "disk_config" = Some (default VNone (d !! "OS-DCF:diskConfig")) ∧
    R !! "power_state" = Some (default VNone (d !! "OS-EXT-STS:power_state")) ∧
    R !! "task_state" = Some (default VNone (d !! "OS-EXT-STS:task_state")) ∧
    R !! "vm_state" = Some (default VNone (d !! "OS-EXT-STS:vm_state")) ∧
    R !! "launched_at"
    = Some (default VNone (d !! "OS-SRV-USG:launched_at")) ∧
    R !! "terminated_at"
    = Some (default VNone (d !! "OS-SRV-USG:terminated_at")) ∧
    R !! "interface_ip" = Some (VStr "")).
Proof.
  intros Hl Hclosed Hrun.
  eapply normalized_mono; [|by apply (server_run self h l d)].
  cbv beta. tauto.
Qed.

(** A canonical server has the [id], [name], [flavor] and [image] of the
    raw one, every field of [_SERVER_FIELDS] with its raw value, [None]
    when the raw record lacks it, a boolean [has_config_drive] read by
    [_to_bool] from [config_drive], and an integer [progress], 0 when
    absent or empty. *)
Theorem server_fields_and_their_defaults
    self (h : heap) l (d : dict) ret h' :
  h !! l = Some d → closed h d →
  run (_normalize_server self (VDict l)) h = (Ok ret, h') →
  normalized ret h' (λ R _,
    (R !! "id" = d !! "id" ∧ R !! "name" = d !! "name" ∧
     R !! "flavor" = d !! "flavor" ∧ R !! "image" = d !! "image") ∧
    (∀ field, field ∈ _SERVER_FIELDS →
              R !! field = Some (default VNone (d !! field))) ∧
    ∃ b z,
      R !! "has_config_drive" = Some (VBool b) ∧
      R !! "progress" = Some (VInt z) ∧
      (scalar (d !! "config_drive") →
       b = to_bool_of (default (VBool false) (d !! "config_drive"))) ∧
      popped_int (d !! "progress") z).
Proof.
  intros Hl Hclosed Hrun.
  eapply normalized_mono; [|by apply (server_run self h l d)].
  cbv beta. tauto.
Qed.

(** With strict mode disabled, the legacy aliases of a server are set from
    the raw record and the cloud: [hostId] repeats [host_id],
    [config_drive] is the raw value that [has_config_drive] was read from
    ([False] when absent), [az] is the availability zone, and [region] and
    [cloud] name the cloud, whatever the raw record holds under these
    names. *)
Theorem server_legacy_aliases
    self (h : heap) l (d : dict) ret h' :
  strict_mode self = false →
  h !! l = Some d → closed h d →
  run (_normalize_server self (VDict l)) h = (Ok ret, h') →
  normalized ret h' (λ R _,
    R !! "hostId" = R !! "host_id" ∧
    R !! "config_drive" = Some (default (VBool false) (d !! "config_drive")) ∧
    R !! "az" = Some (default VNone (d !! "OS-EXT-AZ:availability_zone")) ∧
    R !! "region" = Some (region_name self) ∧
    R !! "cloud" = Some (cloud_name self)).
Proof.
  intros Hstrict Hl Hclosed Hrun.
  eapply normalized_mono; [|by apply (server_run self h l d)].
  cbv beta. intros R P (_ & _ & (_ & Hhost & _) & _ & _ & _ & _ & Hlegacy).
  destruct (Hlegacy Hstrict) as (HhostId & Hdrive & _ & _ & Hregion & Hcloud
                                 & Haz).
  split; [congruence|]. done.
Qed.

(** In strict mode, the visibility of a canonical image and its
    [is_public] agree: a non-empty raw [visibility] is kept and [is_public]
    tells whether it is "public"; otherwise [is_public] is the raw
    [is_public] as it is ([False] when absent) and [visibility] is
    "public" or "private" accordingly. *)
Theorem image_visibility_and_is_public
    self (h : heap) l (d : dict) ret h' :
  strict_mode self = true →
  h !! l = Some d → closed h d →
  run (_normalize_image self (VDict l)) h = (Ok ret, h') →
  scalar (d !! "visibility") → scalar (d !! "is_public") →
  ∃ r R, ret = VDict r ∧ h' !! r = Some R ∧
    let visibility := default VNone (d !! "visibility") in
    let is_public := default (VBool false) (d !! "is_public") in
    R !! "visibility"
    = Some (if bool_of visibility then visibility
            else VStr (if bool_of is_public then "public" else "private")) ∧
    R !! "is_public"
    = Some (if bool_of visibility then VBool (py_eq_str visibility "public")
            else is_public).
Proof.
  intros Hstrict Hl Hclosed Hrun Hvisibility Hpublic.
  destruct (image_run self h l d ret h' Hstrict Hl Hclosed Hrun)
    as (r & R & -> & HR & _ & _ & _ & _ & _ & H & _).
  exists r, R. split; [done|]. split; [done|]. by apply H.
Qed.

(** In strict mode, a canonical image has its sixteen image fields from the
    raw record, [None] when absent, with [min_ram], [min_disk], [size] and
    [virtual_size] turned into integers (0 when absent or empty), a
    boolean [is_protected] read by [_to_bool] from [protected], and the
    [locations] of the raw record, an empty list when absent. *)
Theorem image_fields_and_their_defaults
    self (h : heap) l (d : dict) ret h' :
  strict_mode self = true →
  h !! l = Some d → closed h d →
  run (_normalize_image self (VDict l)) h = (Ok ret, h') →
  ∃ r R, ret = VDict r ∧ h' !! r = Some R ∧
    (∀ field, field ∈ [ "checksum"; "container_format"; "created_at";
                        "direct_url"; "disk_format"; "file"; "id"; "name";
                        "owner"; "status"; "tags"; "updated_at" ] →
              R !! field = Some (default VNone (d !! field))) ∧
    (∃ min_ram min_disk size virtual_size,
       (R !! "min_ram" = Some (VInt min_ram) ∧
        R !! "min_disk" = Some (VInt min_disk) ∧
        R !! "size" = Some (VInt size) ∧
        R !! "virtual_size" = Some (VInt virtual_size)) ∧
       popped_int (Some (default VNone (d !! "min_ram"))) min_ram ∧
       popped_int (Some (default VNone (d !! "min_disk"))) min_disk ∧
       popped_int (Some (default VNone (d !! "size"))) size ∧
       popped_int (Some (default VNone (d !! "virtual_size"))) virtual_size) ∧
    (∃ b, R !! "is_protected" = Some (VBool b) ∧
          (scalar (d !! "protected") →
           b = to_bool_of (default (VBool false) (d !! "protected")))) ∧
    R !! "locations" = Some (default (VList []) (d !! "locations")).
Proof.
  intros Hstrict Hl Hclosed Hrun.
  destruct (image_run self h l d ret h' Hstrict Hl Hclosed Hrun)
    as (r & R & -> & HR & _ & Hfields & Hints & Hprotected & Hlocations & _).
  exists r, R. done.
Qed.

(** In strict mode, the location of a canonical image is resolved from the
    [owner] of the raw image, and its [properties] are the very mapping
    that the raw image has under [properties], not a copy of it; a new
    mapping only when the raw image has none. *)
Theorem image_location_and_properties_object
    self (h : heap) l (d : dict) ret h' :
  strict_mode self = true →
  h !! l = Some d → closed h d →
  run (_normalize_image self (VDict l)) h = (Ok ret, h') →
  ∃ r R, ret = VDict r ∧ h' !! r = Some R ∧
    R !! "location"
    = Some (_get_current_location self (default VNone (d !! "owner")) VNone) ∧
    match d !! "properties" with
    | Some properties => R !! "properties" = Some properties
    | None => ∃ p, R !! "properties" = Some (VDict p)
    end.
Proof.
  intros Hstrict Hl Hclosed Hrun.
  destruct (image_run self h l d ret h' Hstrict Hl Hclosed Hrun)
    as (r & R & -> & HR & Hlocation & _ & _ & _ & _ & _ & Hproperties & _).
  exists r, R. done.
Qed.

(** ** The properties above on example records *)

Lemma pop_int_takes_the_key_and_gives_an_integer_witness :
  let D := dict_of nova_flavor in
  after (_pop_int (VDict 0%nat) "swap") (store_of [D]) (λ res h1,
    h1 !! 0%nat = Some (delete "swap" D) ∧ only 0%nat (store_of [D]) h1 ∧
    match res with
    | Ok v => ∃ z, v = VInt z ∧ popped_int (D !! "swap") z
    | Raise _ => ¬ int_or_zero (D !! "swap")
    end).
Proof.
  cbv zeta.
  apply (pop_int_takes_the_key_and_gives_an_integer 0%nat
           (dict_of nova_flavor) "swap" (store_of [dict_of nova_flavor])).
  reflexivity.
Defined.

Lemma list_normalizer_keeps_the_length_witness :
  let h := store_of [nova_rule_unbounded] in
  ∃ ret h',
    run (list_normalizer no_float (example_cloud true) SecGroupRule
           (VList [VDict 0%nat; VDict 0%nat])) h = (Ok ret, h') ∧
    ∃ rs, ret = VList rs ∧ length rs = 2%nat.
Proof.
  cbv zeta. eexists _, _.
  split; [apply run_result; vm_compute; reflexivity|].
  eapply (list_normalizer_keeps_the_length no_float (example_cloud true)
           SecGroupRule [VDict 0%nat; VDict 0%nat]
           (store_of [nova_rule_unbounded])).
  apply run_result. vm_compute. reflexivity.
Defined.

Lemma normalizer_rejects_what_is_not_a_mapping_witness :
  raised (run (normalizer no_float (example_cloud false) Server
                 (VStr "srv-1")) (store_of []))
  = Some AttributeError.
Proof.
  apply (normalizer_rejects_what_is_not_a_mapping no_float
           (example_cloud false) Server (VStr "srv-1") (store_of [])).
  exact I.
Defined.

Lemma properties_are_the_fields_not_taken_witness :
  let self := example_cloud true in
  let d := dict_of nova_flavor in
  let h := store_of [d] in
  ∃ ret h',
    run (normalizer no_float self Flavor (VDict 0%nat)) h = (Ok ret, h') ∧
    normalized ret h' (λ R P,
      ∀ k, P !! k = if decide (k ∈ taken self Flavor) then None else d !! k).
Proof.
  cbv zeta. eexists _, _.
  split; [apply run_result; vm_compute; reflexivity|].
  apply (properties_are_the_fields_not_taken no_float (example_cloud true)
           Flavor (store_of [dict_of nova_flavor]) 0%nat
           (dict_of nova_flavor)).
  - discriminate.
  - reflexivity.
  - apply closed_dict_of. repeat constructor.
  - apply run_result. vm_compute. reflexivity.
Defined.

Lemma strict_record_has_the_canonical_fields_only_witness :
  let self := example_cloud true in
  let h := store_of [dict_of glance_image; dict_of glance_properties] in
  ∃ ret h',
    run (normalizer no_float self Image (VDict 0%nat)) h = (Ok ret, h') ∧
    ∃ r R, ret = VDict r ∧ h' !! r = Some R ∧
           dom R = list_to_set (canonical_fields Image).
Proof.
  cbv zeta. eexists _, _.
  split; [apply run_result; vm_compute; reflexivity|].
  apply (strict_record_has_the_canonical_fields_only no_float
           (example_cloud true) Image
           (store_of [dict_of glance_image; dict_of glance_properties])
           0%nat (dict_of glance_image)).
  - reflexivity.
  - reflexivity.
  - apply closed_dict_of. repeat constructor. eexists. reflexivity.
  - apply run_result. vm_compute. reflexivity.
Defined.

Lemma location_and_project_of_owned_records_witness :
  let self := example_cloud false in
  let d := dict_of nova_secgroup in
  let h := store_of [d; nova_rule_unbounded] in
  ∃ ret h',
    run (normalizer no_float self SecGroup (VDict 0%nat)) h = (Ok ret, h') ∧
    normalized ret h' (λ R _,
      R !! "location"
      = Some (_get_current_location self (project_of d) (zone_of SecGroup d)) ∧
      (strict_mode self = false →
       R !! "project_id" = Some (project_of d) ∧
       R !! "tenant_id" = Some (project_of d))).
Proof.
  cbv zeta. eexists _, _.
  split; [apply run_result; vm_compute; reflexivity|].
  apply (location_and_project_of_owned_records no_float (example_cloud false)
           SecGroup (store_of [dict_of nova_secgroup; nova_rule_unbounded])
           0%nat (dict_of nova_secgroup)).
  - reflexivity.
  - reflexivity.
  - apply closed_dict_of. repeat constructor.
  - apply run_result. vm_compute. reflexivity.
Defined.

Lemma secgroup_rule_defaults_and_precedence_witness :
  let self := example_cloud true in
  let d := dict_of nova_rule_with_range in
  let h := store_of [d; dict_of ip_range_any] in
  ∃ ret h',
    run (_normalize_secgroup_rule self (VDict 0%nat)) h = (Ok ret, h') ∧
    normalized ret h' (λ R _,
      R !! "id" = d !! "id" ∧
      R !! "direction" = Some (default (VStr "ingress") (d !! "direction")) ∧
      R !! "ethertype" = Some (default (VStr "IPv4") (d !! "ethertype")) ∧
      R !! "protocol"
      = Some (default (default VNone (d !! "ip_protocol")) (d !! "protocol")) ∧
      R !! "remote_ip_prefix"
      = Some (default (cidr_of h d) (d !! "remote_ip_prefix")) ∧
      R !! "security_group_id"
      = Some (default (default VNone (d !! "parent_group_id"))
                (d !! "security_group_id")) ∧
      R !! "remote_group_id" = Some (default VNone (d !! "remote_group_id"))).
Proof.
  cbv zeta. eexists _, _.
  split; [apply run_result; vm_compute; reflexivity|].
  apply (secgroup_rule_defaults_and_precedence (example_cloud true)
           (store_of [dict_of nova_rule_with_range; dict_of ip_range_any])
           0%nat (dict_of nova_rule_with_range)).
  - reflexivity.
  - apply closed_dict_of. repeat constructor. eexists. reflexivity.
  - apply run_result. vm_compute. reflexivity.
Defined.

Lemma secgroup_has_a_rule_for_each_raw_rule_witness :
  let self := example_cloud true in
  let d := dict_of nova_secgroup in
  let h := store_of [d; nova_rule_unbounded] in
  ∃ ret h',
    run (_normalize_secgroup self (VDict 0%nat)) h = (Ok ret, h') ∧
    normalized ret h' (λ R _,
      (R !! "id" = d !! "id" ∧ R !! "name" = d !! "name" ∧
       R !! "description" = d !! "description") ∧
      ∃ rs, R !! "security_group_rules" = Some (VList rs) ∧
            ∀ rules, raw_rules d = VList rules → length rs = length rules).
Proof.
  cbv zeta. eexists _, _.
  split; [apply run_result; vm_compute; reflexivity|].
  apply (secgroup_has_a_rule_for_each_raw_rule (example_cloud true)
           (store_of [dict_of nova_secgroup; nova_rule_unbounded])
           0%nat (dict_of nova_secgroup)).
  - reflexivity.
  - apply run_result. vm_compute. reflexivity.
Defined.

Lemma floating_ip_fields_and_their_precedence_witness :
  let self := example_cloud true in
  let d := dict_of neutron_floating_ip in
  let h := store_of [d] in
  ∃ ret h',
    run (_normalize_floating_ip self (VDict 0%nat)) h = (Ok ret, h') ∧
    normalized ret h' (λ R _,
      R !! "id" = d !! "id" ∧
      R !! "fixed_ip_address"
      = Some (default (default VNone (d !! "fixed_ip"))
                (d !! "fixed_ip_address")) ∧
      R !! "floating_ip_address"
      = Some (default (default VNone (d !! "ip"))
                (d !! "floating_ip_address")) ∧
      R !! "network" = Some (network_of d) ∧
      R !! "port" = Some (default VNone (d !! "port_id")) ∧
      R !! "router" = Some (default VNone (d !! "router_id"))).
Proof.
  cbv zeta. eexists _, _.
  split; [apply run_result; vm_compute; reflexivity|].
  apply (floating_ip_fields_and_their_precedence (example_cloud true)
           (store_of [dict_of neutron_floating_ip])
           0%nat (dict_of neutron_floating_ip)).
  - reflexivity.
  - apply run_result. vm_compute. reflexivity.
Defined.

Lemma floating_ip_attachment_and_status_by_backend_witness :
  let self := example_cloud true in
  let d := dict_of neutron_floating_ip in
  let h := store_of [d] in
  ∃ ret h',
    run (_normalize_floating_ip self (VDict 0%nat)) h = (Ok ret, h') ∧
    normalized ret h' (λ R _,
      (∃ b, R !! "attached" = Some (VBool b) ∧
            (not_a_dict (attachment self d) →
             b = bool_of (attachment self d))) ∧
      R !! "status"
      = Some (if _use_neutron_floating self
              then default (VStr "UNKNOWN") (d !! "status")
              else VStr "ACTIVE")).
Proof.
  cbv zeta. eexists _, _.
  split; [apply run_result; vm_compute; reflexivity|].
  apply (floating_ip_attachment_and_status_by_backend (example_cloud true)
           (store_of [dict_of neutron_floating_ip])
           0%nat (dict_of neutron_floating_ip)).
  - reflexivity.
  - apply run_result. vm_compute. reflexivity.
Defined.

Lemma floating_ip_legacy_network_is_a_one_tuple_witness :
  let self := example_cloud false in
  let d := dict_of neutron_floating_ip in
  let h := store_of [d] in
  ∃ ret h',
    run (_normalize_floating_ip self (VDict 0%nat)) h = (Ok ret, h') ∧
    normalized ret h' (λ R _,
      R !! "port_id" = R !! "port" ∧
      R !! "router_id" = R !! "router" ∧
      ∃ network, R !! "network" = Some network ∧
                 R !! "floating_network_id" = Some (VTuple [network])).
Proof.
  cbv zeta. eexists _, _.
  split; [apply run_result; vm_compute; reflexivity|].
  apply (floating_ip_legacy_network_is_a_one_tuple (example_cloud false)
           (store_of [dict_of neutron_floating_ip])
           0%nat (dict_of neutron_floating_ip)).
  - reflexivity.
  - reflexivity.
  - apply run_result. vm_compute. reflexivity.
Defined.

Lemma flavor_flags_are_booleans_witness :
  let self := example_cloud false in
  let d := dict_of nova_flavor in
  let h := store_of [d] in
  ∃ ret h',
    run (_normalize_flavor no_float self (VDict 0%nat)) h = (Ok ret, h') ∧
    normalized ret h' (λ R _,
      ∃ b b',
        R !! "is_public" = Some (VBool b) ∧
        R !! "is_disabled" = Some (VBool b') ∧
        (scalar (d !! "os-flavor-access:is_public") →
         scalar (d !! "is_public") → b = flavor_is_public d) ∧
        (scalar (d !! "OS-FLV-DISABLED:disabled") →
         b' = to_bool_of
                (default (VBool false) (d !! "OS-FLV-DISABLED:disabled")))).
Proof.
  cbv zeta. eexists _, _.
  split; [apply run_result; vm_compute; reflexivity|].
  apply (flavor_flags_are_booleans no_float (example_cloud false)
           (store_of [dict_of nova_flavor]) 0%nat (dict_of nova_flavor)).
  - reflexivity.
  - apply run_result. vm_compute. reflexivity.
Defined.

Lemma flavor_sizes_are_numbers_witness :
  let self := example_cloud true in
  let d := dict_of nova_flavor in
  let h := store_of [d] in
  ∃ ret h',
    run (_normalize_flavor no_float self (VDict 0%nat)) h = (Ok ret, h') ∧
    normalized ret h' (λ R _,
      (∃ ram vcpus disk swap,
         (R !! "ram" = Some (VInt ram) ∧ R !! "vcpus" = Some (VInt vcpus) ∧
          R !! "disk" = Some (VInt disk) ∧ R !! "swap" = Some (VInt swap)) ∧
         popped_int (d !! "ram") ram ∧ popped_int (d !! "vcpus") vcpus ∧
         popped_int (d !! "disk") disk ∧ popped_int (d !! "swap") swap) ∧
      (∃ e, py_int (default (VInt 0) (d !! "OS-FLV-EXT-DATA:ephemeral"))
            = Ok e ∧
            R !! "ephemeral" = Some (default (VInt e) (d !! "ephemeral"))) ∧
      (∃ f, R !! "rxtx_factor" = Some (VFloat f))).
Proof.
  cbv zeta. eexists _, _.
  split; [apply run_result; vm_compute; reflexivity|].
  apply (flavor_sizes_are_numbers no_float (example_cloud true)
           (store_of [dict_of nova_flavor]) 0%nat (dict_of nova_flavor)).
  - reflexivity.
  - apply run_result. vm_compute. reflexivity.
Defined.

Lemma server_fields_from_vendor_keys_witness :
  let self := example_cloud true in
  let d := dict_of vendor_server in
  let h := store_of [d; nova_flavor_ref] in
  ∃ ret h',
    run (_normalize_server self (VDict 0%nat)) h = (Ok ret, h') ∧
    normalized ret h' (λ R _,
      R !! "volumes"
      = Some (default (VList [])
                (d !! "os-extended-volumes:volumes_attached")) ∧
      R !! "host_id" = Some (default VNone (d !! "hostId")) ∧
      R !! "disk_config" = Some (default VNone (d !! "OS-DCF:diskConfig")) ∧
      R !! "power_state"
      = Some (default VNone (d !! "OS-EXT-STS:power_state")) ∧
      R !! "task_state" = Some (default VNone (d !! "OS-EXT-STS:task_state")) ∧
      R !! "vm_state" = Some (default VNone (d !! "OS-EXT-STS:vm_state")) ∧
      R !! "launched_at"
      = Some (default VNone (d !! "OS-SRV-USG:launched_at")) ∧
      R !! "terminated_at"
      = Some (default VNone (d !! "OS-SRV-USG:terminated_at")) ∧
      R !! "interface_ip" = Some (VStr "")).
Proof.
  cbv zeta. eexists _, _.
  split; [apply run_result; vm_compute; reflexivity|].
  apply (server_fields_from_vendor_keys (example_cloud true)
           (store_of [dict_of vendor_server; nova_flavor_ref])
           0%nat (dict_of vendor_server)).
  - reflexivity.
  - apply closed_dict_of. repeat constructor. eexists. reflexivity.
  - apply run_result. vm_compute. reflexivity.
Defined.

Lemma server_fields_and_their_defaults_witness :
  let self := example_cloud true in
  let d := dict_of server_from_volume in
  let h := store_of [d; nova_flavor_ref] in
  ∃ ret h',
    run (_normalize_server self (VDict 0%nat)) h = (Ok ret, h') ∧
    normalized ret h' (λ R _,
      (R !! "id" = d !! "id" ∧ R !! "name" = d !! "name" ∧
       R !! "flavor" = d !! "flavor" ∧ R !! "image" = d !! "image") ∧
      (∀ field, field ∈ _SERVER_FIELDS →
                R !! field = Some (default VNone (d !! field))) ∧
      ∃ b z,
        R !! "has_config_drive" = Some (VBool b) ∧
        R !! "progress" = Some (VInt z) ∧
        (scalar (d !! "config_drive") →
         b = to_bool_of (default (VBool false) (d !! "config_drive"))) ∧
        popped_int (d !! "progress") z).
Proof.
  cbv zeta. eexists _, _.
  split; [apply run_result; vm_compute; reflexivity|].
  apply (server_fields_and_their_defaults (example_cloud true)
           (store_of [dict_of server_from_volume; nova_flavor_ref])
           0%nat (dict_of server_from_volume)).
  - reflexivity.
  - apply closed_dict_of. repeat constructor. eexists. reflexivity.
  - apply run_result. vm_compute. reflexivity.
Defined.

Lemma server_legacy_aliases_witness :
  let self := example_cloud false in
  let d := dict_of vendor_server in
  let h := store_of [d; nova_flavor_ref] in
  ∃ ret h',
    run (_normalize_server self (VDict 0%nat)) h = (Ok ret, h') ∧
    normalized ret h' (λ R _,
      R !! "hostId" = R !! "host_id" ∧
      R !! "config_drive"
      = Some (default (VBool false) (d !! "config_drive")) ∧
      R !! "az" = Some (default VNone (d !! "OS-EXT-AZ:availability_zone")) ∧
      R !! "region" = Some (region_name self) ∧
      R !! "cloud" = Some (cloud_name self)).
Proof.
  cbv zeta. eexists _, _.
  split; [apply run_result; vm_compute; reflexivity|].
  apply (server_legacy_aliases (example_cloud false)
           (store_of [dict_of vendor_server; nova_flavor_ref])
           0%nat (dict_of vendor_server)).
  - reflexivity.
  - reflexivity.
  - apply closed_dict_of. repeat constructor. eexists. reflexivity.
  - apply run_result. vm_compute. reflexivity.
Defined.

Lemma image_visibility_and_is_public_witness :
  let self := example_cloud true in
  let d := dict_of glance_image in
  let h := store_of [d; dict_of glance_properties] in
  ∃ ret h',
    run (_normalize_image self (VDict 0%nat)) h = (Ok ret, h') ∧
    ∃ r R, ret = VDict r ∧ h' !! r = Some R ∧
      let visibility := default VNone (d !! "visibility") in
      let is_public := default (VBool false) (d !! "is_public") in
      R !! "visibility"
      = Some (if bool_of visibility then visibility
              else VStr (if bool_of is_public then "public" else "private")) ∧
      R !! "is_public"
      = Some (if bool_of visibility
              then VBool (py_eq_str visibility "public")
              else is_public).
Proof.
  cbv zeta. eexists _, _.
  split; [apply run_result; vm_compute; reflexivity|].
  apply (image_visibility_and_is_public (example_cloud true)
           (store_of [dict_of glance_image; dict_of glance_properties])
           0%nat (dict_of glance_image)).
  - reflexivity.
  - reflexivity.
  - apply closed_dict_of. repeat constructor. eexists. reflexivity.
  - apply run_result. vm_compute. reflexivity.
  - exact I.
  - exact I.
Defined.

Lemma image_fields_and_their_defaults_witness :
  let self := example_cloud true in
  let d := dict_of glance_image in
  let h := store_of [d; dict_of glance_properties] in
  ∃ ret h',
    run (_normalize_image self (VDict 0%nat)) h = (Ok ret, h') ∧
    ∃ r R, ret = VDict r ∧ h' !! r = Some R ∧
      (∀ field, field ∈ [ "checksum"; "container_format"; "created_at";
                          "direct_url"; "disk_format"; "file"; "id"; "name";
                          "owner"; "status"; "tags"; "updated_at" ] →
                R !! field = Some (default VNone (d !! field))) ∧
      (∃ min_ram min_disk size virtual_size,
         (R !! "min_ram" = Some (VInt min_ram) ∧
          R !! "min_disk" = Some (VInt min_disk) ∧
          R !! "size" = Some (VInt size) ∧
          R !! "virtual_size" = Some (VInt virtual_size)) ∧
         popped_int (Some (default VNone (d !! "min_ram"))) min_ram ∧
         popped_int (Some (default VNone (d !! "min_disk"))) min_disk ∧
         popped_int (Some (default VNone (d !! "size"))) size ∧
         popped_int (Some (default VNone (d !! "virtual_size")))
           virtual_size) ∧
      (∃ b, R !! "is_protected" = Some (VBool b) ∧
            (scalar (d !! "protected") →
             b = to_bool_of (default (VBool false) (d !! "protected")))) ∧
      R !! "locations" = Some (default (VList []) (d !! "locations")).
Proof.
  cbv zeta. eexists _, _.
  split; [apply run_result; vm_compute; reflexivity|].
  apply (image_fields_and_their_defaults (example_cloud true)
           (store_of [dict_of glance_image; dict_of glance_properties])
           0%nat (dict_of glance_image)).
  - reflexivity.
  - reflexivity.
  - apply closed_dict_of. repeat constructor. eexists. reflexivity.
  - apply run_result. vm_compute. reflexivity.
Defined.

Lemma image_location_and_properties_object_witness :
  let self := example_cloud true in
  let d := dict_of glance_image in
  let h := store_of [d; dict_of glance_properties] in
  ∃ ret h',
    run (_normalize_image self (VDict 0%nat)) h = (Ok ret, h') ∧
    ∃ r R, ret = VDict r ∧ h' !! r = Some R ∧
      R !! "location"
      = Some (_get_current_location self (default VNone (d !! "owner"))
                VNone) ∧
      match d !! "properties" with
      | Some properties => R !! "properties" = Some properties
      | None => ∃ p, R !! "properties" = Some (VDict p)
      end.
Proof.
  cbv zeta. eexists _, _.
  split; [apply run_result; vm_compute; reflexivity|].
  apply (image_location_and_properties_object (example_cloud true)
           (store_of [dict_of glance_image; dict_of glance_properties])
           0%nat (dict_of glance_image)).
  - reflexivity.
  - reflexivity.
  - apply closed_dict_of. repeat constructor. eexists. reflexivity.
  - apply run_result. vm_compute. reflexivity.
Defined.

(** ** The list filters *)

Lemma value_None_or v : v = VNone ∨ v ≠ VNone.
Proof. destruct v; auto. Qed.

Section UtilsFacts.
Variable str_other : value → string.


Lemma key_value_present want_max key (d : dict) v :
  d !! key = Some v → v ≠ VNone →
  key_value str_other want_max key d =
    if falsy v then Ok (Some 0)
    else match py_int v with
         | Ok z => Ok (Some z)
         | Raise _ =>
             Raise (OpenStackCloudException (extremum_message str_other want_max key v))
         end.
Proof. unfold key_value. intros -> Hv. by destruct v. Qed.

Lemma key_value_absent want_max key (d : dict) :
  d !! key = None ∨ d !! key = Some VNone →
  key_value str_other want_max key d = Ok None.
Proof. unfold key_value. by intros [-> | ->]. Qed.

Lemma key_value_falsy want_max key (d : dict) v :
  d !! key = Some v → v ≠ VNone → falsy v = true →
  key_value str_other want_max key d = Ok (Some 0).
Proof. intros Hd Hv Hf. by rewrite (key_value_present _ _ _ v), Hf. Qed.

Lemma key_value_zero want_max key (d : dict) :
  key_value str_other want_max key (<[key := VInt 0]> d) = Ok (Some 0).
Proof. unfold key_value. by rewrite lookup_insert_eq. Qed.



(** What a record supplies, read off its value. *)
Lemma key_value_supplies want_max key (d : dict) z :
  key_value str_other want_max key d = Ok (Some z) ↔ supplies key d z.
Proof.
  unfold supplies. destruct (d !! key) as [v|] eqn:Hd.
  2: { unfold key_value. rewrite Hd. split; [done|]. by intros (v & Hv & _). }
  destruct (value_None_or v) as [->|Hv].
  { unfold key_value. rewrite Hd. split; [done|].
    intros (v & [= <-] & Hv & _). by destruct Hv. }
  rewrite (key_value_present _ _ _ v) by done. split.
  - intros Hk. exists v. do 2 (split; [done|]).
    destruct (falsy v); [by injection Hk|].
    destruct (py_int v); [|done]. by injection Hk as ->.
  - intros (v' & [= <-] & _ & Hz).
    destruct (falsy v); [by subst|]. by rewrite Hz.
Qed.

Lemma key_value_nothing want_max key (d : dict) :
  key_value str_other want_max key d = Ok None ↔
  d !! key = None ∨ d !! key = Some VNone.
Proof.
  split; [|apply key_value_absent].
  destruct (d !! key) as [v|] eqn:Hd; [|by left].
  destruct (value_None_or v) as [->|Hv]; [by right|].
  rewrite (key_value_present _ _ _ v) by done.
  destruct (falsy v); [done|]. by destruct (py_int v).
Qed.

Lemma bounds_refl want_max m : bounds want_max m m.
Proof. unfold bounds. destruct want_max; lia. Qed.

Lemma bounds_better want_max best z m :
  bounds want_max m (better want_max best z) →
  bounds want_max m z ∧ ∀ b, best = Some b → bounds want_max m b.
Proof.
  unfold bounds, better.
  destruct want_max, best as [b|]; (split; [lia|]); intros b' [= <-]; lia.
Qed.

Lemma better_one_of want_max best z :
  better want_max best z = z ∨ best = Some (better want_max best z).
Proof.
  unfold better. destruct best as [b|]; [|by left].
  destruct want_max.
  - destruct (Z.max_spec b z) as [[_ ->]|[_ ->]]; auto.
  - destruct (Z.min_spec b z) as [[_ ->]|[_ ->]]; auto.
Qed.

(** What the scan returns is the extremum of [best] and of the integers
    that the records supply. *)
Lemma find_extremum_from_spec want_max key data best r :
  find_extremum_from str_other want_max key data best = Ok r →
  (∀ b, best = Some b → ∃ m, r = Some m ∧ bounds want_max m b) ∧
  (∀ d z, d ∈ data → supplies key d z →
          ∃ m, r = Some m ∧ bounds want_max m z) ∧
  (∀ m, r = Some m → best = Some m ∨ ∃ d, d ∈ data ∧ supplies key d m).
Proof.
  revert best. induction data as [|d0 data IH]; intros best Hr.
  { injection Hr as <-. split; [|split].
    - intros b ->. exists b. split; [done|apply bounds_refl].
    - intros d z Hin. by apply elem_of_nil in Hin.
    - intros m ->. by left. }
  simpl in Hr.
  destruct (key_value str_other want_max key d0) as [[z0|]|e] eqn:Hk;
    [| |done]; destruct (IH _ Hr) as (Hbest & Hdata & Hone).
  - destruct (Hbest _ eq_refl) as (m & -> & Hm).
    apply bounds_better in Hm as [Hz0 Hb].
    split; [|split].
    + intros b ->. exists m. split; [done|]. by apply Hb.
    + intros d z Hin Hz. apply elem_of_cons in Hin as [-> | Hin]; [|eauto].
      apply (key_value_supplies want_max) in Hz. rewrite Hk in Hz.
      injection Hz as <-. eauto.
    + intros m' [= <-].
      destruct (Hone m eq_refl) as [[= Hm]|(d & Hin & Hd)].
      * destruct (better_one_of want_max best z0) as [Hz|Hb'].
        -- right. exists d0. split; [by left|].
           apply (key_value_supplies want_max). congruence.
        -- left. congruence.
      * right. exists d. split; [by right|done].
  - split; [done|split].
    + intros d z Hin Hz. apply elem_of_cons in Hin as [-> | Hin]; [|eauto].
      apply (key_value_supplies want_max) in Hz. congruence.
    + intros m Hm. destruct (Hone m Hm) as [?|(d & Hin & Hd)]; [by left|].
      right. exists d. split; [by right|done].
Qed.

Lemma find_extremum_spec want_max key data m :
  find_extremum str_other key data want_max = Ok (Some m) →
  extremum_of want_max key data m.
Proof.
  intros Hr. apply find_extremum_from_spec in Hr as (_ & Hdata & Hone).
  split.
  - by destruct (Hone m eq_refl).
  - intros d z Hin Hz. by destruct (Hdata d z Hin Hz) as (m' & [= <-] & Hm).
Qed.

Lemma find_extremum_from_app want_max key pre post best :
  find_extremum_from str_other want_max key (pre ++ post) best =
  match find_extremum_from str_other want_max key pre best with
  | Ok best' => find_extremum_from str_other want_max key post best'
  | Raise e => Raise e
  end.
Proof.
  revert best. induction pre as [|d pre IH]; intros best; simpl; [done|].
  destruct (key_value str_other want_max key d) as [[z|]|e]; auto.
Qed.

(** Two records that supply the same thing are interchangeable. *)
Lemma find_extremum_same_supply want_max key pre d d' post :
  key_value str_other want_max key d = key_value str_other want_max key d' →
  find_extremum str_other key (pre ++ d :: post) want_max =
  find_extremum str_other key (pre ++ d' :: post) want_max.
Proof.
  intros Heq. unfold find_extremum.
  rewrite !find_extremum_from_app. simpl. by rewrite Heq.
Qed.

(** A record that supplies nothing can be left out. *)
Lemma find_extremum_skip want_max key pre d post :
  key_value str_other want_max key d = Ok None →
  find_extremum str_other key (pre ++ d :: post) want_max =
  find_extremum str_other key (pre ++ post) want_max.
Proof.
  intros Heq. unfold find_extremum.
  rewrite !find_extremum_from_app. simpl. by rewrite Heq.
Qed.

Lemma find_extremum_from_none want_max key data best :
  (∀ d, d ∈ data → d !! key = None ∨ d !! key = Some VNone) →
  find_extremum_from str_other want_max key data best = Ok best.
Proof.
  revert best. induction data as [|d data IH]; intros best Hall; [done|].
  simpl. rewrite key_value_absent.
  - apply IH. intros d' Hd'. apply Hall. by right.
  - apply Hall. by left.
Qed.

(** *** The extremum finder *)

(** C3, as amended: in [safe_dict_min] and [safe_dict_max], a record whose
    value for the key is empty or false-like but not [None] (0, [False],
    an empty string) counts as the value 0: the result is at most 0 for a
    minimum, at least 0 for a maximum.  Every other value counts as its
    integer.  A record without the key, or with the value [None], is
    skipped: the result is the number that some record with a value other
    than [None] supplies, and the search gives the same with that record
    left out.  When no record has the key, or a value other than [None]
    for it, the result is [None]. *)
Theorem C3_falsy_counts_as_zero_None_and_absent_skipped
    (want_max : bool) (key : string) (data : list dict) :
  let search :=
    if want_max then safe_dict_max str_other else safe_dict_min str_other in
  (∀ r, search key data = Ok r →
     (∀ d v, d ∈ data → d !! key = Some v → v ≠ VNone → falsy v = true →
             ∃ m, r = Some m ∧ bounds want_max m 0) ∧
     (∀ d v z, d ∈ data → d !! key = Some v → falsy v = false →
               py_int v = Ok z → ∃ m, r = Some m ∧ bounds want_max m z) ∧
     (∀ m, r = Some m →
           ∃ d v, d ∈ data ∧ d !! key = Some v ∧ v ≠ VNone ∧
                  if falsy v then m = 0 else py_int v = Ok m)) ∧
  (∀ pre d post v,
     data = (pre ++ d :: post)%list →
     d !! key = Some v → v ≠ VNone → falsy v = true →
     search key data = search key (pre ++ <[key := VInt 0]> d :: post)%list) ∧
  (∀ pre d post,
     data = (pre ++ d :: post)%list →
     d !! key = None ∨ d !! key = Some VNone →
     search key data = search key (pre ++ post)%list) ∧
  ((∀ d, d ∈ data → d !! key = None ∨ d !! key = Some VNone) →
   search key data = Ok None).
Proof.
  assert (Hs : (if want_max then safe_dict_max str_other
                else safe_dict_min str_other)
               = λ key data, find_extremum str_other key data want_max)
    by by destruct want_max.
  cbv zeta. rewrite Hs. clear Hs. split; [|split; [|split]].
  - intros r Hr.
    apply find_extremum_from_spec in Hr as (_ & Hdata & Hone).
    split; [|split].
    + intros d v Hin Hd Hv Hf. apply (Hdata d 0 Hin).
      exists v. by rewrite Hf.
    + intros d v z Hin Hd Hf Hz. apply (Hdata d z Hin).
      exists v. rewrite Hf. split; [done|]. split; [|done].
      intros ->. discriminate Hf.
    + intros m Hm.
      destruct (Hone m Hm) as [?|(d & Hin & v & Hd & Hv & Hz)]; [done|].
      by exists d, v.
  - intros pre d post v -> Hd Hv Hf.
    apply find_extremum_same_supply.
    by rewrite (key_value_falsy _ _ _ v), key_value_zero.
  - intros pre d post -> Hd.
    apply find_extremum_skip. by apply key_value_absent.
  - intros Hall. by apply find_extremum_from_none.
Qed.




(** *** The range filter *)

Lemma parse_bound_None t : ¬ is_bound t → parse_bound t = None.
Proof.
  unfold is_bound, parse_bound. intros Hn.
  destruct (String.eqb_spec t ""); simpl; [done|].
  destruct (all_digits t); [|done]. by destruct Hn.
Qed.

Lemma parse_range_None s :
  ¬ is_bound s →
  (∀ op t, op ∈ ["<"; ">"; "<="; ">="] → s = op ++ t → ¬ is_bound t) →
  parse_range (Some s) = None.
Proof.
  intros Hs Hop.
  assert (Hlt : ∀ t, s = String "<" t → parse_bound t = None).
  { intros t ->. apply parse_bound_None, (Hop "<"); [set_solver|done]. }
  assert (Hgt : ∀ t, s = String ">" t → parse_bound t = None).
  { intros t ->. apply parse_bound_None, (Hop ">"); [set_solver|done]. }
  assert (Hle : ∀ t, s = String "<" (String "=" t) → parse_bound t = None).
  { intros t ->. apply parse_bound_None, (Hop "<="); [set_solver|done]. }
  assert (Hge : ∀ t, s = String ">" (String "=" t) → parse_bound t = None).
  { intros t ->. apply parse_bound_None, (Hop ">="); [set_solver|done]. }
  pose proof (parse_bound_None s Hs) as Hb.
  unfold parse_range.
  repeat match goal with
         | |- context [match ?x with _ => _ end] =>
             match type of x with
             | string => is_var x; destruct x
             | ascii => is_var x; destruct x
             | bool => is_var x; destruct x
             end
         end;
    first [ by rewrite Hb
          | by erewrite Hle
          | by erewrite Hge
          | by erewrite Hlt
          | by erewrite Hgt ].
Qed.

(** C5: a range string that is not "min", not "max", not an integer and
    not one of the comparators <, >, <=, >= followed by an integer makes
    [range_filter] fail with the message "Invalid range value: " followed
    by the string as given. *)
Theorem C5_invalid_range_echoes_input
    (data : list dict) (key range_str : string) :
  range_str ≠ "min" → range_str ≠ "max" →
  ¬ is_bound range_str →
  (∀ op t, op ∈ ["<"; ">"; "<="; ">="] → range_str = op ++ t →
           ¬ is_bound t) →
  range_filter str_other data key range_str =
    Raise (OpenStackCloudException ("Invalid range value: " ++ range_str)).
Proof.
  intros Hmin Hmax Hs Hop. unfold range_filter.
  destruct (String.eqb_spec range_str "min"); [done|].
  destruct (String.eqb_spec range_str "max"); [done|].
  by rewrite parse_range_None.
Qed.

Lemma keep_if_filter (test : dict → result bool) (P : dict → Prop)
    `{∀ d, Decision (P d)} data filtered :
  (∀ d, d ∈ data → test d = Ok (bool_decide (P d))) →
  keep_if test data filtered = Ok (filtered ++ filter P data)%list.
Proof.
  revert filtered.
  induction data as [|d data IH]; intros filtered Htest; simpl.
  { by rewrite app_nil_r. }
  rewrite Htest by by left.
  rewrite filter_cons. case_bool_decide; case_decide; try done.
  - rewrite IH by (intros; apply Htest; by right).
    by rewrite <- app_assoc.
  - apply IH. intros; apply Htest; by right.
Qed.

Lemma find_extremum_from_Ok want_max key data best r :
  find_extremum_from str_other want_max key data best = Ok r →
  ∀ d, d ∈ data → ∃ o, key_value str_other want_max key d = Ok o.
Proof.
  revert best. induction data as [|d0 data IH]; intros best Hr d Hin.
  { by apply elem_of_nil in Hin. }
  simpl in Hr.
  destruct (key_value str_other want_max key d0) as [o|e] eqn:Hk; [|done].
  apply elem_of_cons in Hin as [-> | Hin]; [by eauto|].
  destruct o; eapply IH; eauto.
Qed.

(** A search that finds no value matches nothing, and a search that fails
    makes the filter fail. *)
Lemma range_filter_no_extremum (want_max : bool) data key :
  let range_str := if want_max then "max" else "min" in
  (find_extremum str_other key data want_max = Ok None →
   range_filter str_other data key range_str = Ok []) ∧
  (∀ e, find_extremum str_other key data want_max = Raise e →
        range_filter str_other data key range_str = Raise e).
Proof.
  unfold range_filter, safe_dict_min, safe_dict_max.
  destruct want_max; simpl; split; by intros; simplify_eq; rewrite H.
Qed.

(** C6: with the range string "min" (respectively "max"), when the
    extremum finder computes [m], [m] is the least (respectively the
    greatest) of the integers that the records supply for the key, and
    [range_filter] returns exactly the records that supply [m], all of
    them, in the order they have in the input. *)
Theorem C6_range_filter_extremum
    (want_max : bool) (data : list dict) (key : string) (m : Z) :
  let finder :=
    if want_max then safe_dict_max str_other else safe_dict_min str_other in
  let range_str := if want_max then "max" else "min" in
  finder key data = Ok (Some m) →
  extremum_of want_max key data m ∧
  ∃ kept,
    range_filter str_other data key range_str = Ok kept ∧
    kept = filter (λ d, supplies key d m) data ∧
    sublist kept data ∧
    ∀ d, d ∈ kept ↔ d ∈ data ∧ supplies key d m.
Proof.
  cbv zeta. intros Hm.
  assert (Hfind : find_extremum str_other key data want_max = Ok (Some m))
    by by destruct want_max.
  split; [by apply find_extremum_spec|].
  eexists. split; [|split; [reflexivity|split]].
  - assert (keep_if (value_is str_other want_max key m) data []
            = Ok (filter (λ d, supplies key d m) data)) as Hkeep.
    { rewrite (keep_if_filter _ (λ d, supplies key d m)); [done|].
      intros d Hin.
      destruct (find_extremum_from_Ok _ _ _ _ _ Hfind d Hin) as [o Ho].
      unfold value_is. rewrite Ho. destruct o as [z|].
      - f_equal. destruct (Z.eqb_spec z m) as [->|Hne].
        + rewrite bool_decide_eq_true_2; [done|].
          by apply (key_value_supplies want_max).
        + rewrite bool_decide_eq_false_2; [done|].
          intros Hs. apply (key_value_supplies want_max) in Hs. congruence.
      - rewrite bool_decide_eq_false_2; [done|].
        intros Hs. apply (key_value_supplies want_max) in Hs. congruence. }
    unfold range_filter. destruct want_max; simpl; by rewrite Hm.
  - apply sublist_filter.
  - intros d. rewrite list_elem_of_filter. tauto.
Qed.
End UtilsFacts.

(** *** The unit tests of [test__utils.py] *)

Section UnitTests.
Variable str_other : value → string.

Example test_safe_dict_min_ints :
  safe_dict_min str_other "f1" (f1_data [VInt 3; VInt 2; VInt 1])
  = Ok (Some 1).
Proof. reflexivity. Qed.

Example test_safe_dict_min_strs :
  safe_dict_min str_other "f1" (f1_data [VStr "3"; VStr "2"; VStr "1"])
  = Ok (Some 1).
Proof. reflexivity. Qed.

Example test_safe_dict_min_None :
  safe_dict_min str_other "f1" (f1_data [VInt 3; VNone; VInt 1])
  = Ok (Some 1).
Proof. reflexivity. Qed.

Example test_safe_dict_min_key_missing :
  safe_dict_min str_other "f1"
    [ {[ "f1" := VInt 3 ]}; {[ "x" := VInt 2 ]}; {[ "f1" := VInt 1 ]} ]
  = Ok (Some 1).
Proof. reflexivity. Qed.

Example test_safe_dict_min_key_not_found :
  safe_dict_min str_other "doesnotexist" (f1_data [VInt 3; VInt 2; VInt 1])
  = Ok None.
Proof. reflexivity. Qed.

Example test_safe_dict_min_not_int :
  safe_dict_min str_other "f1" (f1_data [VInt 3; VStr "aaa"; VInt 1])
  = Raise (OpenStackCloudException
             "Search for minimum value failed. Value for f1 is not an integer: aaa").
Proof. reflexivity. Qed.

Example test_safe_dict_max_ints :
  safe_dict_max str_other "f1" (f1_data [VInt 3; VInt 2; VInt 1])
  = Ok (Some 3).
Proof. reflexivity. Qed.

Example test_safe_dict_max_strs :
  safe_dict_max str_other "f1" (f1_data [VStr "3"; VStr "2"; VStr "1"])
  = Ok (Some 3).
Proof. reflexivity. Qed.

Example test_safe_dict_max_None :
  safe_dict_max str_other "f1" (f1_data [VInt 3; VNone; VInt 1])
  = Ok (Some 3).
Proof. reflexivity. Qed.

Example test_safe_dict_max_key_missing :
  safe_dict_max str_other "f1"
    [ {[ "f1" := VInt 3 ]}; {[ "x" := VInt 2 ]}; {[ "f1" := VInt 1 ]} ]
  = Ok (Some 3).
Proof. reflexivity. Qed.

Example test_safe_dict_max_key_not_found :
  safe_dict_max str_other "doesnotexist" (f1_data [VInt 3; VInt 2; VInt 1])
  = Ok None.
Proof. reflexivity. Qed.

Example test_safe_dict_max_not_int :
  safe_dict_max str_other "f1" (f1_data [VInt 3; VStr "aaa"; VInt 1])
  = Raise (OpenStackCloudException
             "Search for maximum value failed. Value for f1 is not an integer: aaa").
Proof. reflexivity. Qed.
End UnitTests.

Example test_parse_range :
  parse_range None = None ∧
  parse_range (Some "<invalid") = None ∧
  parse_range (Some "1024") = Some (None, 1024) ∧
  parse_range (Some "<1024") = Some (Some "<", 1024) ∧
  parse_range (Some ">1024") = Some (Some ">", 1024) ∧
  parse_range (Some "<=1024") = Some (Some "<=", 1024) ∧
  parse_range (Some ">=1024") = Some (Some ">=", 1024).
Proof. repeat split; reflexivity. Qed.

Example test_range_filter (str_other : value → string) :
  range_filter str_other RANGE_DATA "key1" "min" = Ok (slice 0 2 RANGE_DATA) ∧
  range_filter str_other RANGE_DATA "key1" "max" = Ok (slice 4 6 RANGE_DATA) ∧
  range_filter str_other RANGE_DATA "key1" "<3" = Ok (slice 0 4 RANGE_DATA) ∧
  range_filter str_other RANGE_DATA "key1" "2" = Ok (slice 2 4 RANGE_DATA) ∧
  range_filter str_other RANGE_DATA "key1" "<1A0"
    = Raise (OpenStackCloudException "Invalid range value: <1A0") ∧
  range_filter str_other RANGE_DATA "key1" "<>100"
    = Raise (OpenStackCloudException "Invalid range value: <>100").
Proof. repeat split; vm_compute; reflexivity. Qed.

(** C3, as stated, fails: the key is present with the false-like value
    [None] in the second record of [test_safe_dict_min_None], and the
    minimum is 1, whereas it is 0 when that record holds the value 0. *)
Lemma C3_None_does_not_count_as_zero :
  let data := f1_data [VInt 3; VNone; VInt 1] in
  data !! 1%nat = Some {[ "f1" := VNone ]} ∧ falsy VNone = true ∧
  safe_dict_min unrendered "f1" data = Ok (Some 1) ∧
  safe_dict_min unrendered "f1" (f1_data [VInt 3; VInt 0; VInt 1])
    = Ok (Some 0).
Proof. repeat split; reflexivity. Qed.



Lemma C5_witness :
  range_filter unrendered RANGE_DATA "key1" "<1A0"
  = Raise (OpenStackCloudException "Invalid range value: <1A0").
Proof.
  apply (C5_invalid_range_echoes_input unrendered RANGE_DATA "key1" "<1A0").
  - discriminate.
  - discriminate.
  - intros [_ H]. discriminate H.
  - intros op t Hop Heq [_ H].
    repeat (apply elem_of_cons in Hop as [-> | Hop]);
      [..|by apply elem_of_nil in Hop];
      cbv in Heq; try discriminate Heq;
      injection Heq as <-; discriminate H.
Defined.

Lemma C6_witness :
  extremum_of false "key1" RANGE_DATA 1 ∧
  ∃ kept,
    range_filter unrendered RANGE_DATA "key1" "min" = Ok kept ∧
    kept = filter (λ d, supplies "key1" d 1) RANGE_DATA ∧
    sublist kept RANGE_DATA ∧
    ∀ d, d ∈ kept ↔ d ∈ RANGE_DATA ∧ supplies "key1" d 1.
Proof.
  apply (C6_range_filter_extremum unrendered false RANGE_DATA "key1" 1).
  reflexivity.
Defined.
